(** * The Docker scheduler of microscaling: [scheduler/docker/docker.go]

    A shallow embedding of the scheduler's bookkeeping: the container record
    store ([taskContainers]), the stop operation, the scale pass
    ([StopStartTasks]), the observation pass ([CountAllTasks]) and task
    registration ([InitScheduler]), with the properties the specification
    states about them. *)

From Stdlib Require Import ZArith String Ascii List Lia.
From stdpp Require Import base option list gmap strings fin_maps.

Local Open Scope string_scope.
Local Open Scope list_scope.

(** ** Machine integers

    Go's [int] on the 64-bit platforms the scheduler is built for: a value of
    [Z] in the two's complement range, every arithmetic result wrapped. *)

Definition int_min : Z := (- 2 ^ 63)%Z.
Definition int_max : Z := (2 ^ 63 - 1)%Z.

Definition wrap (z : Z) : Z := ((z + 2 ^ 63) mod 2 ^ 64 - 2 ^ 63)%Z.

Definition int_add (a b : Z) : Z := wrap (a + b).
Definition int_sub (a b : Z) : Z := wrap (a - b).

Definition is_int (z : Z) : Prop := (int_min <= z <= int_max)%Z.

(** ** Strings *)

(** [strings.Contains(s, substr)]: [substr] occurs somewhere in [s]. *)
Fixpoint Contains (s substr : string) : bool :=
  String.prefix substr s ||
  match s with
  | EmptyString => false
  | String _ s' => Contains s' substr
  end.

(** ** The task collection of package [demand] *)

Module demand.

(** Modelled from the spec: the task descriptor [demand.Task], declared in
    package [demand] and not part of the scheduler's file; section 3 of the
    specification lists its fields.  The launch parameters other than the
    image and the command do not influence the bookkeeping. *)
Record Task := mkTask {
  Name : string;
  Image : string;
  Command : string;
  Demand : Z;
  Requested : Z;
  Running : Z
}.

Definition setRequested (t : Task) (n : Z) : Task :=
  mkTask (Name t) (Image t) (Command t) (Demand t) n (Running t).

Definition setRunning (t : Task) (n : Z) : Task :=
  mkTask (Name t) (Image t) (Command t) (Demand t) (Requested t) n.

(** The slice [Tasks.Tasks] of task pointers.  The collection holds one
    pointer per task, so a pointer is modelled by the position of its task in
    the list and a write through the pointer by an update at that position. *)
Abbreviation ptr := nat (only parsing).

(** Modelled from the spec: [Tasks.GetTask], the lookup by name of package
    [demand], which fails for a name no task of the collection carries.  It
    yields the pointer to the first task with that name. *)
Fixpoint GetTask_from (i : ptr) (ts : list Task) (name : string) : option ptr :=
  match ts with
  | [] => None
  | t :: ts' => if String.eqb (Name t) name then Some i
                else GetTask_from (S i) ts' name
  end.

Definition GetTask (ts : list Task) (name : string) : option ptr :=
  GetTask_from 0 ts name.

End demand.

Import demand.

(** ** The container record store *)

Record dockerContainer := mkContainer {
  state : string;
  updated : bool
}.

Definition setState (v : dockerContainer) (s : string) : dockerContainer :=
  mkContainer s (updated v).

Definition setUpdated (v : dockerContainer) (b : bool) : dockerContainer :=
  mkContainer (state v) b.

(** The scheduler.  The runtime client is outside the model: the answers of
    the runtime are inputs of the operations that call it.  A task name with
    no entry in [taskContainers] reads as Go's nil map. *)
Record DockerScheduler := mkScheduler {
  pullImages : bool;
  taskContainers : gmap string (gmap string dockerContainer)
}.

Definition setContainers (c : DockerScheduler)
    (tc : gmap string (gmap string dockerContainer)) : DockerScheduler :=
  mkScheduler (pullImages c) tc.

(** [NewScheduler], once the client is connected. *)
Definition NewScheduler (pull : bool) : DockerScheduler := mkScheduler pull ∅.

(** The record of container [id] of task [name], if the store has one. *)
Definition record (c : DockerScheduler) (name id : string) : option dockerContainer :=
  taskContainers c !! name ≫= λ m, m !! id.

(** The store with the record of container [id] of task [name] set to [cc]. *)
Definition put_record (c : DockerScheduler) (name id : string) (cc : dockerContainer)
    : DockerScheduler :=
  setContainers c
    (<[name := <[id := cc]> (default ∅ (taskContainers c !! name))]> (taskContainers c)).

(** Errors returned by the scheduler's operations. *)
Inductive error :=
| ErrRuntime (msg : string)          (* an error of the runtime client *)
| ErrNoContainers (taskName : string) (* "[stop] No containers of type %s to kill" *)
| ErrListContainers (e : error).     (* "Failed to list containers: %v" *)

(** The goroutines an operation launches. *)
Inductive unit_of_work :=
| StartUnit (taskName : string)
| StopUnit (taskName containerToKill : string).

(** Every identifier under which the scheduler files a record is the
    12-character prefix of a runtime identifier. *)
Definition store_ids_ok (c : DockerScheduler) : Prop :=
  ∀ name id cc, record c name id = Some cc → String.length id = 12.

(** A call either returns or panics (a slice out of range, an assignment to
    an entry of a nil map). *)
Inductive outcome (A : Type) :=
| Returns (a : A)
| Panics.
Arguments Returns {A} a.
Arguments Panics {A}.

Definition bind_outcome {A B} (x : outcome A) (f : A → outcome B) : outcome B :=
  match x with
  | Returns a => f a
  | Panics => Panics
  end.

Global Instance error_eq_dec : EqDecision error.
Proof. solve_decision. Defined.

Section Scheduler.

(** Go leaves the order in which [range] visits a map unspecified: the order
    is a parameter, any enumeration of the map's entries. *)
Variable rangeOrder : gmap string dockerContainer → list (string * dockerContainer).
Hypothesis rangeOrder_perm : ∀ m, rangeOrder m ≡ₚ map_to_list m.

(** ** stopTask *)

(** The loop of [stopTask] over the task's records: the first record in state
    "running" is the container to kill and becomes "stopping". *)
Fixpoint stopTask_scan (entries : list (string * dockerContainer))
    (theseContainers : gmap string dockerContainer)
    : string * gmap string dockerContainer :=
  match entries with
  | [] => ("", theseContainers)
  | (id, v) :: rest =>
      if String.eqb (state v) "running"
      then (id, <[id := setState v "stopping"]> theseContainers)
      else stopTask_scan rest theseContainers
  end.

(** [stopTask]: the part that runs in the caller, under the store's lock, and
    the goroutine it launches when it found a container. *)
Definition stopTask (c : DockerScheduler) (task : Task)
    : DockerScheduler * option unit_of_work * option error :=
  let '(containerToKill, c') :=
    match taskContainers c !! Name task with
    | None => ("", c)
    | Some theseContainers =>
        let '(id, m) := stopTask_scan (rangeOrder theseContainers) theseContainers in
        (id, setContainers c (<[Name task := m]> (taskContainers c)))
    end in
  if String.eqb containerToKill ""
  then (c', None, Some (ErrNoContainers (Name task)))
  else (c', Some (StopUnit (Name task) containerToKill), None).

(** ** The goroutines of startTask and stopTask

    A goroutine calls the runtime outside the lock and writes to the store
    under it.  The answers of the runtime are parameters; the writes are
    given one by one, since other threads may run between two of them, and
    [startTask_unit] and [stopTask_unit] run the writes of one goroutine in a
    row. *)

(** The goroutine of [startTask], once [CreateContainer] has answered with
    the identifier [containerID] of the new container: the record filed
    under its first 12 characters. *)
Definition start_created (taskName containerID : string) (c : DockerScheduler)
    : outcome DockerScheduler :=
  if (String.length containerID <? 12)%nat then Panics else
  match taskContainers c !! taskName with
  | None => Panics
  | Some theseContainers =>
      Returns (setContainers c
        (<[taskName := <[substring 0 12 containerID := mkContainer "created" false]>
                         theseContainers]> (taskContainers c)))
  end.

(** [c.taskContainers[task.Name][id].state = st]: a write through the
    pointer the map holds, nil when the map has no record under [id]. *)
Definition set_record_state (taskName id st : string) (c : DockerScheduler)
    : outcome DockerScheduler :=
  match record c taskName id with
  | None => Panics
  | Some cc => Returns (put_record c taskName id (setState cc st))
  end.

(** The goroutine of [startTask]: [created] is the answer of
    [CreateContainer], [started] that of [StartContainer]. *)
Definition startTask_unit (created : error + string) (started : option error)
    (taskName : string) (c : DockerScheduler) : outcome DockerScheduler :=
  match created with
  | inl _ => Returns c
  | inr containerID =>
      bind_outcome (start_created taskName containerID c) (λ c1,
        match started with
        | Some _ => Returns c1
        | None => set_record_state taskName (substring 0 12 containerID) "starting" c1
        end)
  end.

(** The goroutine of [stopTask]: [stopped] is the answer of
    [StopContainer]; that of [RemoveContainer], which follows the write,
    changes nothing in the store. *)
Definition stopTask_unit (stopped : option error) (taskName containerToKill : string)
    (c : DockerScheduler) : outcome DockerScheduler :=
  match stopped with
  | Some _ => Returns c
  | None => set_record_state taskName containerToKill "removing" c
  end.

(** ** StopStartTasks *)

(** What a pass calls, in order: each call of [stopTask] with the pointer of
    its task and the error it returned, and each call of [startTask]. *)
Inductive event :=
| EvStop (p : ptr) (err : option error)
| EvStart (p : ptr).

Definition event_ptr (e : event) : ptr :=
  match e with
  | EvStop p _ => p
  | EvStart p => p
  end.

Definition is_stop_of (p : ptr) (e : event) : bool :=
  match e with
  | EvStop q _ => Nat.eqb p q
  | EvStart _ => false
  end.

Definition is_start_of (p : ptr) (e : event) : bool :=
  match e with
  | EvStop _ _ => false
  | EvStart q => Nat.eqb p q
  end.

(** How often a trace calls [stopTask], and [startTask], for the task at
    [p]. *)
Definition stops_of (p : ptr) (tr : list event) : nat :=
  length (List.filter (is_stop_of p) tr).

Definition starts_of (p : ptr) (tr : list event) : nat :=
  length (List.filter (is_start_of p) tr).

(** What the latest call of [stopTask] in a trace returned; no error when the
    trace has no such call. *)
Definition last_stop_result (tr : list event) : option error :=
  fold_left (λ acc e, match e with EvStop _ r => r | EvStart _ => acc end) tr None.

(** The variables a pass of [StopStartTasks] works on: the store, the tasks,
    the local [err], and what has been called and launched so far.  (The
    lines the pass writes to the log are left out.) *)
Record pass_state := mkPass {
  sched : DockerScheduler;
  tasks : list Task;
  err : option error;
  trace : list event;
  units : list unit_of_work
}.

(** [startTask]: all of it runs in the goroutine it launches. *)
Definition startTask (task : Task) : unit_of_work := StartUnit (Name task).

(** The two tests of the first loop. *)
Definition isTooFew (task : Task) : bool :=
  (Requested task <? Demand task)%Z && (Requested task =? Running task)%Z.

Definition isTooMany (task : Task) : bool :=
  (Demand task <? Requested task)%Z && (Requested task =? Running task)%Z.

(** The first loop: [i] is the pointer of the head of [ts]. *)
Fixpoint partition_loop (i : ptr) (ts : list Task) (tooMany tooFew : list ptr)
    : list ptr * list ptr :=
  match ts with
  | [] => (tooMany, tooFew)
  | task :: rest =>
      let tooFew := if isTooFew task then tooFew ++ [i] else tooFew in
      let tooMany := if isTooMany task then tooMany ++ [i] else tooMany in
      partition_loop (S i) rest tooMany tooFew
  end.

Definition tooMany_of (ts : list Task) : list ptr := (partition_loop 0 ts [] []).1.
Definition tooFew_of (ts : list Task) : list ptr := (partition_loop 0 ts [] []).2.

(** One iteration of [for i := 0; i < diff; i++] of the scale-down phase. *)
Definition stop_iter (p : ptr) (s : pass_state) : pass_state :=
  match tasks s !! p with
  | None => s
  | Some task =>
      let '(c', u, e) := stopTask (sched s) task in
      mkPass c' (<[p := setRequested task (int_sub (Requested task) 1)]> (tasks s))
             e (trace s ++ [EvStop p e]) (units s ++ option_list u)
  end.

(** One iteration of the inner loop of the scale-up phase. *)
Definition start_iter (p : ptr) (s : pass_state) : pass_state :=
  match tasks s !! p with
  | None => s
  | Some task =>
      mkPass (sched s) (<[p := setRequested task (int_add (Requested task) 1)]> (tasks s))
             (err s) (trace s ++ [EvStart p]) (units s ++ [startTask task])
  end.

(** The body of [for _, task := range tooMany]: [diff] is computed once, and
    the inner loop runs [diff] times, not at all when [diff] is not positive. *)
Definition scale_down (s : pass_state) (p : ptr) : pass_state :=
  match tasks s !! p with
  | None => s
  | Some task =>
      let diff := int_sub (Requested task) (Demand task) in
      Nat.iter (Z.to_nat diff) (stop_iter p) s
  end.

(** The body of [for _, task := range tooFew]. *)
Definition scale_up (s : pass_state) (p : ptr) : pass_state :=
  match tasks s !! p with
  | None => s
  | Some task =>
      let diff := int_sub (Demand task) (Requested task) in
      Nat.iter (Z.to_nat diff) (start_iter p) s
  end.

(** [StopStartTasks], up to [scaling.Wait()]: the value returned is [err] of
    the final state.  [sched] is the store as the calls of the caller leave
    it; the writes that goroutines make beside the pass are added in
    [StopStartTasks_among] below. *)
Definition StopStartTasks (c : DockerScheduler) (ts : list Task) : pass_state :=
  let '(tooMany, tooFew) := partition_loop 0 ts [] [] in
  let s := mkPass c ts None [] [] in
  let s := fold_left scale_down tooMany s in
  fold_left scale_up tooFew s.

(** ** CountAllTasks *)

Definition labelMap : string := "com.microscaling.microscaling-in-a-box".

(** A container as the runtime lists it ([docker.APIContainers]). *)
Record APIContainers := mkAPI {
  ID : string;
  Status : string;
  Labels : gmap string string
}.

(** The lines of the log, one constructor per call site. *)
Inductive log_entry :=
| LogUnexpectedStatus (status : string)      (* Errorf "Unexpected docker status %s" *)
| LogNotManaging (taskName : string)         (* Errorf "Received info about task %s that we're not managing" *)
| LogNoPreviousRecord (id newState : string) (* Infof "We have no previous record of container %s, state %s" *)
| LogNotTerminated (id : string)             (* Errorf "Container %s is being removed, but we didn't terminate it" *)
| LogDead (id : string)                      (* Errorf "Container %s is dead" *)
| LogTaskCounts (name : string) (running requested : Z) (* Debugf "  %s: internally running %d, requested %d" *)
| LogRecord (id st : string)                 (* Debugf "  %s - %s" *)
| LogDeleting (id : string)                  (* Debugf "    Deleting %s" *)
| LogBadState (id st : string).              (* Errorf "Bad state for container %s: %s" *)

Global Instance log_entry_eq_dec : EqDecision log_entry.
Proof. solve_decision. Defined.

(** The lines written with [Errorf] or [Infof]: the anomalies. *)
Definition is_anomaly (e : log_entry) : bool :=
  match e with
  | LogTaskCounts _ _ _ | LogRecord _ _ | LogDeleting _ => false
  | _ => true
  end.

Definition statusToState (status : string) : string * list log_entry :=
  if Contains status "Up" then ("running", [])
  else if Contains status "Removal" then ("removing", [])
  else if Contains status "Exit" then ("exited", [])
  else if Contains status "Dead" then ("dead", [])
  else ("unknown", [LogUnexpectedStatus status]).

(** What an observation pass works on. *)
Record world := mkWorld {
  w_sched : DockerScheduler;
  w_tasks : list Task;
  w_log : list log_entry
}.

(** The [switch newState] of the pass: whether [t.Running] is incremented,
    the record after the case, and the lines logged. *)
Definition applyObserved (newState id : string) (thisContainer : dockerContainer)
    : bool * dockerContainer * list log_entry :=
  if String.eqb newState "running" then
    (true,
     if String.eqb (state thisContainer) "starting" || String.eqb (state thisContainer) ""
     then setState thisContainer newState else thisContainer,
     [])
  else if String.eqb newState "removing" then
    (false, thisContainer,
     if negb (String.eqb (state thisContainer) "removing") then [LogNotTerminated id] else [])
  else if String.eqb newState "exited" then
    (false, thisContainer,
     if negb (String.eqb (state thisContainer) "stopping") &&
        negb (String.eqb (state thisContainer) "exited")
     then [LogNotTerminated id] else [])
  else if String.eqb newState "dead" then
    (false, setState thisContainer newState,
     if negb (String.eqb (state thisContainer) "dead") then [LogDead id] else [])
  else (false, thisContainer, []).

(** The body of [for i := range containers]. *)
Definition observe (w : world) (ct : APIContainers) : outcome world :=
  match Labels ct !! labelMap with
  | None => Returns w
  | Some taskName =>
      match GetTask (w_tasks w) taskName with
      | None => Returns (mkWorld (w_sched w) (w_tasks w) (w_log w ++ [LogNotManaging taskName]))
      | Some p =>
          let '(newState, log1) := statusToState (Status ct) in
          if (String.length (ID ct) <? 12)%nat then Panics else
          let id := substring 0 12 (ID ct) in
          match taskContainers (w_sched w) !! taskName with
          | None => Panics
          | Some theseContainers =>
              let '(thisContainer, log2) :=
                match theseContainers !! id with
                | Some cc => (cc, [])
                | None => (mkContainer "" false, [LogNoPreviousRecord id newState])
                end in
              let '(incr, thisContainer, log3) := applyObserved newState id thisContainer in
              let ts := if incr
                        then match w_tasks w !! p with
                             | Some t => <[p := setRunning t (int_add (Running t) 1)]> (w_tasks w)
                             | None => w_tasks w
                             end
                        else w_tasks w in
              let thisContainer := setUpdated thisContainer true in
              Returns (mkWorld
                (setContainers (w_sched w)
                   (<[taskName := <[id := thisContainer]> theseContainers]> (taskContainers (w_sched w))))
                ts (w_log w ++ log1 ++ log2 ++ log3))
          end
      end
  end.

Fixpoint observe_all (w : world) (containers : list APIContainers) : outcome world :=
  match containers with
  | [] => Returns w
  | ct :: rest => bind_outcome (observe w ct) (λ w', observe_all w' rest)
  end.

(** The first loop: every [Running] to 0, every flag of the tasks' records to
    false. *)
Definition reset_flags (tc : gmap string (gmap string dockerContainer)) (t : Task)
    : gmap string (gmap string dockerContainer) :=
  alter (fmap (λ cc, setUpdated cc false)) (Name t) tc.

Definition reset (w : world) : world :=
  mkWorld (setContainers (w_sched w) (fold_left reset_flags (w_tasks w) (taskContainers (w_sched w))))
          ((λ t, setRunning t 0) <$> w_tasks w)
          (w_log w).

(** The body of the inner loop of the last loop, for the record [cc] found
    under [id] in the map of task [name]. *)
Definition sweep_record (name : string) (st : DockerScheduler * list log_entry)
    (entry : string * dockerContainer) : DockerScheduler * list log_entry :=
  let '(c, log) := st in
  let '(id, cc) := entry in
  let log := log ++ [LogRecord id (state cc)] in
  if negb (updated cc) then
    if String.eqb (state cc) "removing" || String.eqb (state cc) "exited" then
      (setContainers c (alter (delete id) name (taskContainers c)), log ++ [LogDeleting id])
    else if negb (String.eqb (state cc) "created") && negb (String.eqb (state cc) "starting")
            && negb (String.eqb (state cc) "stopping") then
      (c, log ++ [LogBadState id (state cc)])
    else (c, log)
  else (c, log).

(** The body of the last loop.  The inner loop deletes no entry but the one
    it is at, so it visits the entries the map has when the loop begins. *)
Definition sweep_task (st : DockerScheduler * list log_entry) (task : Task)
    : DockerScheduler * list log_entry :=
  let '(c, log) := st in
  let log := log ++ [LogTaskCounts (Name task) (Running task) (Requested task)] in
  match taskContainers c !! Name task with
  | None => (c, log)
  | Some theseContainers =>
      fold_left (sweep_record (Name task)) (rangeOrder theseContainers) (c, log)
  end.

Definition sweep (w : world) : world :=
  let '(c, log) := fold_left sweep_task (w_tasks w) (w_sched w, w_log w) in
  mkWorld c (w_tasks w) log.

(** The state of the pass after its second loop, when the runtime listed
    [containers]. *)
Definition observed (containers : list APIContainers) (w : world) : outcome world :=
  observe_all (reset w) containers.

(** [CountAllTasks]: [listing] is the answer of [ListContainers]. *)
Definition CountAllTasks (listing : error + list APIContainers) (w : world)
    : outcome (world * option error) :=
  match listing with
  | inl e => Returns (w, Some (ErrListContainers e))
  | inr containers =>
      bind_outcome (observed containers w) (λ w', Returns (sweep w', None))
  end.

(** ** InitScheduler *)

(** [pull] is the answer of [PullImage], asked for only when the scheduler
    pulls images. *)
Definition InitScheduler (pull : option error) (c : DockerScheduler) (task : Task)
    : DockerScheduler * option error :=
  let c' := setContainers c (<[Name task := ∅]> (taskContainers c)) in
  if pullImages c then (c', pull) else (c', None).

(** ** The goroutines of a pass and the wait group [scaling]

    [startTask] and [stopTask] launch [go func() { scaling.Add(1); defer
    scaling.Done(); ... }()], and [StopStartTasks] ends with
    [scaling.Wait()].  A run interleaves the caller and the goroutines it has
    launched. *)

(** Where a launched goroutine is. *)
Inductive goroutine :=
| Launched    (* the go statement has run, the function has not begun *)
| Working     (* [scaling.Add(1)] done, the runtime calls under way *)
| Finished.   (* the deferred [scaling.Done()] done *)

(** Where the caller is: in the two scaling loops with units still to launch,
    at [scaling.Wait()], or back from [StopStartTasks]. *)
Inductive caller :=
| AtLoops (todo : list unit_of_work)
| AtWait
| HasReturned.

(** A run: where the caller is, the counter of the wait group, and the
    goroutines launched so far, each with the unit it carries out. *)
Record run := mkRun {
  pc : caller;
  scaling : Z;
  pool : list (unit_of_work * goroutine)
}.

(** Who takes the next step: the caller or the [i]-th goroutine launched. *)
Inductive thread :=
| Caller
| Goroutine (i : nat).

(** One step of a thread; [None] when the thread cannot move: a blocked
    [Wait], a goroutine that does not exist or has finished. *)
Definition step (r : run) (who : thread) : option run :=
  match who with
  | Caller =>
      match pc r with
      | AtLoops (u :: todo) => Some (mkRun (AtLoops todo) (scaling r) (pool r ++ [(u, Launched)]))
      | AtLoops [] => Some (mkRun AtWait (scaling r) (pool r))
      | AtWait => if (scaling r =? 0)%Z then Some (mkRun HasReturned (scaling r) (pool r))
                  else None
      | HasReturned => None
      end
  | Goroutine i =>
      match pool r !! i with
      | Some (u, Launched) => Some (mkRun (pc r) (scaling r + 1) (<[i := (u, Working)]> (pool r)))
      | Some (u, Working) => Some (mkRun (pc r) (scaling r - 1) (<[i := (u, Finished)]> (pool r)))
      | _ => None
      end
  end.

(** A schedule is the order in which the threads take their steps. *)
Fixpoint exec (r : run) (schedule : list thread) : option run :=
  match schedule with
  | [] => Some r
  | who :: rest => step r who ≫= λ r', exec r' rest
  end.

(** The run of a pass that launches [us], from its beginning, with the wait
    group as the program starts with it: the first pass.  The passes after
    it, which share the wait group with the goroutines left by the passes
    before, are in [runs] below. *)
Definition start_run (us : list unit_of_work) : run := mkRun (AtLoops us) 0 [].

(** ** Notions used to state the properties *)

(** [s'] differs from [s] in nothing that concerns the task at [p]. *)
Definition same_at (p : ptr) (s s' : pass_state) : Prop :=
  tasks s' !! p = tasks s !! p ∧
  stops_of p (trace s') = stops_of p (trace s) ∧
  starts_of p (trace s') = starts_of p (trace s).

(** The local [err] of the pass is what the latest call of [stopTask]
    returned. *)
Definition err_is_last (s : pass_state) : Prop := err s = last_stop_result (trace s).

(** The world a pass leaves when the runtime lists [containers]. *)
Definition after_pass (containers : list APIContainers) (w : world) : world :=
  match CountAllTasks (inr containers) w with
  | Returns (w', _) => w'
  | Panics => w
  end.

(** How many of the goroutines of a run have done [scaling.Add(1)] and not
    yet [scaling.Done()]. *)
Fixpoint working (gs : list (unit_of_work * goroutine)) : Z :=
  match gs with
  | [] => 0
  | (_, Working) :: gs' => 1 + working gs'
  | _ :: gs' => working gs'
  end.

(** A record the last loop of [CountAllTasks] deletes: not seen in the pass
    and "removing" or "exited". *)
Definition doomed (cc : dockerContainer) : bool :=
  negb (updated cc) && (String.eqb (state cc) "removing" || String.eqb (state cc) "exited").

(** A record the last loop reports as being in a bad state: not seen in the
    pass and in none of the five states the loop knows. *)
Definition stray (cc : dockerContainer) : bool :=
  negb (updated cc) &&
  negb (String.eqb (state cc) "removing" || String.eqb (state cc) "exited") &&
  (negb (String.eqb (state cc) "created") && negb (String.eqb (state cc) "starting")
   && negb (String.eqb (state cc) "stopping")).

(** The effect of one round of the innermost loop on the store, and the
    lines it writes. *)
Definition purge (name : string) (c : DockerScheduler) (entry : string * dockerContainer)
    : DockerScheduler :=
  if doomed entry.2
  then setContainers c (alter (delete entry.1) name (taskContainers c))
  else c.

Definition record_lines (entry : string * dockerContainer) : list log_entry :=
  LogRecord entry.1 (state entry.2) ::
  (if doomed entry.2 then [LogDeleting entry.1]
   else if stray entry.2 then [LogBadState entry.1 (state entry.2)]
   else []).

(** The entries the last loop visits for a task. *)
Definition entries_of (c : DockerScheduler) (name : string) : list (string * dockerContainer) :=
  match taskContainers c !! name with
  | None => []
  | Some theseContainers => rangeOrder theseContainers
  end.

(** [c] is the store [E] less some of the records of [E] that are to be
    deleted. *)
Definition remains (E c : DockerScheduler) : Prop :=
  ∀ n i, record c n i = record E n i ∨
         (record c n i = None ∧ ∃ cc, record E n i = Some cc ∧ doomed cc = true).

(** The state [statusToState] reads off the status of a listed container. *)
Definition newState_of (ct : APIContainers) : string := (statusToState (Status ct)).1.

(** The key under which a pass over the tasks [ts] files a listed container:
    the task its label names, when the collection has it, and the short form
    of its identifier. *)
Definition key_of (ts : list Task) (ct : APIContainers) : option (string * string) :=
  match Labels ct !! labelMap with
  | None => None
  | Some taskName =>
      match GetTask ts taskName with
      | None => None
      | Some _ => Some (taskName, substring 0 12 (ID ct))
      end
  end.

Definition keys (ts : list Task) (containers : list APIContainers) : list (string * string) :=
  omap (key_of ts) containers.

(** The state of a record, the empty string for a record there is not. *)
Definition state_of (r : option dockerContainer) : string := default "" (state <$> r).

(** What the [switch] makes of a record in state [st] when the runtime
    reports [newState]: the state it leaves and the lines it writes. *)
Definition next_state (newState st : string) : string :=
  state (applyObserved newState "" (mkContainer st false)).1.2.

Definition switch_lines (newState id st : string) : list log_entry :=
  (applyObserved newState id (mkContainer st false)).2.

(** The tasks after one round of the loop over the listed containers. *)
Definition bump (ts : list Task) (ct : APIContainers) : list Task :=
  match Labels ct !! labelMap with
  | None => ts
  | Some taskName =>
      match GetTask ts taskName with
      | None => ts
      | Some p =>
          if String.eqb (newState_of ct) "running"
          then match ts !! p with
               | Some t => <[p := setRunning t (int_add (Running t) 1)]> ts
               | None => ts
               end
          else ts
      end
  end.

(** The lines one round writes for a container filed under [id], [r] being
    the record found there. *)
Definition round_lines (ct : APIContainers) (id : string) (r : option dockerContainer)
    : list log_entry :=
  (statusToState (Status ct)).2 ++
  match r with Some _ => [] | None => [LogNoPreviousRecord id (newState_of ct)] end ++
  switch_lines (newState_of ct) id (state_of r).

(** One round of the loop over the listed containers, component by
    component: the store it leaves, the lines it writes, and whether it gets
    through without a panic. *)
Definition store_after_round (ts : list Task) (c : DockerScheduler) (ct : APIContainers)
    : DockerScheduler :=
  match key_of ts ct with
  | Some (n, i) =>
      put_record c n i (mkContainer (next_state (newState_of ct) (state_of (record c n i))) true)
  | None => c
  end.

Definition lines_of_round (ts : list Task) (c : DockerScheduler) (ct : APIContainers)
    : list log_entry :=
  match key_of ts ct with
  | Some (n, i) => round_lines ct i (record c n i)
  | None => match Labels ct !! labelMap with
            | Some n => [LogNotManaging n]
            | None => []
            end
  end.

Definition can_file (ts : list Task) (c : DockerScheduler) (ct : APIContainers) : Prop :=
  match key_of ts ct with
  | Some (n, _) => (12 ≤ String.length (ID ct))%nat ∧ is_Some (taskContainers c !! n)
  | None => True
  end.

(** The lines a pass has added to the log of [w] when it has reached [w']. *)
Definition lines_since (w w' : world) : list log_entry :=
  drop (length (w_log w)) (w_log w').

(** The calls of a pass that launch a goroutine: every [startTask], and
    every [stopTask] that returned no error. *)
Definition launches (e : event) : bool :=
  match e with
  | EvStop _ (Some _) => false
  | _ => true
  end.

Definition is_stop (e : event) : bool :=
  match e with EvStop _ _ => true | EvStart _ => false end.

Definition is_start (e : event) : bool :=
  match e with EvStop _ _ => false | EvStart _ => true end.

(** The containers the stop units among [us] are to stop, each with its
    task. *)
Definition stop_targets (us : list unit_of_work) : list (string * string) :=
  omap (λ u, match u with StopUnit n i => Some (n, i) | StartUnit _ => None end) us.

(** What a pass may make of a record: leave it, or turn it from "running" to
    "stopping". *)
Definition kept_or_stopping (before after : option dockerContainer) : Prop :=
  after = before ∨
  ∃ cc, before = Some cc ∧ state cc = "running" ∧ after = Some (setState cc "stopping").

(** Whether a pass over the tasks [ts] counts the listed container [ct] for
    the task at [p]: its label names a task, [GetTask] yields [p] for that
    name, and its status reads as "running". *)
Definition counted (ts : list Task) (p : ptr) (ct : APIContainers) : bool :=
  match Labels ct !! labelMap with
  | None => false
  | Some taskName =>
      match GetTask ts taskName with
      | None => false
      | Some q => Nat.eqb p q && String.eqb (newState_of ct) "running"
      end
  end.

(** The states the code writes into a record: the empty state of a record
    made by CountAllTasks, and the six string constants assigned by
    startTask, stopTask and CountAllTasks. *)
Definition assigned_states : list string :=
  [""; "created"; "starting"; "running"; "stopping"; "removing"; "dead"].

Definition store_states_ok (c : DockerScheduler) : Prop :=
  ∀ name id cc, record c name id = Some cc → state cc ∈ assigned_states.

(** The stores the scheduler can reach: from the empty store of
    NewScheduler, by the sections of code that run under the scheduler's
    lock, in any order and with any answers of the runtime.  The two writes
    of a start unit and the write of a stop unit are steps of their own, as
    other calls can take the lock between them. *)
Inductive reachable : DockerScheduler → Prop :=
| reach_new (pull : bool) : reachable (NewScheduler pull)
| reach_init (pull : option error) (c : DockerScheduler) (task : Task) :
    reachable c → reachable (InitScheduler pull c task).1
| reach_stopTask (c : DockerScheduler) (task : Task) :
    reachable c → reachable (stopTask c task).1.1
| reach_created (taskName containerID : string) (c c' : DockerScheduler) :
    reachable c → start_created taskName containerID c = Returns c' → reachable c'
| reach_starting (taskName id : string) (c c' : DockerScheduler) :
    reachable c → set_record_state taskName id "starting" c = Returns c' → reachable c'
| reach_removing (taskName id : string) (c c' : DockerScheduler) :
    reachable c → set_record_state taskName id "removing" c = Returns c' → reachable c'
| reach_count (listing : error + list APIContainers) (w w' : world) (e : option error) :
    reachable (w_sched w) → CountAllTasks listing w = Returns (w', e) →
    reachable (w_sched w').

(** The changes of state a pass of CountAllTasks makes: none, to "running"
    from "starting" or from the empty state, or to "dead". *)
Definition pass_moves (st st' : string) : Prop :=
  st' = st ∨ (st' = "running" ∧ (st = "starting" ∨ st = "")) ∨ st' = "dead".

(** The runs of the program over any number of passes.  The wait group is
    a variable of the package, so a pass starts with the counter and the
    goroutines that the passes before it left, and these go on to run beside
    it.  [runs n0 us r]: the run [r] is reached in a pass that launches the
    units [us] and that started with [n0] goroutines of earlier passes in
    the pool (none and [[]] before the first pass). *)
Inductive runs : nat → list unit_of_work → run → Prop :=
| runs_begin : runs 0 [] (mkRun HasReturned 0 [])
| runs_pass (n0 : nat) (us0 us : list unit_of_work) (r : run) :
    runs n0 us0 r → pc r = HasReturned →
    runs (length (pool r)) us (mkRun (AtLoops us) (scaling r) (pool r))
| runs_step (n0 : nat) (us : list unit_of_work) (r r' : run) (who : thread) :
    runs n0 us r → step r who = Some r' → runs n0 us r'.

(** The units of the pass under way, in the order the caller issues them:
    the ones whose go statement has run, which follow the [n0] goroutines of
    earlier passes in the pool, and the ones the loops have still to
    issue. *)
Definition issued (n0 : nat) (r : run) : list unit_of_work :=
  drop n0 (fst <$> pool r) ++ match pc r with AtLoops todo => todo | _ => [] end.

(** The writes of the goroutines that startTask and stopTask launch, each
    one a section of code under the scheduler's lock: the record a start
    unit files as "created" once CreateContainer has returned an identifier,
    its change to "starting" once StartContainer has succeeded, and the
    change to "removing" a stop unit makes once StopContainer has
    succeeded. *)
Inductive unit_write :=
| WriteCreated (taskName containerID : string)
| WriteStarting (taskName id : string)
| WriteRemoving (taskName id : string).

Definition apply_write (wr : unit_write) (c : DockerScheduler) : outcome DockerScheduler :=
  match wr with
  | WriteCreated taskName containerID => start_created taskName containerID c
  | WriteStarting taskName id => set_record_state taskName id "starting" c
  | WriteRemoving taskName id => set_record_state taskName id "removing" c
  end.

(** The record a write goes to. *)
Definition write_key (wr : unit_write) : string * string :=
  match wr with
  | WriteCreated taskName containerID => (taskName, substring 0 12 containerID)
  | WriteStarting taskName id | WriteRemoving taskName id => (taskName, id)
  end.

(** Writes of goroutines, one after the other; a write that panics brings
    the program down. *)
Fixpoint apply_writes (wrs : list unit_write) (c : DockerScheduler)
    : outcome DockerScheduler :=
  match wrs with
  | [] => Returns c
  | wr :: rest => bind_outcome (apply_write wr c) (apply_writes rest)
  end.

(** ** StopStartTasks with the goroutines beside it

    The goroutines that a pass launches, and those that earlier passes left,
    take the scheduler's lock between the calls of the caller and before
    [scaling.Wait()] returns.  [others k] are the writes they make after the
    caller has made [k] calls of stopTask and startTask and before its next
    call, or, after the last call, before the pass returns.  Any write a
    goroutine of the scheduler can make is admitted, whatever goroutine it
    comes from. *)
Definition setSched (s : pass_state) (c : DockerScheduler) : pass_state :=
  mkPass c (tasks s) (err s) (trace s) (units s).

Definition let_others (others : nat → list unit_write) (s : pass_state)
    : outcome pass_state :=
  bind_outcome (apply_writes (others (length (trace s))) (sched s))
    (λ c, Returns (setSched s c)).

Definition iter_among (others : nat → list unit_write) (iter : pass_state → pass_state)
    (os : outcome pass_state) : outcome pass_state :=
  bind_outcome os (λ s, bind_outcome (let_others others s) (λ s', Returns (iter s'))).

Definition scale_down_among (others : nat → list unit_write) (os : outcome pass_state)
    (p : ptr) : outcome pass_state :=
  bind_outcome os (λ s,
    match tasks s !! p with
    | None => Returns s
    | Some task =>
        let diff := int_sub (Requested task) (Demand task) in
        Nat.iter (Z.to_nat diff) (iter_among others (stop_iter p)) (Returns s)
    end).

Definition scale_up_among (others : nat → list unit_write) (os : outcome pass_state)
    (p : ptr) : outcome pass_state :=
  bind_outcome os (λ s,
    match tasks s !! p with
    | None => Returns s
    | Some task =>
        let diff := int_sub (Demand task) (Requested task) in
        Nat.iter (Z.to_nat diff) (iter_among others (start_iter p)) (Returns s)
    end).

Definition StopStartTasks_among (others : nat → list unit_write) (c : DockerScheduler)
    (ts : list Task) : outcome pass_state :=
  let '(tooMany, tooFew) := partition_loop 0 ts [] [] in
  let s := fold_left (scale_down_among others) tooMany (Returns (mkPass c ts None [] [])) in
  let s := fold_left (scale_up_among others) tooFew s in
  bind_outcome s (let_others others).

(** What a pass and the goroutines beside it may make of a record: leave
    it, turn it from "running" to "stopping" (stopTask), or write it as
    "created", "starting" or "removing" (a goroutine). *)
Definition kept_or_written (before after : option dockerContainer) : Prop :=
  kept_or_stopping before after ∨
  ∃ cc, after = Some cc ∧
        (state cc = "created" ∨ state cc = "starting" ∨ state cc = "removing").

(** [left_alone k c us c']: the store [c'] comes from [c] by calls of
    stopTask, which launched the stop units [us], passes of CountAllTasks
    and writes of goroutines to records other than the one at [k], in any
    number and order.  What is left out is what the stop unit of the
    container at [k] would write, a start unit filing a new container under
    the same short identifier, and InitScheduler. *)
Inductive left_alone (k : string * string)
    : DockerScheduler → list unit_of_work → DockerScheduler → Prop :=
| alone_refl (c : DockerScheduler) : left_alone k c [] c
| alone_stopTask (c c' : DockerScheduler) (us : list unit_of_work) (task : Task) :
    left_alone k c us c' →
    left_alone k c (us ++ option_list (stopTask c' task).1.2) (stopTask c' task).1.1
| alone_pass (c c' : DockerScheduler) (us : list unit_of_work)
    (listing : error + list APIContainers) (ts : list Task) (log : list log_entry)
    (w' : world) (e : option error) :
    left_alone k c us c' →
    CountAllTasks listing (mkWorld c' ts log) = Returns (w', e) →
    left_alone k c us (w_sched w')
| alone_write (c c' c'' : DockerScheduler) (us : list unit_of_work) (wr : unit_write) :
    left_alone k c us c' → write_key wr ≠ k → apply_write wr c' = Returns c'' →
    left_alone k c us c''.

(** [sub] occurs somewhere in [s]. *)
Definition occurs (sub s : string) : Prop :=
  ∃ pre post, s = String.append pre (String.append sub post).

(** ** Example inputs *)

(** The order in which the examples let [range] visit a map. *)
Definition listOrder (m : gmap string dockerContainer) : list (string * dockerContainer) :=
  map_to_list m.

Definition label_of (taskName : string) : gmap string string := {[ labelMap := taskName ]}.

(** The task of the scenarios of the specification: demand 3, requested 1,
    running 1; and a task that is in the middle of a change. *)
Definition web_up : Task := mkTask "web" "nginx" "" 3 1 1.
Definition db_changing : Task := mkTask "db" "postgres" "" 5 2 1.

(** Two tasks to scale down to nothing.  [api] is the task of another
    scenario of the specification: demand 0, requested 2, running 2, and
    exactly one container on record as "running".  [web] has one container
    to stop and has it on record. *)
Definition api_down : Task := mkTask "api" "api" "" 0 2 2.
Definition web_down : Task := mkTask "web" "nginx" "" 0 1 1.

Definition one_running : gmap string dockerContainer :=
  {[ "0123456789ab" := mkContainer "running" false ]}.

Definition store_web : DockerScheduler := mkScheduler false {[ "web" := one_running ]}.

Definition store_api_web : DockerScheduler :=
  mkScheduler false
    (<[ "api" := {[ "ba5eba11cafe" := mkContainer "running" false ]} ]>
     {[ "web" := one_running ]}).

(** A store with a record in each kind of state, none of them listed by the
    runtime, and one container that is. *)
Definition store_mixed : DockerScheduler :=
  mkScheduler false
    {[ "web" := <[ "aaaaaaaaaaaa" := mkContainer "removing" true ]>
                (<[ "bbbbbbbbbbbb" := mkContainer "starting" true ]>
                 (<[ "cccccccccccc" := mkContainer "running" true ]>
                  {[ "dddddddddddd" := mkContainer "stopping" true ]})) ]}.

Definition up_container : APIContainers :=
  mkAPI "dddddddddddd0123456789" "Up 2 minutes" (label_of "web").

Definition world_mixed : world := mkWorld store_mixed [web_up] [].

(** [world_mixed] after the first two loops of a pass that lists
    [up_container]. *)
Definition world_mixed_observed : world :=
  mkWorld
    (mkScheduler false
      {[ "web" := <[ "aaaaaaaaaaaa" := mkContainer "removing" false ]>
                  (<[ "bbbbbbbbbbbb" := mkContainer "starting" false ]>
                   (<[ "cccccccccccc" := mkContainer "running" false ]>
                    {[ "dddddddddddd" := mkContainer "stopping" true ]})) ]})
    [web_up] [].

(** Two listed containers whose identifiers differ but begin with the same
    12 characters, and a store that has the record filed under them as
    "stopping". *)
Definition exited_container : APIContainers :=
  mkAPI "0123456789abcdef0000" "Exited (0) 5 seconds ago" (label_of "web").
Definition dead_container : APIContainers :=
  mkAPI "0123456789abcdef1111" "Dead" (label_of "web").

Definition store_stopping : DockerScheduler :=
  mkScheduler false {[ "web" := {[ "0123456789ab" := mkContainer "stopping" false ]} ]}.

Definition world_stopping : world := mkWorld store_stopping [web_up] [].

Definition colliding : list APIContainers := [exited_container; dead_container].

(** [world_stopping] after one pass that lists [colliding], and after two. *)
Definition store_dead : DockerScheduler :=
  mkScheduler false {[ "web" := {[ "0123456789ab" := mkContainer "dead" true ]} ]}.

Definition world_stopping_once : world :=
  mkWorld store_dead [mkTask "web" "nginx" "" 3 1 0]
    [LogDead "0123456789ab";
     LogTaskCounts "web" 0 1; LogRecord "0123456789ab" "dead"].

Definition world_stopping_twice : world :=
  mkWorld store_dead [mkTask "web" "nginx" "" 3 1 0]
    [LogDead "0123456789ab";
     LogTaskCounts "web" 0 1; LogRecord "0123456789ab" "dead";
     LogNotTerminated "0123456789ab";
     LogTaskCounts "web" 0 1; LogRecord "0123456789ab" "dead"].

(** A scheduler in which [web] has been registered and has a container on
    record. *)
Definition store_registered : DockerScheduler :=
  put_record (InitScheduler None (NewScheduler false) web_up).1
    "web" "0123456789ab" (mkContainer "running" false).

(** * Properties *)

(** ** Machine integers and strings *)

Lemma wrap_id (z : Z) : is_int z → wrap z = z.
Proof.
  unfold is_int, int_min, int_max, wrap. intros H.
  rewrite Z.mod_small; lia.
Qed.

Lemma eqb_eq_iff (a b : string) : String.eqb a b = true ↔ a = b.
Proof. apply String.eqb_eq. Qed.

Lemma eqb_false_iff (a b : string) : String.eqb a b = false ↔ a ≠ b.
Proof. apply String.eqb_neq. Qed.

(** ** The store *)

Lemma record_Some (c : DockerScheduler) (name id : string) (cc : dockerContainer) :
  record c name id = Some cc ↔
  ∃ m, taskContainers c !! name = Some m ∧ m !! id = Some cc.
Proof.
  unfold record. destruct (taskContainers c !! name) as [m|]; simpl.
  - split.
    + intros Hid. by exists m.
    + intros (m' & Heq & Hid). congruence.
  - split.
    + done.
    + intros (m' & Heq & _). done.
Qed.

Lemma setContainers_id (c : DockerScheduler) : setContainers c (taskContainers c) = c.
Proof. by destruct c. Qed.

Lemma rangeOrder_elem (m : gmap string dockerContainer) (id : string) (cc : dockerContainer) :
  (id, cc) ∈ rangeOrder m ↔ m !! id = Some cc.
Proof. rewrite (rangeOrder_perm m). apply elem_of_map_to_list. Qed.

Lemma record_put_record (c : DockerScheduler) (name id name' id' : string)
    (cc : dockerContainer) :
  record (put_record c name id cc) name' id' =
  if decide (name = name' ∧ id = id') then Some cc else record c name' id'.
Proof.
  unfold record, put_record; simpl.
  destruct (decide (name = name')) as [<-|Hn].
  - rewrite lookup_insert_eq; simpl.
    destruct (decide (id = id')) as [<-|Hi].
    + rewrite lookup_insert_eq. by rewrite decide_True.
    + rewrite lookup_insert_ne by done.
      rewrite decide_False by (intros [_ Heq]; done).
      destruct (taskContainers c !! name); simpl; [done | apply lookup_empty].
  - rewrite lookup_insert_ne by done.
    by rewrite decide_False by (intros [Heq _]; done).
Qed.

(** ** stopTask *)

Lemma stopTask_scan_none (entries : list (string * dockerContainer))
    (m : gmap string dockerContainer) :
  (∀ id v, (id, v) ∈ entries → state v ≠ "running") →
  stopTask_scan entries m = ("", m).
Proof.
  induction entries as [|[id v] rest IH]; intros Hno; simpl; [done|].
  destruct (String.eqb (state v) "running") eqn:E.
  - apply eqb_eq_iff in E. exfalso. eapply Hno; [left | done].
  - apply IH. intros id' v' Hin. eapply Hno. by right.
Qed.

Lemma stopTask_scan_some (entries : list (string * dockerContainer))
    (m : gmap string dockerContainer) (id0 : string) (v0 : dockerContainer) :
  (id0, v0) ∈ entries → state v0 = "running" →
  ∃ id v, (id, v) ∈ entries ∧ state v = "running" ∧
          stopTask_scan entries m = (id, <[id := setState v "stopping"]> m).
Proof.
  induction entries as [|[id v] rest IH]; intros Hin Hrun; [by apply elem_of_nil in Hin|].
  simpl. destruct (String.eqb (state v) "running") eqn:E.
  - apply eqb_eq_iff in E. exists id, v. split; [left | done].
  - apply elem_of_cons in Hin as [[= -> ->]|Hin].
    + apply eqb_false_iff in E. done.
    + destruct (IH Hin Hrun) as (id' & v' & Hin' & Hrun' & Heq).
      exists id', v'. split; [by right | done].
Qed.

(** When no record of the task is running, the stop fails and writes
    nothing. *)
Lemma stopTask_none (c : DockerScheduler) (task : Task) :
  (∀ id cc, record c (Name task) id = Some cc → state cc ≠ "running") →
  stopTask c task = (c, None, Some (ErrNoContainers (Name task))).
Proof.
  intros Hno. unfold stopTask.
  destruct (taskContainers c !! Name task) as [m|] eqn:Hm; [|done].
  rewrite stopTask_scan_none.
  - simpl. rewrite insert_id by done. by rewrite setContainers_id.
  - intros id v Hin. apply (Hno id). apply record_Some. exists m.
    split; [done | by apply rangeOrder_elem].
Qed.

(** When some record of the task is running, the stop picks one of them. *)
Lemma stopTask_some (c : DockerScheduler) (task : Task) (id0 : string) (cc0 : dockerContainer) :
  record c (Name task) "" = None →
  record c (Name task) id0 = Some cc0 → state cc0 = "running" →
  ∃ id cc, record c (Name task) id = Some cc ∧ state cc = "running" ∧
    stopTask c task =
      (put_record c (Name task) id (setState cc "stopping"),
       Some (StopUnit (Name task) id), None).
Proof.
  intros Hok Hrec Hrun. apply record_Some in Hrec as (m & Hm & Hid).
  apply rangeOrder_elem in Hid.
  destruct (stopTask_scan_some _ m _ _ Hid Hrun) as (id & cc & Hin & Hrun' & Heq).
  apply rangeOrder_elem in Hin.
  assert (record c (Name task) id = Some cc) as Hrec'
    by (apply record_Some; eauto).
  exists id, cc. split; [done|]. split; [done|].
  unfold stopTask, put_record. rewrite Hm, Heq. simpl.
  destruct (String.eqb id "") eqn:E; [|done].
  apply eqb_eq_iff in E. subst id. congruence.
Qed.

Lemma store_ids_ok_no_empty (c : DockerScheduler) (name : string) :
  store_ids_ok c → record c name "" = None.
Proof.
  intros Hok. destruct (record c name "") as [cc|] eqn:E; [|done].
  by apply Hok in E.
Qed.

(** C6.  A stop of a task one of whose records is "running" returns no
    error, launches the unit that stops one such container and has turned
    that record, and nothing else, to "stopping"; a stop of a task none of
    whose records is "running" fails with the error of [stopTask] and leaves
    the store as it was; so with exactly one running record the first of two
    stops in a row succeeds and marks it and the second fails.  (No record
    is filed under the empty identifier: identifiers are 12 characters
    long, see [store_ids_ok_no_empty].) *)
Theorem stopTask_marks_stopping_or_fails (c : DockerScheduler) (task : Task) :
  record c (Name task) "" = None →
  ((∃ id cc, record c (Name task) id = Some cc ∧ state cc = "running") →
   ∃ id cc, record c (Name task) id = Some cc ∧ state cc = "running" ∧
     stopTask c task =
       (put_record c (Name task) id (setState cc "stopping"),
        Some (StopUnit (Name task) id), None)) ∧
  ((∀ id cc, record c (Name task) id = Some cc → state cc ≠ "running") →
   stopTask c task = (c, None, Some (ErrNoContainers (Name task)))) ∧
  (∀ id cc,
     record c (Name task) id = Some cc → state cc = "running" →
     (∀ id' cc', record c (Name task) id' = Some cc' → state cc' = "running" → id' = id) →
     let c1 := put_record c (Name task) id (setState cc "stopping") in
     stopTask c task = (c1, Some (StopUnit (Name task) id), None) ∧
     stopTask c1 task = (c1, None, Some (ErrNoContainers (Name task)))).
Proof.
  intros Hok. split; [|split].
  - intros (id & cc & Hrec & Hrun). by eapply stopTask_some.
  - apply stopTask_none.
  - intros id cc Hrec Hrun Honly c1.
    destruct (stopTask_some c task id cc Hok Hrec Hrun) as (id' & cc' & Hrec' & Hrun' & Heq).
    assert (id' = id) as -> by eauto.
    assert (cc' = cc) as -> by congruence.
    split; [done|].
    apply stopTask_none. intros id2 cc2. unfold c1. rewrite record_put_record.
    case_decide as Hd.
    + intros [= <-]. done.
    + intros Hrec2 Hrun2. apply Hd. split; [done|]. symmetry. eauto.
Qed.

(** ** StopStartTasks: the partition *)

Lemma partition_loop_tooMany (ts : list Task) (i : ptr) (tm tf : list ptr) (p : ptr) :
  p ∈ (partition_loop i ts tm tf).1 ↔
  p ∈ tm ∨ ∃ t, (i ≤ p)%nat ∧ ts !! (p - i) = Some t ∧ isTooMany t = true.
Proof.
  revert i tm tf. induction ts as [|task rest IH]; intros i tm tf; simpl.
  - split; [by left | intros [H|(t & _ & H & _)]; done].
  - rewrite IH. split.
    + intros [Hin|(t & Hle & Hl & Ht)].
      * destruct (isTooMany task) eqn:E; [|by left].
        apply elem_of_app in Hin as [Hin|Hin]; [by left|].
        apply list_elem_of_singleton in Hin as ->. right. exists task.
        rewrite Nat.sub_diag. done.
      * right. exists t. split; [lia|]. split; [|done].
        replace (p - i) with (S (p - S i)) by lia. done.
    + intros [Hin|(t & Hle & Hl & Ht)].
      * left. destruct (isTooMany task); [apply elem_of_app|]; eauto.
      * destruct (decide (p = i)) as [->|Hne].
        -- rewrite Nat.sub_diag in Hl. injection Hl as ->. rewrite Ht.
           left. apply elem_of_app. right. by apply list_elem_of_singleton.
        -- right. exists t. split; [lia|]. split; [|done].
           replace (p - i) with (S (p - S i)) in Hl by lia. done.
Qed.

Lemma partition_loop_tooFew (ts : list Task) (i : ptr) (tm tf : list ptr) (p : ptr) :
  p ∈ (partition_loop i ts tm tf).2 ↔
  p ∈ tf ∨ ∃ t, (i ≤ p)%nat ∧ ts !! (p - i) = Some t ∧ isTooFew t = true.
Proof.
  revert i tm tf. induction ts as [|task rest IH]; intros i tm tf; simpl.
  - split; [by left | intros [H|(t & _ & H & _)]; done].
  - rewrite IH. split.
    + intros [Hin|(t & Hle & Hl & Ht)].
      * destruct (isTooFew task) eqn:E; [|by left].
        apply elem_of_app in Hin as [Hin|Hin]; [by left|].
        apply list_elem_of_singleton in Hin as ->. right. exists task.
        rewrite Nat.sub_diag. done.
      * right. exists t. split; [lia|]. split; [|done].
        replace (p - i) with (S (p - S i)) by lia. done.
    + intros [Hin|(t & Hle & Hl & Ht)].
      * left. destruct (isTooFew task); [apply elem_of_app|]; eauto.
      * destruct (decide (p = i)) as [->|Hne].
        -- rewrite Nat.sub_diag in Hl. injection Hl as ->. rewrite Ht.
           left. apply elem_of_app. right. by apply list_elem_of_singleton.
        -- right. exists t. split; [lia|]. split; [|done].
           replace (p - i) with (S (p - S i)) in Hl by lia. done.
Qed.

Lemma elem_of_tooMany_of (ts : list Task) (p : ptr) :
  p ∈ tooMany_of ts ↔ ∃ t, ts !! p = Some t ∧ isTooMany t = true.
Proof.
  unfold tooMany_of. rewrite partition_loop_tooMany, Nat.sub_0_r. split.
  - intros [H|(t & _ & H)]; [by apply elem_of_nil in H | eauto].
  - intros (t & H). right. exists t. split; [lia | done].
Qed.

Lemma elem_of_tooFew_of (ts : list Task) (p : ptr) :
  p ∈ tooFew_of ts ↔ ∃ t, ts !! p = Some t ∧ isTooFew t = true.
Proof.
  unfold tooFew_of. rewrite partition_loop_tooFew, Nat.sub_0_r. split.
  - intros [H|(t & _ & H)]; [by apply elem_of_nil in H | eauto].
  - intros (t & H). right. exists t. split; [lia | done].
Qed.

Lemma partition_loop_NoDup (ts : list Task) (i : ptr) (tm tf : list ptr) :
  NoDup tm → NoDup tf → (∀ q, q ∈ tm → q < i) → (∀ q, q ∈ tf → q < i) →
  NoDup (partition_loop i ts tm tf).1 ∧ NoDup (partition_loop i ts tm tf).2.
Proof.
  revert i tm tf. induction ts as [|task rest IH]; intros i tm tf Hm Hf Hlm Hlf; simpl; [done|].
  assert (∀ l : list ptr, NoDup l → (∀ q, q ∈ l → q < i) → NoDup (l ++ [i])) as Hsnoc.
  { intros l Hl Hlt. apply NoDup_app. split; [done|]. split; [|apply NoDup_singleton].
    intros q Hq Hq'. apply list_elem_of_singleton in Hq' as ->. apply Hlt in Hq. lia. }
  assert (∀ l : list ptr, (∀ q, q ∈ l → q < i) → ∀ q, q ∈ l ++ [i] → q < S i) as Hlt.
  { intros l Hl q Hq. apply elem_of_app in Hq as [Hq|Hq].
    - apply Hl in Hq. lia.
    - apply list_elem_of_singleton in Hq as ->. lia. }
  apply IH.
  - destruct (isTooMany task); auto.
  - destruct (isTooFew task); auto.
  - destruct (isTooMany task); [by apply Hlt|]. intros q Hq. apply Hlm in Hq. lia.
  - destruct (isTooFew task); [by apply Hlt|]. intros q Hq. apply Hlf in Hq. lia.
Qed.

Lemma tooMany_of_NoDup (ts : list Task) : NoDup (tooMany_of ts).
Proof.
  apply (partition_loop_NoDup ts 0 [] []); try apply NoDup_nil_2;
    intros q Hq; by apply elem_of_nil in Hq.
Qed.

Lemma tooFew_of_NoDup (ts : list Task) : NoDup (tooFew_of ts).
Proof.
  apply (partition_loop_NoDup ts 0 [] []); try apply NoDup_nil_2;
    intros q Hq; by apply elem_of_nil in Hq.
Qed.

Lemma isTooMany_spec (t : Task) :
  isTooMany t = true ↔ (Demand t < Requested t)%Z ∧ Requested t = Running t.
Proof. unfold isTooMany. rewrite andb_true_iff, Z.ltb_lt, Z.eqb_eq. done. Qed.

Lemma isTooFew_spec (t : Task) :
  isTooFew t = true ↔ (Demand t > Requested t)%Z ∧ Requested t = Running t.
Proof. unfold isTooFew. rewrite andb_true_iff, Z.ltb_lt, Z.eqb_eq. lia. Qed.

(** ** StopStartTasks: the two scaling loops *)

Lemma stops_of_snoc (p : ptr) (tr : list event) (e : event) :
  stops_of p (tr ++ [e]) = stops_of p tr + (if is_stop_of p e then 1 else 0).
Proof.
  unfold stops_of. rewrite List.filter_app, length_app. simpl.
  by destruct (is_stop_of p e).
Qed.

Lemma starts_of_snoc (p : ptr) (tr : list event) (e : event) :
  starts_of p (tr ++ [e]) = starts_of p tr + (if is_start_of p e then 1 else 0).
Proof.
  unfold starts_of. rewrite List.filter_app, length_app. simpl.
  by destruct (is_start_of p e).
Qed.

Lemma no_calls_no_event (p : ptr) (tr : list event) :
  stops_of p tr = 0 → starts_of p tr = 0 → ∀ e, e ∈ tr → event_ptr e ≠ p.
Proof.
  unfold stops_of, starts_of.
  induction tr as [|e0 tr IH]; intros Hs Ht e Hin; [by apply elem_of_nil in Hin|].
  simpl in Hs, Ht.
  apply elem_of_cons in Hin as [->|Hin].
  - intros <-. destruct e0 as [q r|q]; simpl in *.
    + rewrite Nat.eqb_refl in Hs. done.
    + rewrite Nat.eqb_refl in Ht. done.
  - apply IH; [| |done].
    + destruct (is_stop_of p e0); [done|exact Hs].
    + destruct (is_start_of p e0); [done|exact Ht].
Qed.

Lemma same_at_refl (p : ptr) (s : pass_state) : same_at p s s.
Proof. by repeat split. Qed.

Lemma same_at_trans (p : ptr) (s1 s2 s3 : pass_state) :
  same_at p s1 s2 → same_at p s2 s3 → same_at p s1 s3.
Proof. intros (?&?&?) (?&?&?). repeat split; congruence. Qed.

Lemma stop_iter_same_at (p q : ptr) (s : pass_state) :
  q ≠ p → same_at p s (stop_iter q s).
Proof.
  intros Hne. unfold stop_iter.
  destruct (tasks s !! q) as [task|]; [|apply same_at_refl].
  destruct (stopTask (sched s) task) as [[c' u] e].
  repeat split; simpl.
  - by apply list_lookup_insert_ne.
  - rewrite stops_of_snoc. simpl.
    destruct (Nat.eqb_spec p q); [congruence | lia].
  - rewrite starts_of_snoc. simpl. lia.
Qed.

Lemma start_iter_same_at (p q : ptr) (s : pass_state) :
  q ≠ p → same_at p s (start_iter q s).
Proof.
  intros Hne. unfold start_iter.
  destruct (tasks s !! q) as [task|]; [|apply same_at_refl].
  repeat split; simpl.
  - by apply list_lookup_insert_ne.
  - rewrite stops_of_snoc. simpl. lia.
  - rewrite starts_of_snoc. simpl.
    destruct (Nat.eqb_spec p q); [congruence | lia].
Qed.

Lemma iter_same_at (f : pass_state → pass_state) (p : ptr) (n : nat) (s : pass_state) :
  (∀ s0, same_at p s0 (f s0)) → same_at p s (Nat.iter n f s).
Proof.
  intros Hf. induction n as [|n IH]; simpl; [apply same_at_refl|].
  eapply same_at_trans; [exact IH | apply Hf].
Qed.

Lemma scale_down_same_at (p q : ptr) (s : pass_state) :
  q ≠ p → same_at p s (scale_down s q).
Proof.
  intros Hne. unfold scale_down.
  destruct (tasks s !! q); [|apply same_at_refl].
  apply iter_same_at. intros s0. by apply stop_iter_same_at.
Qed.

Lemma scale_up_same_at (p q : ptr) (s : pass_state) :
  q ≠ p → same_at p s (scale_up s q).
Proof.
  intros Hne. unfold scale_up.
  destruct (tasks s !! q); [|apply same_at_refl].
  apply iter_same_at. intros s0. by apply start_iter_same_at.
Qed.

Lemma fold_same_at (f : pass_state → ptr → pass_state) (p : ptr) (l : list ptr)
    (s : pass_state) :
  (∀ s0 q, q ≠ p → same_at p s0 (f s0 q)) → p ∉ l → same_at p s (fold_left f l s).
Proof.
  intros Hf. revert s. induction l as [|q l IH]; intros s Hnin; simpl.
  - apply same_at_refl.
  - apply not_elem_of_cons in Hnin as [Hne Hnin].
    eapply same_at_trans; [apply Hf; by apply not_eq_sym | by apply IH].
Qed.

Lemma setRequested_same (t : Task) : setRequested t (Requested t) = t.
Proof. by destruct t. Qed.

(** [n] iterations of the inner scale-down loop: [n] calls of [stopTask],
    [Requested] lower by [n]. *)
Lemma iter_stop_iter (p : ptr) (n : nat) (s : pass_state) (task : Task) :
  tasks s !! p = Some task →
  is_int (Requested task) → is_int (Requested task - Z.of_nat n) →
  let s' := Nat.iter n (stop_iter p) s in
  tasks s' = <[p := setRequested task (Requested task - Z.of_nat n)]> (tasks s) ∧
  stops_of p (trace s') = stops_of p (trace s) + n ∧
  starts_of p (trace s') = starts_of p (trace s).
Proof.
  intros Hp Hr. induction n as [|n IH]; intros Hn s'.
  - subst s'. simpl. rewrite Z.sub_0_r, setRequested_same.
    rewrite list_insert_id by done. split; [done|]. split; [lia|done].
  - subst s'. simpl.
    assert (is_int (Requested task - Z.of_nat n)) as Hn'
      by (unfold is_int in *; lia).
    destruct (IH Hn') as (Ht & Hs & Hst). clear IH.
    set (s1 := Nat.iter n (stop_iter p) s) in *.
    assert (p < length (tasks s)) as Hlen by (by eapply lookup_lt_Some).
    unfold stop_iter. rewrite Ht, list_lookup_insert_eq by done.
    destruct (stopTask (sched s1) _) as [[c' u] e]. simpl.
    rewrite list_insert_insert_eq, stops_of_snoc, starts_of_snoc. simpl.
    rewrite Nat.eqb_refl. unfold int_sub.
    replace (Requested task - Z.of_nat n - 1)%Z
      with (Requested task - Z.of_nat (S n))%Z by lia.
    rewrite wrap_id by done.
    split; [done|]. split; lia.
Qed.

Lemma iter_start_iter (p : ptr) (n : nat) (s : pass_state) (task : Task) :
  tasks s !! p = Some task →
  is_int (Requested task) → is_int (Requested task + Z.of_nat n) →
  let s' := Nat.iter n (start_iter p) s in
  tasks s' = <[p := setRequested task (Requested task + Z.of_nat n)]> (tasks s) ∧
  stops_of p (trace s') = stops_of p (trace s) ∧
  starts_of p (trace s') = starts_of p (trace s) + n ∧
  err s' = err s.
Proof.
  intros Hp Hr. induction n as [|n IH]; intros Hn s'.
  - subst s'. simpl. rewrite Z.add_0_r, setRequested_same.
    rewrite list_insert_id by done. repeat split; lia.
  - subst s'. simpl.
    assert (is_int (Requested task + Z.of_nat n)) as Hn'
      by (unfold is_int in *; lia).
    destruct (IH Hn') as (Ht & Hs & Hst & He). clear IH.
    set (s1 := Nat.iter n (start_iter p) s) in *.
    assert (p < length (tasks s)) as Hlen by (by eapply lookup_lt_Some).
    unfold start_iter. rewrite Ht, list_lookup_insert_eq by done. simpl.
    rewrite list_insert_insert_eq, stops_of_snoc, starts_of_snoc. simpl.
    rewrite Nat.eqb_refl. unfold int_add.
    replace (Requested task + Z.of_nat n + 1)%Z
      with (Requested task + Z.of_nat (S n))%Z by lia.
    rewrite wrap_id by done.
    split; [done|]. split; [lia|]. split; [lia|done].
Qed.

Lemma scale_down_at (p : ptr) (s : pass_state) (t : Task) :
  tasks s !! p = Some t →
  is_int (Demand t) → is_int (Requested t) → is_int (Requested t - Demand t) →
  (Demand t <= Requested t)%Z →
  let s' := scale_down s p in
  tasks s' !! p = Some (setRequested t (Demand t)) ∧
  stops_of p (trace s') = stops_of p (trace s) + Z.to_nat (Requested t - Demand t) ∧
  starts_of p (trace s') = starts_of p (trace s).
Proof.
  intros Hp Hd Hr Hdiff Hle s'. subst s'. unfold scale_down. rewrite Hp.
  unfold int_sub. rewrite wrap_id by done.
  destruct (iter_stop_iter p (Z.to_nat (Requested t - Demand t)) s t Hp Hr)
    as (Ht & Hs & Hst).
  { rewrite Z2Nat.id by lia. by replace (Requested t - (Requested t - Demand t))%Z
      with (Demand t) by lia. }
  rewrite Ht, Z2Nat.id by lia.
  replace (Requested t - (Requested t - Demand t))%Z with (Demand t) by lia.
  split; [|done]. apply list_lookup_insert_eq. by eapply lookup_lt_Some.
Qed.

Lemma scale_up_at (p : ptr) (s : pass_state) (t : Task) :
  tasks s !! p = Some t →
  is_int (Demand t) → is_int (Requested t) → is_int (Demand t - Requested t) →
  (Requested t <= Demand t)%Z →
  let s' := scale_up s p in
  tasks s' !! p = Some (setRequested t (Demand t)) ∧
  stops_of p (trace s') = stops_of p (trace s) ∧
  starts_of p (trace s') = starts_of p (trace s) + Z.to_nat (Demand t - Requested t).
Proof.
  intros Hp Hd Hr Hdiff Hle s'. subst s'. unfold scale_up. rewrite Hp.
  unfold int_sub. rewrite wrap_id by done.
  destruct (iter_start_iter p (Z.to_nat (Demand t - Requested t)) s t Hp Hr)
    as (Ht & Hs & Hst & _).
  { rewrite Z2Nat.id by lia. by replace (Requested t + (Demand t - Requested t))%Z
      with (Demand t) by lia. }
  rewrite Ht, Z2Nat.id by lia.
  replace (Requested t + (Demand t - Requested t))%Z with (Demand t) by lia.
  split; [|done]. apply list_lookup_insert_eq. by eapply lookup_lt_Some.
Qed.

(** A loop over pointers that mentions [p] once: the body runs at [p] once,
    and the other rounds leave the task at [p] alone. *)
Lemma fold_at (f : pass_state → ptr → pass_state) (p : ptr) (l : list ptr)
    (s : pass_state) :
  (∀ s0 q, q ≠ p → same_at p s0 (f s0 q)) → NoDup l → p ∈ l →
  ∃ s1, same_at p s s1 ∧ same_at p (f s1 p) (fold_left f l s).
Proof.
  intros Hf. revert s. induction l as [|q l IH]; intros s Hnd Hin;
    [by apply elem_of_nil in Hin|].
  apply NoDup_cons in Hnd as [Hq Hnd]. simpl.
  destruct (decide (q = p)) as [->|Hne].
  - exists s. split; [apply same_at_refl|]. by apply fold_same_at.
  - apply elem_of_cons in Hin as [->|Hin]; [done|].
    destruct (IH (f s q) Hnd Hin) as (s1 & H1 & H2).
    exists s1. split; [|done].
    eapply same_at_trans; [by apply Hf | done].
Qed.

Lemma last_stop_result_snoc (tr : list event) (e : event) :
  last_stop_result (tr ++ [e]) =
  match e with EvStop _ r => r | EvStart _ => last_stop_result tr end.
Proof. unfold last_stop_result. by rewrite fold_left_app. Qed.

Lemma stop_iter_err (p : ptr) (s : pass_state) : err_is_last s → err_is_last (stop_iter p s).
Proof.
  unfold err_is_last, stop_iter. intros H.
  destruct (tasks s !! p) as [task|]; [|done].
  destruct (stopTask (sched s) task) as [[c' u] e]. simpl.
  by rewrite last_stop_result_snoc.
Qed.

Lemma start_iter_err (p : ptr) (s : pass_state) : err_is_last s → err_is_last (start_iter p s).
Proof.
  unfold err_is_last, start_iter. intros H.
  destruct (tasks s !! p) as [task|]; [|done]. simpl.
  by rewrite last_stop_result_snoc.
Qed.

Lemma iter_err (f : pass_state → pass_state) (n : nat) (s : pass_state) :
  (∀ s0, err_is_last s0 → err_is_last (f s0)) →
  err_is_last s → err_is_last (Nat.iter n f s).
Proof. intros Hf Hs. induction n as [|n IH]; simpl; auto. Qed.

Lemma fold_err (f : pass_state → ptr → pass_state) (l : list ptr) (s : pass_state) :
  (∀ s0 q, err_is_last s0 → err_is_last (f s0 q)) →
  err_is_last s → err_is_last (fold_left f l s).
Proof. intros Hf. revert s. induction l as [|q l IH]; intros s Hs; simpl; auto. Qed.

(** What [StopStartTasks] returns is the result of the last call of
    [stopTask] of the pass, an error or none; no call of [startTask] has a
    part in it. *)
Lemma StopStartTasks_err (c : DockerScheduler) (ts : list Task) :
  err (StopStartTasks c ts) = last_stop_result (trace (StopStartTasks c ts)).
Proof.
  unfold StopStartTasks. destruct (partition_loop 0 ts [] []) as [tooMany tooFew].
  apply fold_err.
  { intros s0 q H. unfold scale_up. destruct (tasks s0 !! q); [|done].
    apply iter_err; [apply start_iter_err | done]. }
  apply fold_err; [|done].
  intros s0 q H. unfold scale_down. destruct (tasks s0 !! q); [|done].
  apply iter_err; [apply stop_iter_err | done].
Qed.

Lemma StopStartTasks_unfold (c : DockerScheduler) (ts : list Task) :
  StopStartTasks c ts =
  fold_left scale_up (tooFew_of ts)
    (fold_left scale_down (tooMany_of ts) (mkPass c ts None [] [])).
Proof.
  unfold StopStartTasks, tooFew_of, tooMany_of.
  by destruct (partition_loop 0 ts [] []).
Qed.

(** C1.  The first loop of a pass puts a task into [tooFew] exactly when
    its demand exceeds its requested count and the requested count equals
    the running count, and into [tooMany] exactly when its demand is below
    the requested count and the requested count equals the running count;
    and for a task whose requested and running counts differ the pass calls
    neither [stopTask] nor [startTask], whatever its demand. *)
Theorem StopStartTasks_partition (c : DockerScheduler) (ts : list Task) (p : ptr) (t : Task) :
  ts !! p = Some t →
  (p ∈ tooFew_of ts ↔ (Demand t > Requested t)%Z ∧ Requested t = Running t) ∧
  (p ∈ tooMany_of ts ↔ (Demand t < Requested t)%Z ∧ Requested t = Running t) ∧
  (Requested t ≠ Running t →
   ∀ e, e ∈ trace (StopStartTasks c ts) → event_ptr e ≠ p).
Proof.
  intros Hp.
  assert (p ∈ tooFew_of ts ↔ (Demand t > Requested t)%Z ∧ Requested t = Running t) as HF.
  { rewrite elem_of_tooFew_of, <- isTooFew_spec. split.
    - intros (t' & Hp' & Ht'). congruence.
    - intros Ht. by exists t. }
  assert (p ∈ tooMany_of ts ↔ (Demand t < Requested t)%Z ∧ Requested t = Running t) as HM.
  { rewrite elem_of_tooMany_of, <- isTooMany_spec. split.
    - intros (t' & Hp' & Ht'). congruence.
    - intros Ht. by exists t. }
  split; [done|]. split; [done|].
  intros Hne.
  assert (same_at p (mkPass c ts None [] []) (StopStartTasks c ts)) as (_ & Hs & Hst).
  { rewrite StopStartTasks_unfold.
    eapply same_at_trans.
    - apply fold_same_at; [intros s0 q; apply scale_down_same_at|].
      rewrite HM. intros [_ Heq]. done.
    - apply fold_same_at; [intros s0 q; apply scale_up_same_at|].
      rewrite HF. intros [_ Heq]. done. }
  by apply no_calls_no_event.
Qed.

(** C4.  For a task the first loop selected into [tooMany] the pass calls
    [stopTask] exactly |requested - demand| times and [startTask] never, for
    one selected into [tooFew] it calls [startTask] that many times and
    [stopTask] never, and the task ends the pass with requested = demand;
    each round of the inner loops moves [Requested] by one, whatever the
    call of that round returned. *)
Theorem StopStartTasks_closes_gap (c : DockerScheduler) (ts : list Task) (p : ptr) (t : Task) :
  ts !! p = Some t →
  is_int (Demand t) → is_int (Requested t) →
  is_int (Requested t - Demand t) → is_int (Demand t - Requested t) →
  let s := StopStartTasks c ts in
  (p ∈ tooMany_of ts →
   Z.of_nat (stops_of p (trace s)) = Z.abs (Requested t - Demand t) ∧
   starts_of p (trace s) = 0 ∧
   tasks s !! p = Some (setRequested t (Demand t))) ∧
  (p ∈ tooFew_of ts →
   Z.of_nat (starts_of p (trace s)) = Z.abs (Requested t - Demand t) ∧
   stops_of p (trace s) = 0 ∧
   tasks s !! p = Some (setRequested t (Demand t))) ∧
  (∀ s0 task, tasks s0 !! p = Some task →
   tasks (stop_iter p s0) !! p = Some (setRequested task (int_sub (Requested task) 1)) ∧
   tasks (start_iter p s0) !! p = Some (setRequested task (int_add (Requested task) 1))).
Proof.
  intros Hp Hd Hr Hrd Hdr s. subst s. rewrite StopStartTasks_unfold.
  set (s0 := mkPass c ts None [] []).
  split; [|split].
  - intros Hin.
    assert (p ∉ tooFew_of ts) as Hnin.
    { rewrite elem_of_tooFew_of. intros (t' & Hp' & Ht').
      apply elem_of_tooMany_of in Hin as (t'' & Hp'' & Ht'').
      apply isTooFew_spec in Ht'. apply isTooMany_spec in Ht''.
      assert (t' = t'') by congruence. subst. lia. }
    apply elem_of_tooMany_of in Hin as Hsel. destruct Hsel as (t' & Hp' & Ht').
    assert (t' = t) as -> by congruence. apply isTooMany_spec in Ht' as [Hlt _].
    destruct (fold_at scale_down p (tooMany_of ts) s0) as (s1 & H1 & H2);
      [intros s' q; apply scale_down_same_at | apply tooMany_of_NoDup | done |].
    destruct H1 as (Ht1 & Hs1 & Hst1).
    destruct (scale_down_at p s1 t) as (Ht2 & Hs2 & Hst2);
      [by rewrite Ht1 | done | done | done | lia |].
    destruct H2 as (Ht3 & Hs3 & Hst3).
    destruct (fold_same_at scale_up p (tooFew_of ts) (fold_left scale_down (tooMany_of ts) s0))
      as (Ht4 & Hs4 & Hst4); [intros s' q; apply scale_up_same_at | done |].
    rewrite Ht4, Hs4, Hst4, Ht3, Hs3, Hst3, Ht2, Hs2, Hst2, Hs1, Hst1.
    simpl. split; [lia|done].
  - intros Hin.
    assert (p ∉ tooMany_of ts) as Hnin.
    { rewrite elem_of_tooMany_of. intros (t' & Hp' & Ht').
      apply elem_of_tooFew_of in Hin as (t'' & Hp'' & Ht'').
      apply isTooMany_spec in Ht'. apply isTooFew_spec in Ht''.
      assert (t' = t'') by congruence. subst. lia. }
    apply elem_of_tooFew_of in Hin as Hsel. destruct Hsel as (t' & Hp' & Ht').
    assert (t' = t) as -> by congruence. apply isTooFew_spec in Ht' as [Hlt _].
    destruct (fold_same_at scale_down p (tooMany_of ts) s0)
      as (Ht1 & Hs1 & Hst1); [intros s' q; apply scale_down_same_at | done |].
    set (s1 := fold_left scale_down (tooMany_of ts) s0) in *.
    destruct (fold_at scale_up p (tooFew_of ts) s1) as (s2 & H2 & H3);
      [intros s' q; apply scale_up_same_at | apply tooFew_of_NoDup | done |].
    destruct H2 as (Ht2 & Hs2 & Hst2).
    destruct (scale_up_at p s2 t) as (Ht3 & Hs3 & Hst3);
      [by rewrite Ht2, Ht1 | done | done | done | lia |].
    destruct H3 as (Ht4 & Hs4 & Hst4).
    rewrite Ht4, Hs4, Hst4, Ht3, Hs3, Hst3, Hs2, Hst2, Hs1, Hst1.
    simpl. split; [lia|done].
  - intros s1 task Htask. unfold stop_iter, start_iter. rewrite Htask.
    assert (p < length (tasks s1)) as Hlen by (by eapply lookup_lt_Some).
    destruct (stopTask (sched s1) task) as [[c' u] e]. simpl.
    by rewrite !list_lookup_insert_eq.
Qed.

(** ** CountAllTasks: one listed container *)

Lemma GetTask_from_Some (ts : list Task) (i : ptr) (name : string) (p : ptr) :
  GetTask_from i ts name = Some p →
  ∃ t, (i ≤ p)%nat ∧ ts !! (p - i) = Some t ∧ Name t = name.
Proof.
  revert i. induction ts as [|t ts IH]; intros i; simpl; [done|].
  destruct (String.eqb (Name t) name) eqn:E.
  - intros [= <-]. exists t. rewrite Nat.sub_diag. apply eqb_eq_iff in E. done.
  - intros H. apply IH in H as (t' & Hle & Hl & Hn). exists t'.
    split; [lia|]. split; [|done].
    replace (p - i) with (S (p - S i)) by lia. done.
Qed.

Lemma GetTask_Some (ts : list Task) (name : string) (p : ptr) :
  GetTask ts name = Some p → ∃ t, ts !! p = Some t ∧ Name t = name.
Proof.
  intros H. apply GetTask_from_Some in H as (t & _ & Hl & Hn).
  rewrite Nat.sub_0_r in Hl. eauto.
Qed.

(** One round of the loop over the listed containers, for a container whose
    status reads as "running" and whose label names a managed task: the
    task's [Running] is incremented, and the record, marked as seen, is
    "running" when it was "starting" or had no state yet and keeps its state
    otherwise: a record that is "stopping" or "removing" stays so. *)
Lemma observe_running_container (w : world) (ct : APIContainers) (taskName : string)
    (p : ptr) :
  Labels ct !! labelMap = Some taskName →
  GetTask (w_tasks w) taskName = Some p →
  is_Some (taskContainers (w_sched w) !! taskName) →
  (12 ≤ String.length (ID ct))%nat →
  (statusToState (Status ct)).1 = "running" →
  let id := substring 0 12 (ID ct) in
  let prior := default "" (state <$> record (w_sched w) taskName id) in
  ∃ w' t cc,
    observe w ct = Returns w' ∧
    w_tasks w !! p = Some t ∧ Name t = taskName ∧
    w_tasks w' !! p = Some (setRunning t (int_add (Running t) 1)) ∧
    (is_int (Running t) → (Running t < int_max)%Z →
     int_add (Running t) 1 = (Running t + 1)%Z) ∧
    record (w_sched w') taskName id = Some cc ∧ updated cc = true ∧
    (prior = "starting" ∨ prior = "" → state cc = "running") ∧
    (prior ≠ "starting" → prior ≠ "" → state cc = prior) ∧
    (prior = "stopping" ∨ prior = "removing" → state cc = prior).
Proof.
  intros Hlabel Hget [m Hm] Hlen Hst id prior.
  destruct (GetTask_Some _ _ _ Hget) as (t & Hp & Hname).
  assert (p < length (w_tasks w)) as Hlt by (by eapply lookup_lt_Some).
  unfold observe. rewrite Hlabel, Hget.
  destruct (statusToState (Status ct)) as [newState log1]. simpl in Hst. subst newState.
  destruct (String.length (ID ct) <? 12)%nat eqn:E; [apply Nat.ltb_lt in E; lia|].
  rewrite Hm. fold id.
  assert (record (w_sched w) taskName id = m !! id) as Hrec
    by (unfold record; by rewrite Hm).
  subst prior. rewrite Hrec.
  destruct (m !! id) as [cc0|] eqn:Hid; simpl.
  - rewrite Hp.
    eexists _, t, _. split; [reflexivity|]. simpl.
    split; [done|]. split; [done|].
    split; [by apply list_lookup_insert_eq|].
    split; [intros Hi Hmax; unfold int_add; apply wrap_id; unfold is_int in *; lia|].
    unfold record. simpl. rewrite lookup_insert_eq. simpl. rewrite lookup_insert_eq.
    split; [reflexivity|]. split; [done|]. simpl.
    destruct (String.eqb_spec (state cc0) "starting") as [E1|E1];
      destruct (String.eqb_spec (state cc0) "") as [E2|E2]; simpl.
    + congruence.
    + split; [done|]. split; [done|]. intros [H|H]; congruence.
    + split; [done|]. split; [done|]. intros [H|H]; congruence.
    + split; [intros [H|H]; done|]. done.
  - rewrite Hp.
    eexists _, t, _. split; [reflexivity|]. simpl.
    split; [done|]. split; [done|].
    split; [by apply list_lookup_insert_eq|].
    split; [intros Hi Hmax; unfold int_add; apply wrap_id; unfold is_int in *; lia|].
    unfold record. simpl. rewrite lookup_insert_eq. simpl. rewrite lookup_insert_eq.
    split; [reflexivity|]. split; [done|]. simpl.
    split; [done|]. split; [done|]. intros [H|H]; done.
Qed.

(** C10.  When the runtime fails to list the containers, the pass returns
    an error and the tasks, the store and its records are as they were. *)
Theorem CountAllTasks_list_failure (e : error) (w : world) :
  CountAllTasks (inl e) w = Returns (w, Some (ErrListContainers e)).
Proof. reflexivity. Qed.

(** ** CountAllTasks: the last loop *)

Lemma sweep_record_eq (name : string) (c : DockerScheduler) (log : list log_entry)
    (entry : string * dockerContainer) :
  sweep_record name (c, log) entry = (purge name c entry, log ++ record_lines entry).
Proof.
  destruct entry as [id cc]. unfold sweep_record, purge, record_lines, doomed, stray. simpl.
  destruct (updated cc); simpl; [done|].
  destruct (String.eqb (state cc) "removing" || String.eqb (state cc) "exited"); simpl.
  - by rewrite <- app_assoc.
  - destruct (negb (String.eqb (state cc) "created") && negb (String.eqb (state cc) "starting")
              && negb (String.eqb (state cc) "stopping")); simpl; [|done].
    by rewrite <- app_assoc.
Qed.

Lemma fold_sweep_record (name : string) (entries : list (string * dockerContainer))
    (c : DockerScheduler) (log : list log_entry) :
  fold_left (sweep_record name) entries (c, log) =
  (fold_left (purge name) entries c, log ++ (entries ≫= record_lines)).
Proof.
  revert c log. induction entries as [|entry entries IH]; intros c log; cbn [fold_left].
  - simpl. by rewrite app_nil_r.
  - rewrite sweep_record_eq, IH. simpl. by rewrite <- app_assoc.
Qed.

Lemma record_delete (c : DockerScheduler) (name id n i : string) :
  record (setContainers c (alter (delete id) name (taskContainers c))) n i =
  if decide (n = name ∧ i = id) then None else record c n i.
Proof.
  unfold record. simpl. destruct (decide (n = name)) as [->|Hn].
  - rewrite lookup_alter_eq.
    destruct (taskContainers c !! name) as [m|]; simpl.
    + destruct (decide (i = id)) as [->|Hi].
      * rewrite lookup_delete_eq. by rewrite decide_True.
      * rewrite lookup_delete_ne by done. by rewrite decide_False by (intros [_ Heq]; done).
    + by case_decide.
  - rewrite lookup_alter_ne by done. by rewrite decide_False by (intros [Heq _]; done).
Qed.

Lemma remains_refl (E : DockerScheduler) : remains E E.
Proof. intros n i. by left. Qed.

Lemma purge_remains (E c : DockerScheduler) (name : string) (entry : string * dockerContainer) :
  remains E c → record E name entry.1 = Some entry.2 → remains E (purge name c entry).
Proof.
  intros Hrem Hent n i. unfold purge.
  destruct (doomed entry.2) eqn:Hd; [|apply Hrem].
  rewrite record_delete. case_decide as Hk; [|apply Hrem].
  destruct Hk as [-> ->]. right. split; [done|]. eauto.
Qed.

Lemma fold_purge_remains (E : DockerScheduler) (name : string)
    (entries : list (string * dockerContainer)) (c : DockerScheduler) :
  remains E c →
  (∀ entry, entry ∈ entries → record E name entry.1 = Some entry.2) →
  remains E (fold_left (purge name) entries c).
Proof.
  revert c. induction entries as [|entry entries IH]; intros c Hrem Hent; simpl; [done|].
  apply IH.
  - apply purge_remains; [done|]. apply Hent. by left.
  - intros e He. apply Hent. by right.
Qed.

Lemma purge_None (name : string) (c : DockerScheduler) (entry : string * dockerContainer)
    (n i : string) :
  record c n i = None → record (purge name c entry) n i = None.
Proof.
  intros H. unfold purge. destruct (doomed entry.2); [|done].
  rewrite record_delete. by case_decide.
Qed.

Lemma fold_purge_None (name : string) (entries : list (string * dockerContainer))
    (c : DockerScheduler) (n i : string) :
  record c n i = None → record (fold_left (purge name) entries c) n i = None.
Proof.
  revert c. induction entries as [|entry entries IH]; intros c H; simpl; [done|].
  apply IH. by apply purge_None.
Qed.

Lemma fold_purge_doomed (name : string) (entries : list (string * dockerContainer))
    (c : DockerScheduler) (i : string) (cc : dockerContainer) :
  (i, cc) ∈ entries → doomed cc = true →
  record (fold_left (purge name) entries c) name i = None.
Proof.
  revert c. induction entries as [|entry entries IH]; intros c Hin Hd;
    [by apply elem_of_nil in Hin|].
  simpl. apply elem_of_cons in Hin as [<-|Hin].
  - apply fold_purge_None. unfold purge. simpl. rewrite Hd, record_delete.
    by rewrite decide_True.
  - by apply IH.
Qed.

Lemma elem_of_entries_of (c : DockerScheduler) (name i : string) (cc : dockerContainer) :
  (i, cc) ∈ entries_of c name ↔ record c name i = Some cc.
Proof.
  unfold entries_of, record. destruct (taskContainers c !! name) as [m|]; simpl.
  - apply rangeOrder_elem.
  - split; [intros H; by apply elem_of_nil in H | done].
Qed.

Lemma sweep_task_eq (c : DockerScheduler) (log : list log_entry) (task : Task) :
  sweep_task (c, log) task =
  (fold_left (purge (Name task)) (entries_of c (Name task)) c,
   log ++ LogTaskCounts (Name task) (Running task) (Requested task)
       :: (entries_of c (Name task) ≫= record_lines)).
Proof.
  unfold sweep_task, entries_of.
  destruct (taskContainers c !! Name task) as [m|]; simpl.
  - rewrite fold_sweep_record. by rewrite <- app_assoc.
  - done.
Qed.

Lemma stray_not_doomed (cc : dockerContainer) : stray cc = true → doomed cc = false.
Proof.
  unfold stray, doomed. destruct (updated cc); simpl; [done|].
  by destruct (String.eqb (state cc) "removing" || String.eqb (state cc) "exited").
Qed.

Lemma remains_Some (E c : DockerScheduler) (n i : string) (cc : dockerContainer) :
  remains E c → record c n i = Some cc → record E n i = Some cc.
Proof. intros Hrem H. destruct (Hrem n i) as [Heq|[Heq _]]; congruence. Qed.

Lemma remains_keeps (E c : DockerScheduler) (n i : string) (cc : dockerContainer) :
  remains E c → record E n i = Some cc → doomed cc = false → record c n i = Some cc.
Proof.
  intros Hrem H Hd. destruct (Hrem n i) as [Heq|[_ (cc' & Hcc' & Hd')]]; congruence.
Qed.

(** The last loop as a whole, from the store [E]: what it leaves of the
    store and which lines it writes. *)
Lemma fold_sweep_task (E : DockerScheduler) (ts : list Task) (c : DockerScheduler)
    (log : list log_entry) :
  remains E c →
  ∃ c' l, fold_left sweep_task ts (c, log) = (c', log ++ l) ∧
    remains E c' ∧
    (∀ n i, record c n i = None → record c' n i = None) ∧
    (∀ task i cc, task ∈ ts → record E (Name task) i = Some cc → doomed cc = true →
       record c' (Name task) i = None) ∧
    (∀ task i cc, task ∈ ts → record E (Name task) i = Some cc → stray cc = true →
       LogBadState i (state cc) ∈ l) ∧
    (∀ e, e ∈ l → is_anomaly e = true →
       ∃ task i cc, task ∈ ts ∧ record E (Name task) i = Some cc ∧ stray cc = true ∧
                    e = LogBadState i (state cc)).
Proof.
  revert c log. induction ts as [|task ts IH]; intros c log Hrem; cbn [fold_left].
  - exists c, []. rewrite app_nil_r. split; [done|]. split; [done|]. split; [done|].
    split; [intros ? ? ? H; by apply elem_of_nil in H|].
    split; [intros ? ? ? H; by apply elem_of_nil in H|].
    intros e H; by apply elem_of_nil in H.
  - rewrite sweep_task_eq.
    set (entries := entries_of c (Name task)).
    set (c1 := fold_left (purge (Name task)) entries c).
    assert (∀ entry, entry ∈ entries → record E (Name task) entry.1 = Some entry.2) as Hent.
    { intros [i cc] Hin. apply elem_of_entries_of in Hin. by eapply remains_Some. }
    assert (remains E c1) as Hrem1 by (by apply fold_purge_remains).
    destruct (IH c1 (log ++ LogTaskCounts (Name task) (Running task) (Requested task)
                         :: (entries ≫= record_lines)) Hrem1)
      as (c' & l & Hfold & Hrem' & Hnone & Hdoomed & Hstray & Hlines).
    exists c', (LogTaskCounts (Name task) (Running task) (Requested task)
                :: (entries ≫= record_lines) ++ l).
    split; [rewrite Hfold; by rewrite <- app_assoc|].
    split; [done|].
    split; [intros n i H; apply Hnone; by apply fold_purge_None|].
    split; [|split].
    + intros task' i cc Hin HE Hd. apply elem_of_cons in Hin as [->|Hin]; [|eauto].
      apply Hnone. destruct (Hrem (Name task) i) as [Heq|[Heq _]].
      * apply fold_purge_doomed with (cc := cc); [|done].
        apply elem_of_entries_of. congruence.
      * by apply fold_purge_None.
    + intros task' i cc Hin HE Hs. apply elem_of_cons in Hin as [->|Hin].
      * right. apply elem_of_app. left. apply list_elem_of_bind. exists (i, cc).
        split.
        -- unfold record_lines. simpl. rewrite (stray_not_doomed _ Hs), Hs.
           right. by left.
        -- apply elem_of_entries_of. eapply remains_keeps; [done..|].
           by apply stray_not_doomed.
      * right. apply elem_of_app. right. eauto.
    + intros e Hin Ha. apply elem_of_cons in Hin as [->|Hin]; [done|].
      apply elem_of_app in Hin as [Hin|Hin].
      * apply list_elem_of_bind in Hin as ([i cc] & Hin & Hent').
        exists task, i, cc. split; [by left|]. split; [by apply (Hent (i, cc))|].
        unfold record_lines in Hin. simpl in Hin.
        apply elem_of_cons in Hin as [->|Hin]; [done|].
        destruct (doomed cc).
        -- apply list_elem_of_singleton in Hin as ->. done.
        -- destruct (stray cc); [|by apply elem_of_nil in Hin].
           apply list_elem_of_singleton in Hin as ->. done.
      * destruct (Hlines e Hin Ha) as (task' & i & cc & Hin' & H').
        exists task', i, cc. split; [by right | done].
Qed.

Lemma doomed_spec (cc : dockerContainer) :
  doomed cc = true ↔ updated cc = false ∧ (state cc = "removing" ∨ state cc = "exited").
Proof.
  unfold doomed. rewrite andb_true_iff, orb_true_iff, negb_true_iff, !eqb_eq_iff. done.
Qed.

Lemma stray_spec (cc : dockerContainer) :
  stray cc = true ↔
  updated cc = false ∧ state cc ≠ "removing" ∧ state cc ≠ "exited" ∧
  state cc ≠ "created" ∧ state cc ≠ "starting" ∧ state cc ≠ "stopping".
Proof.
  unfold stray. rewrite !andb_true_iff, !negb_true_iff, orb_false_iff, !eqb_false_iff.
  tauto.
Qed.

Lemma sweep_doomed (w : world) (task : Task) (i : string) (cc : dockerContainer) :
  task ∈ w_tasks w → record (w_sched w) (Name task) i = Some cc → doomed cc = true →
  record (w_sched (sweep w)) (Name task) i = None.
Proof.
  destruct (fold_sweep_task (w_sched w) (w_tasks w) (w_sched w) (w_log w))
    as (c & l & Hfold & _ & _ & Hdoomed & _); [apply remains_refl|].
  unfold sweep. rewrite Hfold. simpl. apply Hdoomed.
Qed.

Lemma sweep_spec (w : world) :
  ∃ l, w_log (sweep w) = w_log w ++ l ∧
    remains (w_sched w) (w_sched (sweep w)) ∧
    (∀ task i cc, task ∈ w_tasks w → record (w_sched w) (Name task) i = Some cc →
       stray cc = true → LogBadState i (state cc) ∈ l) ∧
    (∀ e, e ∈ l → is_anomaly e = true →
       ∃ task i cc, task ∈ w_tasks w ∧ record (w_sched w) (Name task) i = Some cc ∧
                    stray cc = true ∧ e = LogBadState i (state cc)).
Proof.
  destruct (fold_sweep_task (w_sched w) (w_tasks w) (w_sched w) (w_log w))
    as (c & l & Hfold & Hrem & _ & _ & Hstray & Hlines); [apply remains_refl|].
  exists l. unfold sweep. rewrite Hfold. simpl. done.
Qed.

(** C5.  The last loop of a pass, over the records of the tasks of the
    pass: a record not seen in the pass is deleted when it is "removing" or
    "exited"; it is left as it is, and no bad state is reported for it, when
    it is "created", "starting" or "stopping"; in any other state it is kept
    and the loop reports its bad state. *)
Theorem CountAllTasks_sweeps_unobserved (containers : list APIContainers) (w w1 : world) :
  observed containers w = Returns w1 →
  ∃ w2 l,
    CountAllTasks (inr containers) w = Returns (w2, None) ∧
    w_log w2 = w_log w1 ++ l ∧
    ∀ task i cc,
      task ∈ w_tasks w1 →
      record (w_sched w1) (Name task) i = Some cc → updated cc = false →
      (state cc = "removing" ∨ state cc = "exited" →
       record (w_sched w2) (Name task) i = None) ∧
      (state cc = "created" ∨ state cc = "starting" ∨ state cc = "stopping" →
       record (w_sched w2) (Name task) i = Some cc ∧ LogBadState i (state cc) ∉ l) ∧
      (state cc ≠ "removing" → state cc ≠ "exited" → state cc ≠ "created" →
       state cc ≠ "starting" → state cc ≠ "stopping" →
       record (w_sched w2) (Name task) i = Some cc ∧ LogBadState i (state cc) ∈ l).
Proof.
  intros Hobs.
  destruct (fold_sweep_task (w_sched w1) (w_tasks w1) (w_sched w1) (w_log w1))
    as (c & l & Hfold & Hrem & _ & Hdoomed & Hstray & Hlines); [apply remains_refl|].
  exists (mkWorld c (w_tasks w1) (w_log w1 ++ l)), l.
  split; [|split; [done|]].
  { unfold CountAllTasks. rewrite Hobs. simpl. unfold sweep. by rewrite Hfold. }
  simpl. intros task i cc Hin Hrec Hupd. split; [|split].
  - intros Hst. eapply Hdoomed; [done..|]. by apply doomed_spec.
  - intros Hst. split.
    + eapply remains_keeps; [done..|].
      destruct (doomed cc) eqn:Hd; [|done].
      apply doomed_spec in Hd as [_ Hd]. destruct Hst as [H|[H|H]], Hd as [H'|H']; congruence.
    + intros Hbad. destruct (Hlines _ Hbad eq_refl) as (task' & i' & cc' & _ & _ & Hs & Heq).
      injection Heq as -> Hstate. apply stray_spec in Hs as (_ & _ & _ & Hc & Hg & Hp).
      destruct Hst as [H|[H|H]]; congruence.
  - intros H1 H2 H3 H4 H5.
    assert (stray cc = true) as Hs by (by apply stray_spec).
    split; [|by eapply Hstray].
    eapply remains_keeps; [done..|]. by apply stray_not_doomed.
Qed.

(** ** CountAllTasks: the loop over the listed containers *)

Lemma applyObserved_incr (newState id : string) (r : dockerContainer) :
  (applyObserved newState id r).1.1 = String.eqb newState "running".
Proof.
  unfold applyObserved.
  repeat (match goal with |- context [if String.eqb newState ?s then _ else _] =>
            destruct (String.eqb newState s) eqn:? end; try done).
Qed.

Lemma applyObserved_state (newState id : string) (r : dockerContainer) :
  setUpdated (applyObserved newState id r).1.2 true =
  mkContainer (next_state newState (state r)) true.
Proof.
  unfold next_state, applyObserved. destruct r as [st b]. simpl.
  repeat (match goal with |- context [if String.eqb newState ?s then _ else _] =>
            destruct (String.eqb newState s) eqn:? end; try done).
  simpl. by destruct (String.eqb st "starting" || String.eqb st "").
Qed.

Lemma applyObserved_lines (newState id : string) (r : dockerContainer) :
  (applyObserved newState id r).2 = switch_lines newState id (state r).
Proof.
  unfold switch_lines, applyObserved. destruct r as [st b]. simpl.
  repeat (match goal with |- context [if String.eqb newState ?s then _ else _] =>
            destruct (String.eqb newState s) eqn:? end; try done).
Qed.

(** One round of the loop, in full. *)
Lemma observe_eq (w : world) (ct : APIContainers) :
  observe w ct =
  match Labels ct !! labelMap with
  | None => Returns w
  | Some taskName =>
      match GetTask (w_tasks w) taskName with
      | None => Returns (mkWorld (w_sched w) (w_tasks w) (w_log w ++ [LogNotManaging taskName]))
      | Some p =>
          if (String.length (ID ct) <? 12)%nat then Panics else
          let id := substring 0 12 (ID ct) in
          match taskContainers (w_sched w) !! taskName with
          | None => Panics
          | Some theseContainers =>
              let r := theseContainers !! id in
              Returns (mkWorld
                (put_record (w_sched w) taskName id
                   (mkContainer (next_state (newState_of ct) (state_of r)) true))
                (bump (w_tasks w) ct)
                (w_log w ++ round_lines ct id r))
          end
      end
  end.
Proof.
  unfold observe, bump, round_lines, newState_of, put_record.
  destruct (Labels ct !! labelMap) as [taskName|]; [|done].
  destruct (GetTask (w_tasks w) taskName) as [p|]; [|done].
  destruct (statusToState (Status ct)) as [newState log1]. simpl.
  destruct (String.length (ID ct) <? 12)%nat; [done|].
  destruct (taskContainers (w_sched w) !! taskName) as [m|]; [|done]. simpl.
  set (id := substring 0 12 (ID ct)).
  set (r0 := match m !! id with Some cc => cc | None => mkContainer "" false end).
  assert (state r0 = state_of (m !! id)) as Hst by (unfold r0; by destruct (m !! id)).
  pose proof (applyObserved_incr newState id r0) as Hincr.
  pose proof (applyObserved_state newState id r0) as Hstate.
  pose proof (applyObserved_lines newState id r0) as Hlines.
  rewrite Hst in Hstate, Hlines.
  destruct (m !! id) as [cc|]; fold r0;
    destruct (applyObserved newState id r0) as [[incr cc'] log3];
    simpl in Hincr, Hstate, Hlines; subst incr log3; rewrite Hstate; done.
Qed.

Lemma observe_step (w wa : world) (ct : APIContainers) :
  observe w ct = Returns wa →
  can_file (w_tasks w) (w_sched w) ct ∧
  wa = mkWorld (store_after_round (w_tasks w) (w_sched w) ct)
               (bump (w_tasks w) ct)
               (w_log w ++ lines_of_round (w_tasks w) (w_sched w) ct).
Proof.
  rewrite observe_eq.
  unfold can_file, store_after_round, lines_of_round, bump, key_of.
  destruct (Labels ct !! labelMap) as [taskName|].
  - destruct (GetTask (w_tasks w) taskName) as [p|].
    + destruct (String.length (ID ct) <? 12)%nat eqn:E; [done|].
      apply Nat.ltb_ge in E.
      destruct (taskContainers (w_sched w) !! taskName) as [m|] eqn:Hm; [|done].
      simpl. intros [= <-]. split; [by eauto|].
      unfold record. rewrite Hm. simpl. done.
    + by intros [= <-].
  - intros [= <-]. split; [done|]. destruct w; simpl. by rewrite app_nil_r.
Qed.

Lemma observe_returns (w : world) (ct : APIContainers) :
  can_file (w_tasks w) (w_sched w) ct → ∃ wa, observe w ct = Returns wa.
Proof.
  rewrite observe_eq. unfold can_file, key_of.
  destruct (Labels ct !! labelMap) as [taskName|]; [|by eauto].
  destruct (GetTask (w_tasks w) taskName) as [p|]; [|by eauto].
  intros [Hlen [m Hm]]. rewrite Hm.
  destruct (String.length (ID ct) <? 12)%nat eqn:E; [apply Nat.ltb_lt in E; lia|].
  by eauto.
Qed.

(** The tasks: a round changes no name, and nothing but [Running]. *)

Lemma GetTask_from_names (ts ts' : list Task) (i : ptr) (name : string) :
  Name <$> ts = Name <$> ts' → GetTask_from i ts name = GetTask_from i ts' name.
Proof.
  revert ts' i. induction ts as [|t ts IH]; intros [|t' ts'] i Heq; try done.
  simpl in *. injection Heq as Hn Heq. rewrite Hn. by rewrite (IH ts' (S i) Heq).
Qed.

Lemma key_of_names (ts ts' : list Task) (ct : APIContainers) :
  Name <$> ts = Name <$> ts' → key_of ts ct = key_of ts' ct.
Proof.
  intros Heq. unfold key_of, GetTask.
  destruct (Labels ct !! labelMap) as [n|]; [|done].
  by rewrite (GetTask_from_names ts ts' 0 n Heq).
Qed.

Lemma keys_names (ts ts' : list Task) (cs : list APIContainers) :
  Name <$> ts = Name <$> ts' → keys ts cs = keys ts' cs.
Proof.
  intros Heq. unfold keys. apply list_omap_ext, Forall_Forall2_diag, Forall_forall.
  intros ct _. by apply key_of_names.
Qed.

Lemma bump_fmap {A} (f : Task → A) (ts : list Task) (ct : APIContainers) :
  (∀ t n, f (setRunning t n) = f t) → f <$> bump ts ct = f <$> ts.
Proof.
  intros Hf. unfold bump.
  destruct (Labels ct !! labelMap) as [n|]; [|done].
  destruct (GetTask ts n) as [p|]; [|done].
  destruct (String.eqb (newState_of ct) "running"); [|done].
  destruct (ts !! p) as [t|] eqn:Hp; [|done].
  rewrite list_fmap_insert, Hf. apply list_insert_id. by rewrite list_lookup_fmap, Hp.
Qed.

Lemma bump_names (ts : list Task) (ct : APIContainers) : Name <$> bump ts ct = Name <$> ts.
Proof. by apply bump_fmap. Qed.

Lemma bump_reset (ts : list Task) (ct : APIContainers) :
  (λ t, setRunning t 0) <$> bump ts ct = (λ t, setRunning t 0) <$> ts.
Proof. by apply bump_fmap. Qed.

Lemma reset_names (ts : list Task) : Name <$> ((λ t, setRunning t 0) <$> ts) = Name <$> ts.
Proof. rewrite <- list_fmap_compose. by apply list_fmap_ext. Qed.

Lemma reset_reset (ts : list Task) :
  (λ t, setRunning t 0) <$> ((λ t, setRunning t 0) <$> ts) = (λ t, setRunning t 0) <$> ts.
Proof. rewrite <- list_fmap_compose. by apply list_fmap_ext. Qed.

Lemma observe_all_tasks (cs : list APIContainers) (w w' : world) :
  observe_all w cs = Returns w' →
  Name <$> w_tasks w' = Name <$> w_tasks w ∧
  (λ t, setRunning t 0) <$> w_tasks w' = (λ t, setRunning t 0) <$> w_tasks w.
Proof.
  revert w. induction cs as [|ct cs IH]; intros w; simpl.
  - by intros [= <-].
  - destruct (observe w ct) as [wa|] eqn:Hobs; [|done]. simpl. intros H.
    apply IH in H as [Hn Hr]. apply observe_step in Hobs as [_ ->]. simpl in *.
    by rewrite Hn, Hr, bump_names, bump_reset.
Qed.

(** The store: which tasks have a map of records never changes. *)

Lemma reset_flags_dom (ts : list Task) (tc : gmap string (gmap string dockerContainer)) :
  dom (fold_left reset_flags ts tc) = dom tc.
Proof.
  revert tc. induction ts as [|t ts IH]; intros tc; simpl; [done|].
  rewrite IH. unfold reset_flags. apply dom_alter_L.
Qed.

Lemma store_after_round_dom (ts : list Task) (c : DockerScheduler) (ct : APIContainers) :
  can_file ts c ct →
  dom (taskContainers (store_after_round ts c ct)) = dom (taskContainers c).
Proof.
  unfold can_file, store_after_round. destruct (key_of ts ct) as [[n i]|]; [|done].
  intros [_ Hn]. unfold put_record. simpl. rewrite dom_insert_L.
  apply elem_of_dom in Hn. by apply subseteq_union_1_L, singleton_subseteq_l.
Qed.

Lemma fold_purge_dom (name : string) (entries : list (string * dockerContainer))
    (c : DockerScheduler) :
  dom (taskContainers (fold_left (purge name) entries c)) = dom (taskContainers c).
Proof.
  revert c. induction entries as [|entry entries IH]; intros c; simpl; [done|].
  rewrite IH. unfold purge. destruct (doomed entry.2); [|done]. simpl. apply dom_alter_L.
Qed.

Lemma fold_sweep_task_dom (ts : list Task) (c : DockerScheduler) (log : list log_entry) :
  dom (taskContainers (fold_left sweep_task ts (c, log)).1) = dom (taskContainers c).
Proof.
  revert c log. induction ts as [|task ts IH]; intros c log; cbn [fold_left]; [done|].
  rewrite sweep_task_eq, IH. apply fold_purge_dom.
Qed.

Lemma sweep_dom (w : world) :
  dom (taskContainers (w_sched (sweep w))) = dom (taskContainers (w_sched w)).
Proof.
  unfold sweep. pose proof (fold_sweep_task_dom (w_tasks w) (w_sched w) (w_log w)) as H.
  by destruct (fold_left sweep_task (w_tasks w) (w_sched w, w_log w)).
Qed.

Lemma sweep_tasks (w : world) : w_tasks (sweep w) = w_tasks w.
Proof.
  unfold sweep. by destruct (fold_left sweep_task (w_tasks w) (w_sched w, w_log w)).
Qed.

Lemma observe_all_dom (cs : list APIContainers) (w w' : world) :
  observe_all w cs = Returns w' →
  dom (taskContainers (w_sched w')) = dom (taskContainers (w_sched w)).
Proof.
  revert w. induction cs as [|ct cs IH]; intros w; simpl.
  - by intros [= <-].
  - destruct (observe w ct) as [wa|] eqn:Hobs; [|done]. simpl. intros H.
    apply IH in H. apply observe_step in Hobs as [Hcan ->]. simpl in *.
    by rewrite H, store_after_round_dom.
Qed.

(** Two runs of the loop from worlds with the same tasks and the same task
    entries: when the one gets through, so does the other, with the same
    tasks. *)
Lemma observe_all_same_tasks (cs : list APIContainers) (w1 w2 w1' : world) :
  w_tasks w1 = w_tasks w2 →
  dom (taskContainers (w_sched w1)) = dom (taskContainers (w_sched w2)) →
  observe_all w1 cs = Returns w1' →
  ∃ w2', observe_all w2 cs = Returns w2' ∧ w_tasks w1' = w_tasks w2'.
Proof.
  revert w1 w2. induction cs as [|ct cs IH]; intros w1 w2 Ht Hd; simpl.
  - intros [= <-]. by exists w2.
  - destruct (observe w1 ct) as [w1a|] eqn:Hobs1; [|done]. simpl. intros H.
    apply observe_step in Hobs1 as [Hcan1 ->].
    assert (can_file (w_tasks w2) (w_sched w2) ct) as Hcan2.
    { unfold can_file in *. rewrite <- Ht. destruct (key_of (w_tasks w1) ct) as [[n i]|]; [|done].
      destruct Hcan1 as [Hlen Hn]. split; [done|].
      apply elem_of_dom. rewrite <- Hd. by apply elem_of_dom. }
    destruct (observe_returns w2 ct Hcan2) as [w2a Hobs2]. rewrite Hobs2. simpl.
    apply observe_step in Hobs2 as [_ ->].
    eapply IH; [| |exact H]; simpl.
    + by rewrite Ht.
    + rewrite !store_after_round_dom by done. done.
Qed.

(** The records: what the first loop and one round of the second do to the
    record filed under a key. *)

Lemma fold_reset_record (ts : list Task) (c : DockerScheduler) (n i : string) :
  record (setContainers c (fold_left reset_flags ts (taskContainers c))) n i =
  (λ r, if decide (n ∈ Name <$> ts) then setUpdated r false else r) <$> record c n i.
Proof.
  revert c. induction ts as [|t ts IH]; intros c.
  - simpl. rewrite setContainers_id. by destruct (record c n i).
  - cbn [fold_left].
    etrans; [exact (IH (setContainers c (reset_flags (taskContainers c) t)))|].
    rewrite fmap_cons. unfold record, reset_flags. cbn [taskContainers setContainers].
    destruct (decide (n = Name t)) as [->|Hne].
    + rewrite lookup_alter_eq.
      destruct (taskContainers c !! Name t) as [m|]; [|done]. cbn [fmap option_fmap option_map mbind option_bind].
      rewrite lookup_fmap. destruct (m !! i) as [r|]; [|done]. cbn.
      rewrite (decide_True (P := Name t ∈ Name t :: _)) by left.
      by case_decide.
    + rewrite lookup_alter_ne by done.
      destruct (taskContainers c !! n) as [m|]; [|done]. cbn [mbind option_bind].
      destruct (m !! i) as [r|]; [|done]. cbn [fmap option_fmap option_map].
      destruct (decide (n ∈ Name <$> ts)) as [Hin|Hnin].
      * rewrite decide_True by (by right). done.
      * rewrite decide_False; [done|]. intros [H|H]%elem_of_cons; done.
Qed.

Lemma reset_record (w : world) (n i : string) :
  record (w_sched (reset w)) n i =
  (λ r, if decide (n ∈ Name <$> w_tasks w) then setUpdated r false else r)
    <$> record (w_sched w) n i.
Proof. apply fold_reset_record. Qed.

Lemma record_store_after_round (ts : list Task) (c : DockerScheduler) (ct : APIContainers)
    (n i : string) :
  record (store_after_round ts c ct) n i =
  if decide (key_of ts ct = Some (n, i))
  then Some (mkContainer (next_state (newState_of ct) (state_of (record c n i))) true)
  else record c n i.
Proof.
  unfold store_after_round. destruct (key_of ts ct) as [[n' i']|].
  - rewrite record_put_record. case_decide as Hk.
    + destruct Hk as [-> ->]. by rewrite decide_True.
    + rewrite decide_False; [done|]. intros [= -> ->]. by apply Hk.
  - by rewrite decide_False.
Qed.

Lemma key_of_task (ts : list Task) (ct : APIContainers) (n i : string) :
  key_of ts ct = Some (n, i) → n ∈ Name <$> ts.
Proof.
  unfold key_of. destruct (Labels ct !! labelMap) as [n'|]; [|done].
  destruct (GetTask ts n') as [p|] eqn:Hget; [|done]. intros [= -> <-].
  apply GetTask_Some in Hget as (t & Hp & <-).
  apply list_elem_of_fmap. exists t. split; [done|]. by eapply list_elem_of_lookup_2.
Qed.

(** When no two listed containers are filed under the same key, the loop
    leaves under the key of each the record its round made, and every other
    record as it was. *)
Lemma observe_all_records (cs : list APIContainers) (w w' : world) :
  observe_all w cs = Returns w' →
  NoDup (keys (w_tasks w) cs) →
  (∀ ct n i, ct ∈ cs → key_of (w_tasks w) ct = Some (n, i) →
     record (w_sched w') n i =
     Some (mkContainer (next_state (newState_of ct) (state_of (record (w_sched w) n i))) true)) ∧
  (∀ n i, (n, i) ∉ keys (w_tasks w) cs → record (w_sched w') n i = record (w_sched w) n i).
Proof.
  revert w. induction cs as [|ct cs IH]; intros w; simpl.
  - intros [= <-] _. split; [intros ? ? ? H; by apply elem_of_nil in H | done].
  - destruct (observe w ct) as [wa|] eqn:Hobs; [|done]. simpl. intros Hall Hnd.
    apply observe_step in Hobs as [_ ->].
    set (ts := w_tasks w) in *. set (c := w_sched w) in *.
    assert (keys (bump ts ct) cs = keys ts cs) as Hkeys
      by (apply keys_names, bump_names).
    assert (NoDup (keys ts cs) ∧ ∀ k, key_of ts ct = Some k → k ∉ keys ts cs) as [Hnd' Hhead].
    { unfold keys in *. simpl in Hnd. destruct (key_of ts ct) as [k|].
      - apply NoDup_cons in Hnd as [Hk Hnd]. split; [done|]. by intros k' [= <-].
      - split; [done|]. done. }
    destruct (IH _ Hall) as [IHat IHother]; simpl; [by rewrite Hkeys|].
    simpl in IHat, IHother. rewrite Hkeys in IHother.
    split.
    + intros ct' n i Hin Hkey. apply elem_of_cons in Hin as [->|Hin].
      * rewrite IHother by (by apply Hhead).
        rewrite record_store_after_round. by rewrite decide_True.
      * rewrite (IHat ct' n i Hin)
          by (by rewrite (key_of_names _ ts) by apply bump_names).
        rewrite record_store_after_round. rewrite decide_False; [done|].
        intros Hk. apply (Hhead _ Hk). apply list_elem_of_omap. eauto.
    + intros n i Hnin. rewrite IHother.
      * rewrite record_store_after_round. rewrite decide_False; [done|].
        intros Hk. apply Hnin. unfold keys. simpl. rewrite Hk. by left.
      * intros Hin. apply Hnin. unfold keys. simpl.
        destruct (key_of ts ct); [by right | done].
Qed.

(** A round that finds the record its own round of the pass before made
    writes no anomaly that round did not write. *)
Lemma switch_lines_next (newState id st : string) (e : log_entry) :
  e ∈ switch_lines newState id (next_state newState st) → e ∈ switch_lines newState id st.
Proof.
  unfold switch_lines, next_state, applyObserved. simpl.
  destruct (String.eqb newState "running"); [done|].
  destruct (String.eqb newState "removing"); [done|].
  destruct (String.eqb newState "exited"); [done|].
  destruct (String.eqb newState "dead") eqn:E; [|done].
  apply eqb_eq_iff in E. subst newState. simpl. intros H. by apply elem_of_nil in H.
Qed.

Lemma round_lines_next (ct : APIContainers) (id : string) (r : option dockerContainer)
    (r2 : dockerContainer) (e : log_entry) :
  state r2 = next_state (newState_of ct) (state_of r) →
  e ∈ round_lines ct id (Some r2) → e ∈ round_lines ct id r.
Proof.
  intros Hst. unfold round_lines.
  change (state_of (Some r2)) with (state r2). rewrite Hst.
  rewrite !elem_of_app. intros [H|[H|H]].
  - by left.
  - by apply elem_of_nil in H.
  - right. right. by apply switch_lines_next.
Qed.

(** The loop of a second pass next to the loop of the first: [w2] has, for
    every container still to come, the record that the first pass is about
    to make of the record in [w1]. *)
Lemma observe_all_lines (cs : list APIContainers) (w1 w2 w1' w2' : world) :
  w_tasks w1 = w_tasks w2 →
  NoDup (keys (w_tasks w1) cs) →
  (∀ ct n i, ct ∈ cs → key_of (w_tasks w1) ct = Some (n, i) →
     ∃ r2, record (w_sched w2) n i = Some r2 ∧
           state r2 = next_state (newState_of ct) (state_of (record (w_sched w1) n i))) →
  observe_all w1 cs = Returns w1' →
  observe_all w2 cs = Returns w2' →
  ∃ l1 l2, w_log w1' = w_log w1 ++ l1 ∧ w_log w2' = w_log w2 ++ l2 ∧
           ∀ e, e ∈ l2 → e ∈ l1.
Proof.
  revert w1 w2. induction cs as [|ct cs IH]; intros w1 w2 Ht Hnd Hinv; simpl.
  - intros [= <-] [= <-]. exists [], []. rewrite !app_nil_r. done.
  - destruct (observe w1 ct) as [w1a|] eqn:Hobs1; [|done].
    destruct (observe w2 ct) as [w2a|] eqn:Hobs2; [|done]. simpl. intros H1 H2.
    apply observe_step in Hobs1 as [_ ->]. apply observe_step in Hobs2 as [_ ->].
    rewrite <- Ht in *.
    set (ts := w_tasks w1) in *. set (c1 := w_sched w1) in *. set (c2 := w_sched w2) in *.
    assert (NoDup (keys ts cs) ∧ ∀ k, key_of ts ct = Some k → k ∉ keys ts cs) as [Hnd' Hhead].
    { unfold keys in *. simpl in Hnd. destruct (key_of ts ct) as [k|].
      - apply NoDup_cons in Hnd as [Hk Hnd]. split; [done|]. by intros k' [= <-].
      - split; [done|]. done. }
    assert (∃ l1 l2,
      w_log w1' = (w_log w1 ++ lines_of_round ts c1 ct) ++ l1 ∧
      w_log w2' = (w_log w2 ++ lines_of_round ts c2 ct) ++ l2 ∧
      ∀ e, e ∈ l2 → e ∈ l1) as (l1 & l2 & Hl1 & Hl2 & Hsub).
    { eapply (IH (mkWorld (store_after_round ts c1 ct) (bump ts ct)
                          (w_log w1 ++ lines_of_round ts c1 ct))
                 (mkWorld (store_after_round ts c2 ct) (bump ts ct)
                          (w_log w2 ++ lines_of_round ts c2 ct)));
        [| | |exact H1|exact H2]; simpl.
      - done.
      - by rewrite (keys_names _ ts) by apply bump_names.
      - intros ct' n i Hin Hkey.
        rewrite (key_of_names _ ts) in Hkey by apply bump_names.
        destruct (Hinv ct' n i) as (r2 & Hr2 & Hst); [by right | done |].
        assert (key_of ts ct ≠ Some (n, i)) as Hne.
        { intros Hk. apply (Hhead _ Hk). apply list_elem_of_omap. eauto. }
        exists r2. rewrite !record_store_after_round, !decide_False by done. done. }
    exists (lines_of_round ts c1 ct ++ l1), (lines_of_round ts c2 ct ++ l2).
    rewrite Hl1, Hl2, <- !app_assoc. split; [done|]. split; [done|].
    intros e. rewrite !elem_of_app. intros [He|He]; [|right; by apply Hsub].
    left. unfold lines_of_round in *.
    destruct (key_of ts ct) as [[n i]|] eqn:Hkey; [|done].
    destruct (Hinv ct n i) as (r2 & Hr2 & Hst); [by left | done |].
      rewrite Hr2 in He. by eapply round_lines_next.
Qed.

Lemma lines_since_app (w w' : world) (l : list log_entry) :
  w_log w' = w_log w ++ l → lines_since w w' = l.
Proof. intros H. unfold lines_since. rewrite H. apply drop_app_length. Qed.

(** C8, as the code has it.  A second pass over the same list of containers
    returns as the first did and leaves every task with the [Running] the
    first pass left it; and when no two of the listed containers are filed
    under the same task and the same short identifier, every anomaly the
    second pass logs was logged by the first. *)
Theorem CountAllTasks_twice (cs : list APIContainers) (w w1 : world) (e1 : option error) :
  CountAllTasks (inr cs) w = Returns (w1, e1) →
  ∃ w2,
    CountAllTasks (inr cs) w1 = Returns (w2, None) ∧
    (∀ p, Running <$> w_tasks w2 !! p = Running <$> w_tasks w1 !! p) ∧
    (NoDup (keys (w_tasks w) cs) →
     ∀ e, is_anomaly e = true → e ∈ lines_since w1 w2 → e ∈ lines_since w w1).
Proof.
  unfold CountAllTasks, observed.
  destruct (observe_all (reset w) cs) as [E1|] eqn:Hobs1; [|done]. simpl.
  intros [= <- <-].
  pose proof (observe_all_tasks _ _ _ Hobs1) as [Hnames1 Hreset1].
  pose proof (observe_all_dom _ _ _ Hobs1) as Hdom1.
  simpl in Hnames1, Hreset1, Hdom1. rewrite reset_names in Hnames1.
  rewrite reset_reset in Hreset1. rewrite reset_flags_dom in Hdom1.
  assert (w_tasks (reset w) = w_tasks (reset (sweep E1))) as Ht.
  { simpl. by rewrite sweep_tasks, Hreset1. }
  assert (dom (taskContainers (w_sched (reset w))) =
          dom (taskContainers (w_sched (reset (sweep E1))))) as Hd.
  { simpl. by rewrite !reset_flags_dom, sweep_dom, Hdom1. }
  destruct (observe_all_same_tasks cs _ _ _ Ht Hd Hobs1) as (E2 & Hobs2 & Htasks).
  rewrite Hobs2. simpl. exists (sweep E2). split; [done|].
  split; [intros p; by rewrite !sweep_tasks, Htasks|].
  intros Hnd e Ha.
  assert (keys (w_tasks (reset w)) cs = keys (w_tasks w) cs) as Hkeys
    by (apply keys_names, reset_names).
  assert (NoDup (keys (w_tasks (reset w)) cs)) as Hnd1 by (by rewrite Hkeys).
  assert (NoDup (keys (w_tasks (reset (sweep E1))) cs)) as Hnd2 by (by rewrite <- Ht).
  destruct (observe_all_records _ _ _ Hobs1 Hnd1) as [Hat1 Hother1].
  destruct (observe_all_records _ _ _ Hobs2 Hnd2) as [Hat2 Hother2].
  rewrite <- Ht in Hat2, Hother2.
  destruct (sweep_spec E1) as (ls1 & Hlog1 & Hrem1 & Hstray1 & _).
  destruct (sweep_spec E2) as (ls2 & Hlog2 & _ & _ & Hlines2).
  destruct (observe_all_lines cs (reset w) (reset (sweep E1)) E1 E2)
    as (lo1 & lo2 & Hlo1 & Hlo2 & Hsub); [done | done | | done | done |].
  { intros ct n i Hin Hkey. rewrite reset_record.
    rewrite (remains_keeps _ _ _ _ _ Hrem1 (Hat1 ct n i Hin Hkey)) by done.
    simpl. eexists. split; [done|]. by case_decide. }
  simpl in Hlo1, Hlo2.
  rewrite (lines_since_app (sweep E1) (sweep E2) (lo2 ++ ls2))
    by (by rewrite Hlog2, Hlo2, <- app_assoc).
  rewrite (lines_since_app w (sweep E1) (lo1 ++ ls1))
    by (by rewrite Hlog1, Hlo1, <- app_assoc).
  rewrite !elem_of_app. intros [He|He]; [left; by apply Hsub|]. right.
  destruct (Hlines2 e He Ha) as (task & i & cc & Hin & Hrec2 & Hs & ->).
  assert (updated cc = false) as Hupd by (by apply stray_spec in Hs as [? _]).
  assert ((Name task, i) ∉ keys (w_tasks (reset w)) cs) as Hnin.
  { intros Hk. apply list_elem_of_omap in Hk as (ct & Hct & Hkey).
    rewrite (Hat2 ct _ _ Hct Hkey) in Hrec2. injection Hrec2 as <-. done. }
  rewrite (Hother2 _ _ Hnin), reset_record in Hrec2.
  destruct (record (w_sched (sweep E1)) (Name task) i) as [cc1|] eqn:Hrec1; [|done].
  apply (remains_Some _ _ _ _ _ Hrem1) in Hrec1.
  assert (updated cc1 = false) as Hupd1.
  { rewrite (Hother1 _ _ Hnin), reset_record in Hrec1.
    destruct (record (w_sched w) (Name task) i) as [cc0|]; [|done].
    simpl in Hrec1. injection Hrec1 as <-.
    rewrite decide_True; [done|]. rewrite <- Hnames1, Htasks.
    apply list_elem_of_fmap. eauto. }
  assert (cc = cc1) as ->.
  { simpl in Hrec2. injection Hrec2 as <-. case_decide; [|done].
    destruct cc1 as [st b]. simpl in *. by subst b. }
  apply (Hstray1 task i cc1); [by rewrite Htasks | done | done].
Qed.

(** ** The goroutines and the pass that follows them *)

Lemma observe_all_unlisted (cs : list APIContainers) (w w' : world) (n i : string) :
  observe_all w cs = Returns w' → (n, i) ∉ keys (w_tasks w) cs →
  record (w_sched w') n i = record (w_sched w) n i.
Proof.
  revert w. induction cs as [|ct cs IH]; intros w; simpl.
  - by intros [= <-].
  - destruct (observe w ct) as [wa|] eqn:Hobs; [|done]. simpl. intros Hall Hnin.
    apply observe_step in Hobs as [_ ->].
    rewrite (IH _ Hall); simpl.
    + rewrite record_store_after_round. rewrite decide_False; [done|].
      intros Hk. apply Hnin. unfold keys. simpl. rewrite Hk. by left.
    + rewrite (keys_names _ (w_tasks w)) by apply bump_names.
      intros Hin. apply Hnin. unfold keys. simpl.
      destruct (key_of (w_tasks w) ct); [by right | done].
Qed.

(** A start unit whose two calls succeed leaves the new container on record
    as "starting"; when the start call fails the record stays "created". *)
Lemma startTask_unit_started (containerID taskName : string) (started : option error)
    (c : DockerScheduler) :
  (12 ≤ String.length containerID)%nat → is_Some (taskContainers c !! taskName) →
  ∃ c', startTask_unit (inr containerID) started taskName c = Returns c' ∧
        record c' taskName (substring 0 12 containerID) =
        Some (mkContainer (match started with Some _ => "created" | None => "starting" end)
                          false).
Proof.
  intros Hlen [m Hm]. unfold startTask_unit, start_created. rewrite Hm.
  destruct (String.length containerID <? 12)%nat eqn:E; [apply Nat.ltb_lt in E; lia|].
  simpl. destruct started as [e|].
  - eexists. split; [done|]. unfold record. simpl.
    rewrite lookup_insert_eq. simpl. by rewrite lookup_insert_eq.
  - unfold set_record_state, record. simpl. rewrite lookup_insert_eq. simpl.
    rewrite lookup_insert_eq. eexists. split; [done|].
    fold (record (put_record (setContainers c
      (<[taskName := <[substring 0 12 containerID := mkContainer "created" false]> m]>
         (taskContainers c))) taskName (substring 0 12 containerID)
      (setState (mkContainer "created" false) "starting")) taskName
      (substring 0 12 containerID)).
    rewrite record_put_record. by rewrite decide_True.
Qed.

(** A stop unit whose stop call succeeds turns the record of its container
    to "removing"; the next observation pass that is not told of the
    container deletes the record. *)
Lemma stopTask_unit_removing (taskName id : string) (cc : dockerContainer) (c : DockerScheduler) :
  record c taskName id = Some cc →
  stopTask_unit None taskName id c = Returns (put_record c taskName id (setState cc "removing")).
Proof. intros H. unfold stopTask_unit, set_record_state. by rewrite H. Qed.

Lemma removing_record_swept (cs : list APIContainers) (w w' : world) (e : option error)
    (task : Task) (i : string) (cc : dockerContainer) :
  task ∈ w_tasks w → record (w_sched w) (Name task) i = Some cc →
  state cc = "removing" → (Name task, i) ∉ keys (w_tasks w) cs →
  CountAllTasks (inr cs) w = Returns (w', e) →
  record (w_sched w') (Name task) i = None.
Proof.
  intros Hin Hrec Hst Hnin. unfold CountAllTasks, observed.
  destruct (observe_all (reset w) cs) as [E1|] eqn:Hobs; [|done]. simpl. intros [= <- _].
  pose proof (observe_all_tasks _ _ _ Hobs) as [Hnames _].
  simpl in Hnames. rewrite reset_names in Hnames.
  assert (Name task ∈ Name <$> w_tasks w) as Hname
    by (apply list_elem_of_fmap; eauto).
  rewrite <- Hnames in Hname. apply list_elem_of_fmap in Hname as (task' & Heq & Hin').
  rewrite Heq. apply (sweep_doomed E1 task' i (setUpdated cc false) Hin').
  - rewrite <- Heq, (observe_all_unlisted _ _ _ _ _ Hobs).
    + rewrite reset_record, Hrec. simpl. rewrite decide_True; [done|].
      apply list_elem_of_fmap; eauto.
    + by rewrite (keys_names _ (w_tasks w)) by apply reset_names.
  - apply doomed_spec. simpl. split; [done | by left].
Qed.

(** ** The identifiers of the records

    Every operation files records under 12-character identifiers only. *)

Lemma length_substring_0 (n : nat) (s : string) :
  (n ≤ String.length s)%nat → String.length (substring 0 n s) = n.
Proof.
  revert s. induction n as [|n IH]; intros [|a s] H; simpl in *; try lia.
  rewrite IH; lia.
Qed.

Lemma put_record_ids_ok (c : DockerScheduler) (n i : string) (cc : dockerContainer) :
  store_ids_ok c → String.length i = 12 → store_ids_ok (put_record c n i cc).
Proof.
  intros Hok Hlen n' i' cc'. rewrite record_put_record. case_decide as Hk.
  - destruct Hk as [_ <-]. done.
  - apply Hok.
Qed.

Lemma store_after_round_ids_ok (ts : list Task) (c : DockerScheduler) (ct : APIContainers) :
  can_file ts c ct → store_ids_ok c → store_ids_ok (store_after_round ts c ct).
Proof.
  unfold can_file, store_after_round, key_of.
  destruct (Labels ct !! labelMap) as [n|]; [|done].
  destruct (GetTask ts n); [|done].
  intros [Hlen _] Hok. apply put_record_ids_ok; [done|]. by apply length_substring_0.
Qed.

Lemma observe_all_ids_ok (cs : list APIContainers) (w w' : world) :
  observe_all w cs = Returns w' → store_ids_ok (w_sched w) → store_ids_ok (w_sched w').
Proof.
  revert w. induction cs as [|ct cs IH]; intros w; simpl.
  - by intros [= <-].
  - destruct (observe w ct) as [wa|] eqn:Hobs; [|done]. simpl. intros H Hok.
    apply observe_step in Hobs as [Hcan ->]. apply (IH _ H). simpl.
    by apply store_after_round_ids_ok.
Qed.

Lemma reset_ids_ok (w : world) : store_ids_ok (w_sched w) → store_ids_ok (w_sched (reset w)).
Proof.
  intros Hok n i cc. rewrite reset_record.
  destruct (record (w_sched w) n i) as [cc0|] eqn:E; [|done]. intros _. by eapply Hok.
Qed.

Lemma remains_ids_ok (E c : DockerScheduler) : remains E c → store_ids_ok E → store_ids_ok c.
Proof. intros Hrem Hok n i cc H. eapply Hok. by eapply remains_Some. Qed.

Lemma CountAllTasks_ids_ok (listing : error + list APIContainers) (w w' : world)
    (e : option error) :
  CountAllTasks listing w = Returns (w', e) →
  store_ids_ok (w_sched w) → store_ids_ok (w_sched w').
Proof.
  destruct listing as [e0|cs]; simpl; [by intros [= <- _]|].
  unfold observed. destruct (observe_all (reset w) cs) as [w1|] eqn:Hobs; [|done].
  simpl. intros [= <- _] Hok.
  destruct (sweep_spec w1) as (l & _ & Hrem & _).
  apply (remains_ids_ok _ _ Hrem). apply (observe_all_ids_ok _ _ _ Hobs).
  by apply reset_ids_ok.
Qed.

Lemma stopTask_scan_cases (entries : list (string * dockerContainer))
    (m : gmap string dockerContainer) :
  stopTask_scan entries m = ("", m) ∨
  ∃ id v, (id, v) ∈ entries ∧
          stopTask_scan entries m = (id, <[id := setState v "stopping"]> m).
Proof.
  induction entries as [|[id v] rest IH]; simpl; [by left|].
  destruct (String.eqb (state v) "running").
  - right. exists id, v. split; [left | done].
  - destruct IH as [IH|(id' & v' & Hin & IH)]; [by left|].
    right. exists id', v'. split; [by right | done].
Qed.

Lemma stopTask_ids_ok (c : DockerScheduler) (task : Task) :
  store_ids_ok c → store_ids_ok (stopTask c task).1.1.
Proof.
  intros Hok. unfold stopTask.
  destruct (taskContainers c !! Name task) as [m|] eqn:Hm; [|done].
  destruct (stopTask_scan_cases (rangeOrder m) m) as [Heq|(id & v & Hin & Heq)]; rewrite Heq.
  - simpl. rewrite insert_id by done. by rewrite setContainers_id.
  - apply rangeOrder_elem in Hin.
    assert (String.length id = 12) as Hlen
      by (apply (Hok (Name task) id v), record_Some; eauto).
    assert (setContainers c (<[Name task := <[id := setState v "stopping"]> m]> (taskContainers c))
            = put_record c (Name task) id (setState v "stopping")) as Hput
      by (unfold put_record; by rewrite Hm).
    destruct (String.eqb id ""); simpl; rewrite Hput; by apply put_record_ids_ok.
Qed.

Lemma InitScheduler_ids_ok (pull : option error) (c : DockerScheduler) (task : Task) :
  store_ids_ok c → store_ids_ok (InitScheduler pull c task).1.
Proof.
  intros Hok n i cc. unfold InitScheduler, record.
  destruct (pullImages c); simpl;
    (destruct (decide (n = Name task)) as [->|Hne];
     [rewrite lookup_insert_eq; simpl; by rewrite lookup_empty
     |rewrite lookup_insert_ne by done; apply Hok]).
Qed.

(** ** InitScheduler *)

(** C7, as the code has it.  [InitScheduler] for a task that is registered
    already does not fail on that account: it returns what the pull of the
    image returned, no error when the scheduler pulls no images, and it
    replaces the entry of the task by an empty map, so that the records of
    the task are gone; the records of the other tasks stay. *)
Theorem InitScheduler_again (pull : option error) (c : DockerScheduler) (task : Task) :
  is_Some (taskContainers c !! Name task) →
  (InitScheduler pull c task).2 = (if pullImages c then pull else None) ∧
  taskContainers (InitScheduler pull c task).1 !! Name task = Some ∅ ∧
  (∀ id, record (InitScheduler pull c task).1 (Name task) id = None) ∧
  (∀ name id, name ≠ Name task →
     record (InitScheduler pull c task).1 name id = record c name id).
Proof.
  intros _. unfold InitScheduler, record.
  destruct (pullImages c); simpl; rewrite lookup_insert_eq;
    (split; [done|]; split; [done|]; split; [done|]);
    intros name id Hne; by rewrite lookup_insert_ne.
Qed.

(** ** The wait group *)

Lemma exec_app (r : run) (s1 s2 : list thread) :
  exec r (s1 ++ s2) = exec r s1 ≫= λ r', exec r' s2.
Proof.
  revert r. induction s1 as [|who s1 IH]; intros r; simpl; [done|].
  destruct (step r who) as [r'|]; simpl; [apply IH | done].
Qed.

Lemma caller_launches (us : list unit_of_work) (n : Z) (gs : list (unit_of_work * goroutine)) :
  exec (mkRun (AtLoops us) n gs) (repeat Caller (length us)) =
  Some (mkRun (AtLoops []) n (gs ++ ((λ u, (u, Launched)) <$> us))).
Proof.
  revert gs. induction us as [|u us IH]; intros gs; simpl.
  - by rewrite app_nil_r.
  - rewrite IH. by rewrite <- app_assoc.
Qed.

(** When the caller runs on its own, before any of the goroutines it
    launched has begun, [scaling.Wait()] finds the counter at zero: the
    pass returns with every unit still to run. *)
Lemma caller_alone_returns (us : list unit_of_work) :
  exec (start_run us) (repeat Caller (length us) ++ [Caller; Caller]) =
  Some (mkRun HasReturned 0 ((λ u, (u, Launched)) <$> us)).
Proof. unfold start_run. rewrite exec_app, caller_launches. done. Qed.

(** What the wait group does ensure: the counter is the number of goroutines
    between their [Add] and their [Done], so [Wait] lets the caller pass only
    when each goroutine launched has either finished or not begun. *)

Lemma working_app (gs gs' : list (unit_of_work * goroutine)) :
  working (gs ++ gs') = (working gs + working gs')%Z.
Proof. induction gs as [|[u []] gs IH]; simpl; lia. Qed.

Lemma working_insert (gs : list (unit_of_work * goroutine)) (i : nat)
    (g g' : unit_of_work * goroutine) :
  gs !! i = Some g →
  working (<[i := g']> gs) = (working gs - working [g] + working [g'])%Z.
Proof.
  revert i. induction gs as [|g0 gs IH]; intros [|i] H; simpl in *; try done.
  - injection H as ->. destruct g as [u []], g' as [u' []]; simpl; lia.
  - rewrite (IH i H). destruct g0 as [u0 []], g as [u []], g' as [u' []]; simpl; lia.
Qed.

Lemma working_zero (gs : list (unit_of_work * goroutine)) :
  working gs = 0%Z → ∀ g, g ∈ gs → g.2 = Launched ∨ g.2 = Finished.
Proof.
  assert (∀ l, (0 <= working l)%Z) as Hpos
    by (intros l; induction l as [|[u []] l IH]; simpl; lia).
  induction gs as [|g0 gs IH]; intros H g Hin; [by apply elem_of_nil in Hin|].
  pose proof (Hpos gs).
  apply elem_of_cons in Hin as [->|Hin].
  - destruct g0 as [u []]; simpl in *; [by left | lia | by right].
  - apply IH; [|done]. destruct g0 as [u []]; simpl in H; lia.
Qed.

Lemma step_scaling (r r' : run) (who : thread) :
  step r who = Some r' → scaling r = working (pool r) → scaling r' = working (pool r').
Proof.
  unfold step. destruct who as [|i].
  - destruct (pc r) as [[|u todo]| |]; try done.
    + by intros [= <-].
    + intros [= <-]. simpl. rewrite working_app. simpl. lia.
    + destruct (scaling r =? 0)%Z; [|done]. by intros [= <-].
  - destruct (pool r !! i) as [[u []]|] eqn:Hi; try done; intros [= <-] H; simpl;
      rewrite (working_insert _ _ _ _ Hi); simpl; lia.
Qed.

Lemma exec_scaling (schedule : list thread) (r r' : run) :
  exec r schedule = Some r' → scaling r = working (pool r) → scaling r' = working (pool r').
Proof.
  revert r. induction schedule as [|who rest IH]; intros r; simpl.
  - by intros [= <-].
  - destruct (step r who) as [r1|] eqn:Hstep; [|done]. simpl. intros H Hr.
    apply (IH r1 H). by eapply step_scaling.
Qed.

Lemma wait_passes_when_idle (us : list unit_of_work) (schedule : list thread) (r r' : run) :
  exec (start_run us) schedule = Some r →
  pc r = AtWait → step r Caller = Some r' →
  pc r' = HasReturned ∧ ∀ g, g ∈ pool r' → g.2 = Launched ∨ g.2 = Finished.
Proof.
  intros Hexec Hpc. apply exec_scaling in Hexec; [|done].
  unfold step. rewrite Hpc. destruct (scaling r =? 0)%Z eqn:E; [|done].
  intros [= <-]. simpl. split; [done|]. apply working_zero.
  apply Z.eqb_eq in E. congruence.
Qed.

(** * Further properties of the code *)

(** ** statusToState *)

Lemma prefix_append (sub s : string) :
  String.prefix sub s = true ↔ ∃ post, s = String.append sub post.
Proof.
  revert s. induction sub as [|a sub IH]; intros s.
  - destruct s; simpl; (split; [intros _; eexists; reflexivity | done]).
  - destruct s as [|b s]; simpl.
    + split; [done | intros [post H]; done].
    + destruct (ascii_dec a b) as [<-|Hne].
      * rewrite IH. split; intros [post H]; exists post.
        -- simpl. by rewrite H.
        -- simpl in H. by injection H.
      * split; [done | intros [post H]]. simpl in H. injection H as H1 H2. done.
Qed.

Lemma Contains_occurs (s substr : string) : Contains s substr = true ↔ occurs substr s.
Proof.
  unfold occurs. induction s as [|a s IH]; cbn [Contains].
  - rewrite orb_false_r, prefix_append. split.
    + intros [post H]. by exists "", post.
    + intros ([|b pre] & post & H); [by exists post | done].
  - rewrite orb_true_iff, prefix_append, IH. split.
    + intros [[post H]|(pre & post & H)].
      * by exists "", post.
      * exists (String a pre), post. simpl. by rewrite H.
    + intros ([|b pre] & post & H).
      * left. by exists post.
      * right. exists pre, post. simpl in H. by injection H.
Qed.

(** X1.  [statusToState] reads a status by the first of "Up", "Removal",
    "Exit" and "Dead" that occurs somewhere in it, in that order of
    precedence, and as "unknown" when none does; it writes a line to the log
    exactly in that last case. *)
Theorem statusToState_classifies (status : string) :
  ((statusToState status).1 = "running" ↔ occurs "Up" status) ∧
  ((statusToState status).1 = "removing" ↔
     ¬ occurs "Up" status ∧ occurs "Removal" status) ∧
  ((statusToState status).1 = "exited" ↔
     ¬ occurs "Up" status ∧ ¬ occurs "Removal" status ∧ occurs "Exit" status) ∧
  ((statusToState status).1 = "dead" ↔
     ¬ occurs "Up" status ∧ ¬ occurs "Removal" status ∧ ¬ occurs "Exit" status ∧
     occurs "Dead" status) ∧
  ((statusToState status).1 = "unknown" ↔
     ¬ occurs "Up" status ∧ ¬ occurs "Removal" status ∧ ¬ occurs "Exit" status ∧
     ¬ occurs "Dead" status) ∧
  (statusToState status).2 =
    (if String.eqb (statusToState status).1 "unknown" then [LogUnexpectedStatus status] else []).
Proof.
  pose proof (Contains_occurs status "Up") as HU.
  pose proof (Contains_occurs status "Removal") as HR.
  pose proof (Contains_occurs status "Exit") as HE.
  pose proof (Contains_occurs status "Dead") as HD.
  unfold statusToState.
  destruct (Contains status "Up");
    [|destruct (Contains status "Removal");
      [|destruct (Contains status "Exit"); [|destruct (Contains status "Dead")]]];
    simpl; repeat split; try done; try (intros; intuition congruence).
Qed.

(** ** StopStartTasks *)

Lemma StopStartTasks_two_phase (P Q : pass_state → Prop) (c : DockerScheduler) (ts : list Task) :
  P (mkPass c ts None [] []) →
  (∀ p s, P s → P (stop_iter p s)) →
  (∀ s, P s → Q s) →
  (∀ p s, Q s → Q (start_iter p s)) →
  Q (StopStartTasks c ts).
Proof.
  intros H0 Hstop HPQ Hstart. rewrite StopStartTasks_unfold.
  assert (∀ (R : pass_state → Prop) (f : pass_state → pass_state) n s,
            (∀ s0, R s0 → R (f s0)) → R s → R (Nat.iter n f s)) as Hiter.
  { intros R f n s Hf Hs. induction n as [|n IH]; simpl; auto. }
  assert (∀ (R : pass_state → Prop) (g : pass_state → ptr → pass_state) l s,
            (∀ s0 q, R s0 → R (g s0 q)) → R s → R (fold_left g l s)) as Hfold.
  { intros R g l. induction l as [|q l IH]; intros s Hg Hs; simpl; auto. }
  apply Hfold.
  - intros s0 q Hs0. unfold scale_up. destruct (tasks s0 !! q); [|done].
    apply Hiter; [apply Hstart | done].
  - apply HPQ, Hfold; [|done].
    intros s0 q Hs0. unfold scale_down. destruct (tasks s0 !! q); [|done].
    apply Hiter; [apply Hstop | done].
Qed.

Lemma StopStartTasks_invariant (P : pass_state → Prop) (c : DockerScheduler) (ts : list Task) :
  P (mkPass c ts None [] []) →
  (∀ p s, P s → P (stop_iter p s)) →
  (∀ p s, P s → P (start_iter p s)) →
  P (StopStartTasks c ts).
Proof. intros H0 Hstop Hstart. by apply (StopStartTasks_two_phase P P). Qed.

(** What one call of [stopTask] does, case by case. *)
Lemma stopTask_cases (c : DockerScheduler) (task : Task) :
  stopTask c task = (c, None, Some (ErrNoContainers (Name task))) ∨
  ∃ id v, record c (Name task) id = Some v ∧ state v = "running" ∧
    ((id ≠ "" ∧
      stopTask c task = (put_record c (Name task) id (setState v "stopping"),
                         Some (StopUnit (Name task) id), None)) ∨
     (id = "" ∧
      stopTask c task = (put_record c (Name task) id (setState v "stopping"),
                         None, Some (ErrNoContainers (Name task))))).
Proof.
  unfold stopTask. destruct (taskContainers c !! Name task) as [m|] eqn:Hm; [|by left].
  assert (∀ entries, (∀ id v, (id, v) ∈ entries → m !! id = Some v) →
            stopTask_scan entries m = ("", m) ∨
            ∃ id v, m !! id = Some v ∧ state v = "running" ∧
                    stopTask_scan entries m = (id, <[id := setState v "stopping"]> m))
    as Hscan.
  { induction entries as [|[id v] rest IH]; intros Hent; simpl; [by left|].
    destruct (String.eqb_spec (state v) "running") as [Hrun|Hrun].
    - right. exists id, v. split; [apply Hent; left | done].
    - apply IH. intros id' v' Hin. apply Hent. by right. }
  destruct (Hscan (rangeOrder m)) as [Heq|(id & v & Hid & Hrun & Heq)].
  { intros id v Hin. by apply rangeOrder_elem. }
  - left. rewrite Heq. simpl. rewrite insert_id by done. by rewrite setContainers_id.
  - right. exists id, v. rewrite Heq.
    split; [apply record_Some; eauto|]. split; [done|].
    unfold put_record. rewrite Hm. simpl.
    destruct (String.eqb_spec id "") as [->|Hne]; [right | left]; done.
Qed.

Lemma stop_iter_tasks_fmap {A} (f : Task → A) (p : ptr) (s : pass_state) :
  (∀ t n, f (setRequested t n) = f t) → f <$> tasks (stop_iter p s) = f <$> tasks s.
Proof.
  intros Hf. unfold stop_iter. destruct (tasks s !! p) as [task|] eqn:Hp; [|done].
  destruct (stopTask (sched s) task) as [[c' u] e]. simpl.
  rewrite list_fmap_insert, Hf. apply list_insert_id. by rewrite list_lookup_fmap, Hp.
Qed.

Lemma start_iter_tasks_fmap {A} (f : Task → A) (p : ptr) (s : pass_state) :
  (∀ t n, f (setRequested t n) = f t) → f <$> tasks (start_iter p s) = f <$> tasks s.
Proof.
  intros Hf. unfold start_iter. destruct (tasks s !! p) as [task|] eqn:Hp; [|done]. simpl.
  rewrite list_fmap_insert, Hf. apply list_insert_id. by rewrite list_lookup_fmap, Hp.
Qed.

Lemma StopStartTasks_tasks_fmap {A} (f : Task → A) (c : DockerScheduler) (ts : list Task) :
  (∀ t n, f (setRequested t n) = f t) → f <$> tasks (StopStartTasks c ts) = f <$> ts.
Proof.
  intros Hf. apply (StopStartTasks_invariant (λ s, f <$> tasks s = f <$> ts)); [done| |].
  - intros p s Hs. by rewrite stop_iter_tasks_fmap.
  - intros p s Hs. by rewrite start_iter_tasks_fmap.
Qed.

(** X2.  A pass of [StopStartTasks] writes to no field of a task but
    [Requested]: the collection keeps its length, every task its name, its
    image, its command, its demand and its running count; and a task the
    first loop put into neither list is left as it was altogether. *)
Theorem StopStartTasks_writes_only_Requested (c : DockerScheduler) (ts : list Task) (p : ptr) :
  length (tasks (StopStartTasks c ts)) = length ts ∧
  Name <$> tasks (StopStartTasks c ts) !! p = Name <$> ts !! p ∧
  Image <$> tasks (StopStartTasks c ts) !! p = Image <$> ts !! p ∧
  Command <$> tasks (StopStartTasks c ts) !! p = Command <$> ts !! p ∧
  Demand <$> tasks (StopStartTasks c ts) !! p = Demand <$> ts !! p ∧
  Running <$> tasks (StopStartTasks c ts) !! p = Running <$> ts !! p ∧
  (p ∉ tooMany_of ts → p ∉ tooFew_of ts → tasks (StopStartTasks c ts) !! p = ts !! p).
Proof.
  split.
  { rewrite <- (length_fmap Name), StopStartTasks_tasks_fmap by done. apply length_fmap. }
  rewrite <- !list_lookup_fmap, !StopStartTasks_tasks_fmap by done.
  repeat (split; [done|]).
  intros Hm Hf. rewrite StopStartTasks_unfold.
  destruct (fold_same_at scale_up p (tooFew_of ts)
              (fold_left scale_down (tooMany_of ts) (mkPass c ts None [] [])))
    as (Ht & _); [intros s' q; apply scale_up_same_at | done |].
  destruct (fold_same_at scale_down p (tooMany_of ts) (mkPass c ts None [] []))
    as (Ht' & _); [intros s' q; apply scale_down_same_at | done |].
  by rewrite Ht, Ht'.
Qed.

(** X3.  When no task has a demand that differs from its requested count
    while its requested and running counts agree, the pass does nothing: it
    calls neither [stopTask] nor [startTask], launches nothing, returns no
    error and leaves the tasks and the store as they were. *)
Theorem StopStartTasks_nothing_to_do (c : DockerScheduler) (ts : list Task) :
  (∀ t, t ∈ ts → Demand t = Requested t ∨ Requested t ≠ Running t) →
  StopStartTasks c ts = mkPass c ts None [] [].
Proof.
  intros Hall. rewrite StopStartTasks_unfold.
  assert (tooMany_of ts = []) as ->.
  { apply elem_of_nil_inv. intros p Hin.
    apply elem_of_tooMany_of in Hin as (t & Hp & Ht). apply isTooMany_spec in Ht as [H1 H2].
    apply list_elem_of_lookup_2 in Hp. destruct (Hall t Hp) as [H|H]; [lia | done]. }
  assert (tooFew_of ts = []) as ->.
  { apply elem_of_nil_inv. intros p Hin.
    apply elem_of_tooFew_of in Hin as (t & Hp & Ht). apply isTooFew_spec in Ht as [H1 H2].
    apply list_elem_of_lookup_2 in Hp. destruct (Hall t Hp) as [H|H]; [lia | done]. }
  done.
Qed.

Lemma stop_iter_cases (p : ptr) (s : pass_state) :
  stop_iter p s = s ∨
  ∃ task c' u e,
    tasks s !! p = Some task ∧ stopTask (sched s) task = (c', u, e) ∧
    stop_iter p s =
      mkPass c' (<[p := setRequested task (int_sub (Requested task) 1)]> (tasks s))
             e (trace s ++ [EvStop p e]) (units s ++ option_list u).
Proof.
  unfold stop_iter. destruct (tasks s !! p) as [task|]; [|by left].
  destruct (stopTask (sched s) task) as [[c' u] e] eqn:Hstop.
  right. by exists task, c', u, e.
Qed.

Lemma start_iter_cases (p : ptr) (s : pass_state) :
  start_iter p s = s ∨
  ∃ task,
    tasks s !! p = Some task ∧
    start_iter p s =
      mkPass (sched s) (<[p := setRequested task (int_add (Requested task) 1)]> (tasks s))
             (err s) (trace s ++ [EvStart p]) (units s ++ [StartUnit (Name task)]).
Proof.
  unfold start_iter. destruct (tasks s !! p) as [task|]; [|by left].
  right. by exists task.
Qed.

(** X4.  A pass scales down before it scales up: in the order of its calls
    every [stopTask] comes before every [startTask], and so do the stop
    units before the start units among the goroutines it launches. *)
Theorem StopStartTasks_stops_before_starts (c : DockerScheduler) (ts : list Task) :
  (∃ downs ups,
     trace (StopStartTasks c ts) = downs ++ ups ∧
     Forall (λ e, is_stop e = true) downs ∧ Forall (λ e, is_start e = true) ups) ∧
  (∃ downs ups,
     units (StopStartTasks c ts) = downs ++ ups ∧
     Forall (λ u, ∃ n i, u = StopUnit n i) downs ∧ Forall (λ u, ∃ n, u = StartUnit n) ups).
Proof.
  apply (StopStartTasks_two_phase
    (λ s, Forall (λ e, is_stop e = true) (trace s) ∧
          Forall (λ u, ∃ n i, u = StopUnit n i) (units s))).
  - done.
  - intros p s [Ht Hu].
    destruct (stop_iter_cases p s) as [->|(task & c' & u & e & _ & Hstop & ->)]; [done|].
    simpl. split.
    + apply Forall_app. split; [done|]. by apply Forall_singleton.
    + apply Forall_app. split; [done|].
      destruct (stopTask_cases (sched s) task) as [H|(id & v & _ & _ & [[_ H]|[_ H]])];
        rewrite H in Hstop; injection Hstop as <- <- <-; simpl; [done| |done].
      apply Forall_singleton. eauto.
  - intros s [Ht Hu]. split.
    + exists (trace s), []. by rewrite app_nil_r.
    + exists (units s), []. by rewrite app_nil_r.
  - intros p s [(d & u & Ht & Hd & Hu) (d' & u' & Ht' & Hd' & Hu')].
    destruct (start_iter_cases p s) as [->|(task & _ & ->)]; [by eauto 10|].
    simpl. split.
    + exists d, (u ++ [EvStart p]). rewrite Ht, app_assoc. split; [done|]. split; [done|].
      apply Forall_app. split; [done|]. by apply Forall_singleton.
    + exists d', (u' ++ [StartUnit (Name task)]). rewrite Ht', app_assoc.
      split; [done|]. split; [done|].
      apply Forall_app. split; [done|]. apply Forall_singleton. eauto.
Qed.

(** X5.  A pass launches one goroutine for every call of [startTask] and
    for every call of [stopTask] that returned no error, and none for a
    call of [stopTask] that failed. *)
Theorem StopStartTasks_launches (c : DockerScheduler) (ts : list Task) :
  length (units (StopStartTasks c ts)) =
  length (List.filter launches (trace (StopStartTasks c ts))).
Proof.
  apply (StopStartTasks_invariant
    (λ s, length (units s) = length (List.filter launches (trace s)))).
  - done.
  - intros p s Hs.
    destruct (stop_iter_cases p s) as [->|(task & c' & u & e & _ & Hstop & ->)]; [done|].
    simpl. rewrite List.filter_app, !length_app, Hs.
    destruct (stopTask_cases (sched s) task) as [H|(id & v & _ & _ & [[_ H]|[_ H]])];
      rewrite H in Hstop; injection Hstop as <- <- <-; done.
  - intros p s Hs.
    destruct (start_iter_cases p s) as [->|(task & _ & ->)]; [done|].
    simpl. by rewrite List.filter_app, !length_app, Hs.
Qed.

Lemma stop_targets_app (us us' : list unit_of_work) :
  stop_targets (us ++ us') = stop_targets us ++ stop_targets us'.
Proof. apply omap_app. Qed.

Lemma start_created_put (taskName containerID : string) (c c' : DockerScheduler) :
  start_created taskName containerID c = Returns c' →
  (12 ≤ String.length containerID)%nat ∧
  c' = put_record c taskName (substring 0 12 containerID) (mkContainer "created" false).
Proof.
  unfold start_created, put_record.
  destruct (String.length containerID <? 12)%nat eqn:Hlen; [done|].
  apply Nat.ltb_ge in Hlen.
  destruct (taskContainers c !! taskName) as [m|]; [|done]. by intros [= <-].
Qed.

Lemma set_record_state_put (taskName id st : string) (c c' : DockerScheduler) :
  set_record_state taskName id st c = Returns c' →
  ∃ cc, record c taskName id = Some cc ∧ c' = put_record c taskName id (setState cc st).
Proof.
  unfold set_record_state. destruct (record c taskName id) as [cc|]; [|done].
  intros [= <-]. eauto.
Qed.

(** The pass with no goroutine writing beside it is the pass of the caller's
    loops. *)
Lemma StopStartTasks_among_none (c : DockerScheduler) (ts : list Task) :
  StopStartTasks_among (λ _, []) c ts = Returns (StopStartTasks c ts).
Proof.
  assert (∀ s, let_others (λ _, []) s = Returns s) as Hlet by (by intros []).
  assert (∀ iter n s, Nat.iter n (iter_among (λ _, []) iter) (Returns s) =
                      Returns (Nat.iter n iter s)) as Hiter.
  { intros iter n s. induction n as [|n IH]; [done|]. rewrite !Nat.iter_succ, IH.
    unfold iter_among. cbn [bind_outcome]. by rewrite Hlet. }
  assert (∀ s p, scale_down_among (λ _, []) (Returns s) p = Returns (scale_down s p)) as Hdown.
  { intros s p. unfold scale_down_among, scale_down. simpl.
    destruct (tasks s !! p); [apply Hiter | done]. }
  assert (∀ s p, scale_up_among (λ _, []) (Returns s) p = Returns (scale_up s p)) as Hup.
  { intros s p. unfold scale_up_among, scale_up. simpl.
    destruct (tasks s !! p); [apply Hiter | done]. }
  unfold StopStartTasks_among, StopStartTasks.
  destruct (partition_loop 0 ts [] []) as [tooMany tooFew].
  assert (∀ l s, fold_left (scale_down_among (λ _, [])) l (Returns s) =
                 Returns (fold_left scale_down l s)) as Hfd.
  { induction l as [|p l IH]; intros s; [done|]. cbn [fold_left]. by rewrite Hdown, IH. }
  assert (∀ l s, fold_left (scale_up_among (λ _, [])) l (Returns s) =
                 Returns (fold_left scale_up l s)) as Hfu.
  { induction l as [|p l IH]; intros s; [done|]. cbn [fold_left]. by rewrite Hup, IH. }
  rewrite Hfd, Hfu. simpl. apply Hlet.
Qed.

(** What holds before the pass and is kept by every call of the caller and
    by every write of a goroutine holds when the pass returns. *)
Lemma StopStartTasks_among_invariant (P : pass_state → Prop) (others : nat → list unit_write)
    (c : DockerScheduler) (ts : list Task) (s : pass_state) :
  P (mkPass c ts None [] []) →
  (∀ p s, P s → P (stop_iter p s)) →
  (∀ p s, P s → P (start_iter p s)) →
  (∀ s wr c', P s → apply_write wr (sched s) = Returns c' → P (setSched s c')) →
  StopStartTasks_among others c ts = Returns s → P s.
Proof.
  intros H0 Hstop Hstart Hwrite.
  set (Q := λ os : outcome pass_state, match os with Returns s => P s | Panics => True end).
  assert (∀ s, P s → Q (let_others others s)) as Hlet.
  { intros s0 Hs0. unfold let_others. generalize (others (length (trace s0))). intros wrs.
    assert (∀ c0, P (setSched s0 c0) →
              Q (bind_outcome (apply_writes wrs c0) (λ c1, Returns (setSched s0 c1)))) as Hw.
    { induction wrs as [|wr wrs IH]; intros c0 Hc0; [done|]. simpl.
      destruct (apply_write wr c0) as [c1|] eqn:Hwr; [|done]. simpl. apply IH.
      by apply (Hwrite (setSched s0 c0) wr c1). }
    apply Hw. by destruct s0. }
  assert (∀ iter, (∀ s, P s → P (iter s)) → ∀ os, Q os → Q (iter_among others iter os))
    as Hamong.
  { intros iter Hiter [s0|] Hos; [|done]. unfold iter_among. simpl.
    specialize (Hlet s0 Hos). destruct (let_others others s0) as [s1|]; [|done].
    simpl. by apply Hiter. }
  assert (∀ iter, (∀ s, P s → P (iter s)) →
            ∀ n os, Q os → Q (Nat.iter n (iter_among others iter) os)) as Hiter.
  { intros iter Hi n os Hos. induction n as [|n IH]; [done|]. simpl. by apply Hamong. }
  assert (∀ os p, Q os → Q (scale_down_among others os p)) as Hdown.
  { intros [s0|] p Hos; [|done]. unfold scale_down_among. simpl.
    destruct (tasks s0 !! p); [|done]. apply Hiter; [apply Hstop | done]. }
  assert (∀ os p, Q os → Q (scale_up_among others os p)) as Hup.
  { intros [s0|] p Hos; [|done]. unfold scale_up_among. simpl.
    destruct (tasks s0 !! p); [|done]. apply Hiter; [apply Hstart | done]. }
  assert (∀ l os, Q os → Q (fold_left (scale_down_among others) l os)) as Hfd.
  { induction l as [|p l IH]; intros os Hos; [done|]. cbn [fold_left]. by apply IH, Hdown. }
  assert (∀ l os, Q os → Q (fold_left (scale_up_among others) l os)) as Hfu.
  { induction l as [|p l IH]; intros os Hos; [done|]. cbn [fold_left]. by apply IH, Hup. }
  unfold StopStartTasks_among. destruct (partition_loop 0 ts [] []) as [tooMany tooFew].
  intros Hret.
  pose proof (Hfu tooFew _ (Hfd tooMany (Returns (mkPass c ts None [] [])) H0)) as Hend.
  destruct (fold_left (scale_up_among others) tooFew _) as [s1|]; [|done].
  simpl in Hret. specialize (Hlet s1 Hend). by rewrite Hret in Hlet.
Qed.

Lemma apply_write_put (wr : unit_write) (c c' : DockerScheduler) :
  apply_write wr c = Returns c' →
  ∃ n i cc, c' = put_record c n i cc ∧
            (state cc = "created" ∨ state cc = "starting" ∨ state cc = "removing").
Proof.
  destruct wr as [m cid|m id|m id]; simpl; intros Hwr.
  - apply start_created_put in Hwr as [_ ->]. eexists _, _, _. split; [done|]. by left.
  - apply set_record_state_put in Hwr as (cc & _ & ->). eexists _, _, _.
    split; [done|]. right. by left.
  - apply set_record_state_put in Hwr as (cc & _ & ->). eexists _, _, _.
    split; [done|]. right. by right.
Qed.

(** X6.  A pass of [StopStartTasks], with the goroutines writing beside it
    until it returns, deletes no record: when it returns every record is
    what it was before the pass, or was "running" and is "stopping", or has
    been written by a goroutine as "created", "starting" or "removing".
    The stop units the pass launches are for pairwise different containers,
    each of them on record as "running" before the pass and no longer
    "running" when it returns: marked "stopping" by stopTask, or written
    since by a goroutine. *)
Theorem StopStartTasks_marks_what_it_stops (others : nat → list unit_write)
    (c : DockerScheduler) (ts : list Task) (s : pass_state) :
  StopStartTasks_among others c ts = Returns s →
  pullImages (sched s) = pullImages c ∧
  (∀ n i, kept_or_written (record c n i) (record (sched s) n i)) ∧
  (∀ n i, is_Some (record c n i) → is_Some (record (sched s) n i)) ∧
  NoDup (stop_targets (units s)) ∧
  (∀ n i, (n, i) ∈ stop_targets (units s) →
     ∃ cc, record c n i = Some cc ∧ state cc = "running" ∧
       (record (sched s) n i = Some (setState cc "stopping") ∨
        ∃ cc', record (sched s) n i = Some cc' ∧
               (state cc' = "created" ∨ state cc' = "starting" ∨ state cc' = "removing"))).
Proof.
  intros Hret.
  set (written := λ after : option dockerContainer,
         ∃ cc', after = Some cc' ∧
                (state cc' = "created" ∨ state cc' = "starting" ∨ state cc' = "removing")).
  assert (∀ after cc', written after → after = Some cc' → state cc' ≠ "running") as Hnotrun.
  { intros after cc' (x & -> & Hx) [= <-] Hrun. rewrite Hrun in Hx.
    destruct Hx as [?|[?|?]]; done. }
  set (P := λ s : pass_state,
         pullImages (sched s) = pullImages c ∧
         (∀ n i, kept_or_written (record c n i) (record (sched s) n i)) ∧
         NoDup (stop_targets (units s)) ∧
         (∀ n i, (n, i) ∈ stop_targets (units s) →
            ∃ cc, record c n i = Some cc ∧ state cc = "running" ∧
              (record (sched s) n i = Some (setState cc "stopping") ∨
               written (record (sched s) n i)))).
  assert (P s) as (Hpull & Hrec & Hnd & Htg).
  { apply (StopStartTasks_among_invariant P others c ts s); [| | | |exact Hret];
      clear s Hret; unfold P.
    - split; [done|]. split; [by left; left|]. split; [apply NoDup_nil_2|].
      intros n i H. by apply elem_of_nil in H.
    - intros p s (Hpull & Hrec & Hnd & Htg).
      destruct (stop_iter_cases p s) as [->|(task & c' & u & e & _ & Hstop & ->)]; [done|].
      simpl.
      destruct (stopTask_cases (sched s) task) as [H|(id & v & Hv & Hrun & Hcase)].
      { rewrite H in Hstop. injection Hstop as <- <- <-. simpl. by rewrite app_nil_r. }
      assert (record c (Name task) id = Some v) as Hc.
      { destruct (Hrec (Name task) id) as [[Heq|(cc & _ & _ & Heq)]|Hw]; [congruence| |].
        - rewrite Hv in Heq. injection Heq as ->. done.
        - by destruct (Hnotrun _ _ Hw Hv). }
      assert ((Name task, id) ∉ stop_targets (units s)) as Hfresh.
      { intros Hin. destruct (Htg _ _ Hin) as (cc & _ & _ & [Heq|Hw]).
        - rewrite Hv in Heq. injection Heq as ->. done.
        - by destruct (Hnotrun _ _ Hw Hv). }
      assert (c' = put_record (sched s) (Name task) id (setState v "stopping")) as ->
        by (destruct Hcase as [[_ H]|[_ H]]; rewrite H in Hstop; by injection Hstop).
      assert (∀ n i, kept_or_written (record c n i)
                (record (put_record (sched s) (Name task) id (setState v "stopping")) n i))
        as Hrec'.
      { intros n i. rewrite record_put_record. case_decide as Hk; [|apply Hrec].
        destruct Hk as [<- <-]. left. right. by exists v. }
      assert (∀ n i, (n, i) ∈ stop_targets (units s) →
                ∃ cc, record c n i = Some cc ∧ state cc = "running" ∧
                  (record (put_record (sched s) (Name task) id (setState v "stopping")) n i
                   = Some (setState cc "stopping") ∨
                   written (record (put_record (sched s) (Name task) id
                                      (setState v "stopping")) n i))) as Htg'.
      { intros n i Hin. rewrite record_put_record. rewrite decide_False; [by apply Htg|].
        intros [<- <-]. done. }
      split; [done|]. split; [done|].
      destruct Hcase as [[_ H]|[_ H]]; rewrite H in Hstop; injection Hstop as <- <-;
        rewrite stop_targets_app; simpl.
      + split.
        * apply NoDup_app. split; [done|]. split; [|apply NoDup_singleton].
          intros k Hk Hk'. apply list_elem_of_singleton in Hk' as ->. done.
        * intros n i Hin. apply elem_of_app in Hin as [Hin|Hin]; [by apply Htg'|].
          apply list_elem_of_singleton in Hin. injection Hin as -> ->.
          exists v. split; [done|]. split; [done|]. left.
          rewrite record_put_record. by rewrite decide_True.
      + rewrite app_nil_r. done.
    - intros p s (Hpull & Hrec & Hnd & Htg).
      destruct (start_iter_cases p s) as [->|(task & _ & ->)]; [done|].
      simpl. rewrite stop_targets_app. simpl. by rewrite app_nil_r.
    - intros s wr c' (Hpull & Hrec & Hnd & Htg) Hwr.
      apply apply_write_put in Hwr as (m & j & x & -> & Hx). simpl.
      split; [done|]. split; [|split; [done|]].
      + intros n i. rewrite record_put_record. case_decide; [|apply Hrec].
        right. by exists x.
      + intros n i Hin. destruct (Htg n i Hin) as (cc & Hc & Hrun & Hafter).
        exists cc. split; [done|]. split; [done|].
        rewrite record_put_record. case_decide; [|done]. right. by exists x. }
  split; [done|]. split; [done|]. split; [|done].
  intros n i [cc Hcc].
  destruct (Hrec n i) as [[Heq|(x & _ & _ & Heq)]|(x & Heq & _)]; rewrite Heq; by eauto.
Qed.

(** X7.  What [StopStartTasks] returns is what its last call of
    [stopTask] returned, and nothing when it made no such call; an error it
    returns is the one of [stopTask], for the name of a task of the
    collection. *)
Theorem StopStartTasks_returns_last_stop_result (c : DockerScheduler) (ts : list Task) :
  let s := StopStartTasks c ts in
  err s = last_stop_result (trace s) ∧
  (Forall (λ e, is_stop e = false) (trace s) → err s = None) ∧
  (err s = None ∨ ∃ t, t ∈ ts ∧ err s = Some (ErrNoContainers (Name t))).
Proof.
  simpl. split; [apply StopStartTasks_err|]. split.
  - rewrite StopStartTasks_err. generalize (trace (StopStartTasks c ts)). intros tr.
    induction tr as [|e tr IH] using rev_ind; intros Hall; [done|].
    apply Forall_app in Hall as [Hall He]. rewrite Forall_singleton in He.
    rewrite last_stop_result_snoc. destruct e; [done | by apply IH].
  - assert (Name <$> tasks (StopStartTasks c ts) = Name <$> ts ∧
            (err (StopStartTasks c ts) = None ∨
             ∃ n, n ∈ Name <$> ts ∧ err (StopStartTasks c ts) = Some (ErrNoContainers n)))
      as [_ [H|(n & Hn & H)]].
    { apply (StopStartTasks_invariant
        (λ s, Name <$> tasks s = Name <$> ts ∧
              (err s = None ∨ ∃ n, n ∈ Name <$> ts ∧ err s = Some (ErrNoContainers n)))).
      - split; [done | by left].
      - intros p s [Hn He]. split; [by rewrite stop_iter_tasks_fmap|].
        destruct (stop_iter_cases p s) as [->|(task & c' & u & e & Hp & Hstop & ->)]; [done|].
        simpl.
        assert (Name task ∈ Name <$> ts) as Hin.
        { rewrite <- Hn. apply list_elem_of_fmap. exists task. split; [done|].
          by eapply list_elem_of_lookup_2. }
        destruct (stopTask_cases (sched s) task) as [H|(id & v & _ & _ & [[_ H]|[_ H]])];
          rewrite H in Hstop; injection Hstop as <- <- <-; [right | by left | right]; eauto.
      - intros p s [Hn He]. split; [by rewrite start_iter_tasks_fmap|].
        destruct (start_iter_cases p s) as [->|(task & _ & ->)]; done. }
    + by left.
    + right. apply list_elem_of_fmap in Hn as (t & -> & Ht). eauto.
Qed.

(** ** CountAllTasks: the counts *)

Lemma wrap_wrap_add (a b : Z) : wrap (wrap a + b) = wrap (a + b).
Proof.
  unfold wrap. f_equal.
  replace ((a + 2 ^ 63) mod 2 ^ 64 - 2 ^ 63 + b + 2 ^ 63)%Z
    with ((a + 2 ^ 63) mod 2 ^ 64 + b)%Z by lia.
  rewrite Zplus_mod_idemp_l. f_equal. lia.
Qed.

Lemma setRunning_same (t : Task) : setRunning t (Running t) = t.
Proof. by destruct t. Qed.

Lemma counted_names (ts ts' : list Task) (p : ptr) (ct : APIContainers) :
  Name <$> ts = Name <$> ts' → counted ts p ct = counted ts' p ct.
Proof.
  intros Heq. unfold counted, GetTask.
  destruct (Labels ct !! labelMap) as [n|]; [|done].
  by rewrite (GetTask_from_names ts ts' 0 n Heq).
Qed.

Lemma observe_all_tasks_eq (cs : list APIContainers) (w w' : world) :
  observe_all w cs = Returns w' → w_tasks w' = fold_left bump cs (w_tasks w).
Proof.
  revert w. induction cs as [|ct cs IH]; intros w; simpl.
  - by intros [= <-].
  - destruct (observe w ct) as [wa|] eqn:Hobs; [|done]. simpl. intros H.
    apply IH in H. by apply observe_step in Hobs as [_ ->].
Qed.

Lemma fold_bump_Running (cs : list APIContainers) (ts : list Task) (p : ptr) (t : Task)
    (k : Z) :
  ts !! p = Some t → Running t = wrap k →
  fold_left bump cs ts !! p =
  Some (setRunning t (wrap (k + Z.of_nat (length (List.filter (counted ts p) cs))))).
Proof.
  revert ts t k. induction cs as [|ct cs IH]; intros ts t k Hp Hk.
  - simpl. by rewrite Z.add_0_r, <- Hk, setRunning_same.
  - cbn [fold_left List.filter].
    assert (∀ cs', List.filter (counted (bump ts ct) p) cs' = List.filter (counted ts p) cs')
      as Hfilter.
    { intros cs'. apply List.filter_ext. intros ct'. apply counted_names, bump_names. }
    destruct (counted ts p ct) eqn:Hc.
    + assert (bump ts ct !! p = Some (setRunning t (wrap (k + 1)))) as Hp'.
      { unfold counted in Hc. unfold bump.
        destruct (Labels ct !! labelMap) as [n|]; [|done].
        destruct (GetTask ts n) as [q|]; [|done].
        apply andb_true_iff in Hc as [Hq ->]. apply Nat.eqb_eq in Hq as <-.
        rewrite Hp. rewrite list_lookup_insert_eq by (by eapply lookup_lt_Some).
        unfold int_add. by rewrite Hk, wrap_wrap_add. }
      rewrite (IH _ _ (k + 1)%Z Hp' eq_refl), Hfilter. simpl.
      do 3 f_equal. lia.
    + assert (bump ts ct !! p = Some t) as Hp'.
      { unfold counted in Hc. unfold bump.
        destruct (Labels ct !! labelMap) as [n|]; [|done].
        destruct (GetTask ts n) as [q|]; [|done].
        destruct (String.eqb (newState_of ct) "running"); [|done].
        rewrite andb_true_r in Hc. apply Nat.eqb_neq in Hc.
        destruct (ts !! q); [|done]. by rewrite list_lookup_insert_ne. }
      by rewrite (IH _ _ k Hp' Hk), Hfilter.
Qed.

(** X8.  After a pass of [CountAllTasks] the running count of a task is the
    number of listed containers whose label names it (by [GetTask]) and
    whose status reads as "running", as a Go int; every other field of the
    task is as it was. *)
Theorem CountAllTasks_counts_running (cs : list APIContainers) (w w' : world)
    (e : option error) (p : ptr) (t : Task) :
  CountAllTasks (inr cs) w = Returns (w', e) →
  w_tasks w !! p = Some t →
  w_tasks w' !! p =
    Some (setRunning t (wrap (Z.of_nat (length (List.filter (counted (w_tasks w) p) cs))))) ∧
  ((Z.of_nat (length cs) <= int_max)%Z →
   Running <$> w_tasks w' !! p =
     Some (Z.of_nat (length (List.filter (counted (w_tasks w) p) cs)))).
Proof.
  unfold CountAllTasks, observed.
  destruct (observe_all (reset w) cs) as [E1|] eqn:Hobs; [|done]. simpl.
  intros [= <- _] Hp.
  assert (w_tasks (sweep E1) !! p =
          Some (setRunning t (wrap (Z.of_nat (length (List.filter (counted (w_tasks w) p) cs))))))
    as Hres.
  { rewrite sweep_tasks, (observe_all_tasks_eq _ _ _ Hobs). simpl.
    assert (List.filter (counted ((λ t0, setRunning t0 0) <$> w_tasks w) p) cs =
            List.filter (counted (w_tasks w) p) cs) as Hf.
    { apply List.filter_ext. intros ct. apply counted_names, reset_names. }
    rewrite (fold_bump_Running cs _ p (setRunning t 0) 0).
    - by rewrite Hf, Z.add_0_l.
    - by rewrite list_lookup_fmap, Hp.
    - done. }
  split; [done|]. intros Hlen. rewrite Hres. simpl. f_equal.
  apply wrap_id. pose proof (List.filter_length_le (counted (w_tasks w) p) cs).
  unfold is_int, int_min, int_max in *. lia.
Qed.

(** ** CountAllTasks: when a pass panics *)

Lemma can_file_ext (ts ts' : list Task) (c c' : DockerScheduler) (ct : APIContainers) :
  Name <$> ts = Name <$> ts' → dom (taskContainers c) = dom (taskContainers c') →
  can_file ts c ct → can_file ts' c' ct.
Proof.
  intros Hn Hd. unfold can_file. rewrite (key_of_names ts ts' ct Hn).
  destruct (key_of ts' ct) as [[n i]|]; [|done].
  intros [Hlen Hs]. split; [done|]. apply elem_of_dom. rewrite <- Hd. by apply elem_of_dom.
Qed.

Lemma observe_all_returns_iff (cs : list APIContainers) (w : world) :
  (∃ w', observe_all w cs = Returns w') ↔ Forall (can_file (w_tasks w) (w_sched w)) cs.
Proof.
  revert w. induction cs as [|ct cs IH]; intros w; simpl.
  - split; [done | by eauto].
  - rewrite Forall_cons. split.
    + intros [w' H]. destruct (observe w ct) as [wa|] eqn:Hobs; [|done]. simpl in H.
      apply observe_step in Hobs as [Hcan ->]. split; [done|].
      assert (Forall (can_file (bump (w_tasks w) ct)
                (store_after_round (w_tasks w) (w_sched w) ct)) cs) as Hall
        by (apply (proj1 (IH (mkWorld (store_after_round (w_tasks w) (w_sched w) ct)
                                      (bump (w_tasks w) ct)
                                      (w_log w ++ lines_of_round (w_tasks w) (w_sched w) ct))));
            eexists; exact H).
      eapply Forall_impl; [exact Hall|]. intros ct'. apply can_file_ext.
      * apply bump_names.
      * by apply store_after_round_dom.
    + intros [Hcan Hall]. destruct (observe_returns w ct Hcan) as [wa Hobs].
      rewrite Hobs. simpl. apply IH.
      apply observe_step in Hobs as [_ ->]. simpl.
      eapply Forall_impl; [exact Hall|]. intros ct'. apply can_file_ext.
      * symmetry. apply bump_names.
      * symmetry. by apply store_after_round_dom.
Qed.

(** X9.  A pass of [CountAllTasks] over a list the runtime returned gets
    through exactly when every listed container whose label names a task of
    the collection has an identifier of 12 characters or more and names a
    task that has a map in the store; otherwise it panics, on the slice of
    the identifier or on the assignment to a nil map. *)
Theorem CountAllTasks_returns_iff (cs : list APIContainers) (w : world) :
  (∃ w', CountAllTasks (inr cs) w = Returns (w', None)) ↔
  (∀ ct n, ct ∈ cs → Labels ct !! labelMap = Some n → is_Some (GetTask (w_tasks w) n) →
     (12 ≤ String.length (ID ct))%nat ∧ is_Some (taskContainers (w_sched w) !! n)).
Proof.
  assert ((∃ w', CountAllTasks (inr cs) w = Returns (w', None)) ↔
          Forall (can_file (w_tasks w) (w_sched w)) cs) as ->.
  { unfold CountAllTasks, observed. split.
    - intros [w' H]. destruct (observe_all (reset w) cs) as [E1|] eqn:Hobs; [|done].
      assert (Forall (can_file (w_tasks (reset w)) (w_sched (reset w))) cs) as Hall
        by (apply observe_all_returns_iff; eauto).
      eapply Forall_impl; [exact Hall|]. intros ct. apply can_file_ext; simpl.
      + apply reset_names.
      + apply reset_flags_dom.
    - intros Hall.
      destruct (proj2 (observe_all_returns_iff cs (reset w))) as [E1 Hobs].
      { eapply Forall_impl; [exact Hall|]. intros ct. apply can_file_ext; simpl.
        - symmetry. apply reset_names.
        - symmetry. apply reset_flags_dom. }
      rewrite Hobs. simpl. eauto. }
  rewrite Forall_forall. unfold can_file, key_of. split.
  - intros H ct n Hin Hl [q Hq]. specialize (H ct Hin). by rewrite Hl, Hq in H.
  - intros H ct Hin. destruct (Labels ct !! labelMap) as [n|] eqn:Hl; [|done].
    destruct (GetTask (w_tasks w) n) as [q|] eqn:Hq; [|done].
    apply (H ct n Hin Hl). by rewrite Hq.
Qed.

(** ** CountAllTasks: containers that are not the scheduler's *)

Lemma observe_all_app (w : world) (l1 l2 : list APIContainers) :
  observe_all w (l1 ++ l2) = bind_outcome (observe_all w l1) (λ w', observe_all w' l2).
Proof.
  revert w. induction l1 as [|ct l1 IH]; intros w; simpl; [done|].
  destruct (observe w ct) as [wa|]; simpl; [apply IH | done].
Qed.

(** The log a pass starts with has no part in what it does to the store and
    to the tasks. *)
Lemma observe_all_any_log (cs : list APIContainers) (w1 w2 w1' : world) :
  w_sched w1 = w_sched w2 → w_tasks w1 = w_tasks w2 →
  observe_all w1 cs = Returns w1' →
  ∃ w2', observe_all w2 cs = Returns w2' ∧
         w_sched w1' = w_sched w2' ∧ w_tasks w1' = w_tasks w2'.
Proof.
  revert w1 w2. induction cs as [|ct cs IH]; intros w1 w2 Hs Ht; simpl.
  - intros [= <-]. by exists w2.
  - destruct (observe w1 ct) as [w1a|] eqn:Hobs1; [|done]. simpl. intros H.
    apply observe_step in Hobs1 as [Hcan ->]. rewrite Hs, Ht in Hcan.
    destruct (observe_returns w2 ct Hcan) as [w2a Hobs2]. rewrite Hobs2. simpl.
    apply observe_step in Hobs2 as [_ ->].
    eapply IH; [| |exact H]; simpl; by rewrite ?Hs, ?Ht.
Qed.

Lemma fold_sweep_task_any_log (ts : list Task) (c : DockerScheduler) (log log' : list log_entry) :
  (fold_left sweep_task ts (c, log)).1 = (fold_left sweep_task ts (c, log')).1.
Proof.
  revert c log log'. induction ts as [|task ts IH]; intros c log log'; cbn [fold_left]; [done|].
  rewrite !sweep_task_eq. apply IH.
Qed.

Lemma sweep_any_log (w1 w2 : world) :
  w_sched w1 = w_sched w2 → w_tasks w1 = w_tasks w2 →
  w_sched (sweep w1) = w_sched (sweep w2) ∧ w_tasks (sweep w1) = w_tasks (sweep w2).
Proof.
  intros Hs Ht. rewrite !sweep_tasks. split; [|done]. unfold sweep.
  pose proof (fold_sweep_task_any_log (w_tasks w1) (w_sched w1) (w_log w1) (w_log w2)) as H.
  rewrite Hs, Ht in *.
  destruct (fold_left sweep_task (w_tasks w2) (w_sched w2, w_log w1)),
           (fold_left sweep_task (w_tasks w2) (w_sched w2, w_log w2)). done.
Qed.

(** X10.  A listed container that does not carry the scheduler's label, or
    whose label names no task of the collection, changes nothing but the
    log: the pass leaves the store and the tasks as the pass over the list
    without that container does. *)
Theorem CountAllTasks_ignores_foreign_container (pre post : list APIContainers)
    (ct : APIContainers) (w w1 : world) (e : option error) :
  (Labels ct !! labelMap = None ∨
   ∃ n, Labels ct !! labelMap = Some n ∧ GetTask (w_tasks w) n = None) →
  CountAllTasks (inr (pre ++ ct :: post)) w = Returns (w1, e) →
  ∃ w2, CountAllTasks (inr (pre ++ post)) w = Returns (w2, None) ∧
        w_sched w2 = w_sched w1 ∧ w_tasks w2 = w_tasks w1.
Proof.
  intros Hforeign. unfold CountAllTasks, observed. rewrite !observe_all_app.
  destruct (observe_all (reset w) pre) as [wp|] eqn:Hpre; [|done]. simpl.
  destruct (observe wp ct) as [wa|] eqn:Hobs; [|done]. simpl.
  destruct (observe_all wa post) as [E1|] eqn:Hpost; [|done]. simpl. intros [= <- _].
  assert (key_of (w_tasks wp) ct = None) as Hkey.
  { pose proof (observe_all_tasks _ _ _ Hpre) as [Hn _]. simpl in Hn.
    rewrite reset_names in Hn. rewrite (key_of_names _ (w_tasks w)) by done.
    unfold key_of. destruct Hforeign as [->|(n & -> & ->)]; done. }
  assert (w_sched wa = w_sched wp ∧ w_tasks wa = w_tasks wp) as [Hs Ht].
  { apply observe_step in Hobs as [_ ->]. simpl.
    unfold store_after_round, bump. rewrite Hkey. split; [done|].
    unfold key_of in Hkey. destruct (Labels ct !! labelMap) as [n|]; [|done].
    by destruct (GetTask (w_tasks wp) n). }
  destruct (observe_all_any_log post wa wp E1 Hs Ht Hpost) as (E2 & Hpost2 & Hs2 & Ht2).
  rewrite Hpost2. simpl. exists (sweep E2). split; [done|].
  destruct (sweep_any_log E1 E2 Hs2 Ht2) as [H1 H2]. by rewrite H1, H2.
Qed.

(** ** CountAllTasks: what a pass leaves is stable *)

Lemma next_state_eq (newState st : string) :
  next_state newState st =
  if String.eqb newState "running"
  then (if String.eqb st "starting" || String.eqb st "" then "running" else st)
  else if String.eqb newState "dead" then "dead" else st.
Proof.
  unfold next_state, applyObserved. simpl.
  destruct (String.eqb_spec newState "running") as [->|Hr].
  { by destruct (String.eqb st "starting" || String.eqb st ""). }
  destruct (String.eqb_spec newState "removing") as [->|Hm]; [done|].
  destruct (String.eqb_spec newState "exited") as [->|He]; [done|].
  by destruct (String.eqb_spec newState "dead") as [->|Hd].
Qed.

Lemma next_state_idem (newState st : string) :
  next_state newState (next_state newState st) = next_state newState st.
Proof.
  rewrite !next_state_eq.
  destruct (String.eqb newState "running"); [|by destruct (String.eqb newState "dead")].
  destruct (String.eqb st "starting" || String.eqb st "") eqn:E; [done|]. by rewrite E.
Qed.

(** The states one kind of report leaves alone are closed under every
    other kind of report. *)
Lemma next_state_closed (ns0 ns x : string) :
  next_state ns0 x = x → next_state ns0 (next_state ns x) = next_state ns x.
Proof.
  rewrite !next_state_eq.
  destruct (String.eqb ns0 "running") eqn:E0.
  - destruct (String.eqb x "starting" || String.eqb x "") eqn:Ex.
    + intros <-. simpl in Ex. done.
    + intros _. destruct (String.eqb ns "running"); [by rewrite Ex|].
      destruct (String.eqb ns "dead"); [done | by rewrite Ex].
  - destruct (String.eqb ns0 "dead"); [|done]. intros <-.
    destruct (String.eqb ns "running"); [done|]. by destruct (String.eqb ns "dead").
Qed.

Lemma observe_all_keeps_stable (cs : list APIContainers) (w w' : world) (n i ns0 : string)
    (r : dockerContainer) :
  observe_all w cs = Returns w' →
  record (w_sched w) n i = Some r → updated r = true →
  next_state ns0 (state r) = state r →
  ∃ r', record (w_sched w') n i = Some r' ∧ updated r' = true ∧
        next_state ns0 (state r') = state r'.
Proof.
  revert w r. induction cs as [|ct cs IH]; intros w r; simpl.
  - intros [= <-]. by eauto.
  - destruct (observe w ct) as [wa|] eqn:Hobs; [|done]. simpl. intros Hall Hrec Hupd Hst.
    apply observe_step in Hobs as [_ ->].
    pose proof (record_store_after_round (w_tasks w) (w_sched w) ct n i) as Hround.
    destruct (decide (key_of (w_tasks w) ct = Some (n, i))) as [Hk|Hk].
    + eapply (IH _ _ Hall); simpl; [exact Hround | done |].
      rewrite Hrec. change (state_of (Some r)) with (state r). by apply next_state_closed.
    + rewrite Hrec in Hround. by eapply (IH _ _ Hall); simpl; [exact Hround | |].
Qed.

(** After the loop over the listed containers every container that was
    filed has a record, marked as seen, in a state that its own report
    leaves alone. *)
Lemma observe_all_stable (cs : list APIContainers) (w w' : world) (ct : APIContainers)
    (n i : string) :
  observe_all w cs = Returns w' → ct ∈ cs → key_of (w_tasks w) ct = Some (n, i) →
  ∃ r, record (w_sched w') n i = Some r ∧ updated r = true ∧
       next_state (newState_of ct) (state r) = state r.
Proof.
  revert w. induction cs as [|ct0 cs IH]; intros w; simpl; [intros _ H; by apply elem_of_nil in H|].
  destruct (observe w ct0) as [wa|] eqn:Hobs; [|done]. simpl. intros Hall Hin Hkey.
  apply observe_step in Hobs as [_ ->].
  apply elem_of_cons in Hin as [->|Hin].
  - eapply (observe_all_keeps_stable _ _ _ _ _ _ _ Hall); simpl.
    + rewrite record_store_after_round. by rewrite decide_True.
    + done.
    + apply next_state_idem.
  - apply (IH _ Hall Hin). simpl. by rewrite (key_of_names _ (w_tasks w)) by apply bump_names.
Qed.

(** The loop over the listed containers, from a store in which each of them
    finds a record in a state its report leaves alone: the loop marks these
    records as seen and does nothing else. *)
Lemma observe_all_on_stable (cs : list APIContainers) (w w' : world) :
  (∀ ct n i, ct ∈ cs → key_of (w_tasks w) ct = Some (n, i) →
     ∃ r, record (w_sched w) n i = Some r ∧
          next_state (newState_of ct) (state r) = state r) →
  observe_all w cs = Returns w' →
  ∀ n i, record (w_sched w') n i =
         if decide ((n, i) ∈ keys (w_tasks w) cs)
         then (λ r, setUpdated r true) <$> record (w_sched w) n i
         else record (w_sched w) n i.
Proof.
  revert w. induction cs as [|ct cs IH]; intros w Hst; simpl.
  - by intros [= <-] n i.
  - destruct (observe w ct) as [wa|] eqn:Hobs; [|done]. simpl. intros Hall n i.
    apply observe_step in Hobs as [_ ->].
    set (ts := w_tasks w) in *. set (c := w_sched w) in *.
    assert (∀ n' i', record (store_after_round ts c ct) n' i' =
              if decide (key_of ts ct = Some (n', i'))
              then (λ r, setUpdated r true) <$> record c n' i' else record c n' i') as Hround.
    { intros n' i'. rewrite record_store_after_round. case_decide as Hk; [|done].
      destruct (Hst ct n' i') as (r & Hr & Hs); [by left | done |].
      rewrite Hr. change (state_of (Some r)) with (state r). by rewrite Hs. }
    rewrite (IH _) with (2 := Hall); simpl.
    + rewrite (keys_names _ ts) by apply bump_names. rewrite !Hround.
      destruct (decide (key_of ts ct = Some (n, i))) as [Hk|Hk].
      * rewrite Hk. rewrite (decide_True (P := (n, i) ∈ (n, i) :: _)) by left.
        case_decide; [|done]. by destruct (record c n i).
      * case_decide as Hin.
        -- rewrite decide_True; [done|]. destruct (key_of ts ct); [by right | done].
        -- rewrite decide_False; [done|]. destruct (key_of ts ct) as [k|] eqn:Hk'; [|done].
           intros [Heq|H']%elem_of_cons; [|done]. subst k. done.
    + intros ct' n' i' Hin Hkey.
      rewrite (key_of_names _ ts) in Hkey by apply bump_names.
      destruct (Hst ct' n' i') as (r & Hr & Hs); [by right | done |].
      rewrite Hround, Hr. case_decide; simpl; eauto.
Qed.

Lemma purge_other (name : string) (c : DockerScheduler) (entry : string * dockerContainer)
    (n i : string) :
  n ≠ name → record (purge name c entry) n i = record c n i.
Proof.
  intros Hn. unfold purge. destruct (doomed entry.2); [|done].
  rewrite record_delete. rewrite decide_False; [done | tauto].
Qed.

Lemma fold_purge_other (name : string) (entries : list (string * dockerContainer))
    (c : DockerScheduler) (n i : string) :
  n ≠ name → record (fold_left (purge name) entries c) n i = record c n i.
Proof.
  intros Hn. revert c. induction entries as [|e entries IH]; intros c; [done|].
  cbn [fold_left]. rewrite IH. by apply purge_other.
Qed.

Lemma fold_sweep_task_other (ts : list Task) (c : DockerScheduler) (log : list log_entry)
    (n i : string) :
  n ∉ Name <$> ts → record (fold_left sweep_task ts (c, log)).1 n i = record c n i.
Proof.
  revert c log. induction ts as [|t ts IH]; intros c log Hn; [done|].
  cbn [fold_left]. rewrite sweep_task_eq. rewrite fmap_cons in Hn.
  apply not_elem_of_cons in Hn as [Hne Hn]. rewrite IH by done. by apply fold_purge_other.
Qed.

(** The last loop of the pass, record by record: it deletes the doomed
    records of the tasks of the collection and keeps every other record. *)
Lemma sweep_record_at (w : world) (n i : string) :
  record (w_sched (sweep w)) n i =
  record (w_sched w) n i ≫= λ cc,
    if decide (n ∈ Name <$> w_tasks w)
    then (if doomed cc then None else Some cc) else Some cc.
Proof.
  destruct (sweep_spec w) as (l & _ & Hrem & _).
  destruct (record (w_sched w) n i) as [cc|] eqn:Hrec; simpl.
  - case_decide as Hn.
    + destruct (doomed cc) eqn:Hd.
      * apply list_elem_of_fmap in Hn as (task & -> & Hin). by eapply sweep_doomed.
      * by eapply remains_keeps.
    + unfold sweep.
      pose proof (fold_sweep_task_other (w_tasks w) (w_sched w) (w_log w) n i Hn) as H.
      destruct (fold_left sweep_task (w_tasks w) (w_sched w, w_log w)) as [c' l']. simpl in *.
      by rewrite H.
  - destruct (Hrem n i) as [H|[H _]]; congruence.
Qed.

Lemma observe_all_pullImages (cs : list APIContainers) (w w' : world) :
  observe_all w cs = Returns w' → pullImages (w_sched w') = pullImages (w_sched w).
Proof.
  revert w. induction cs as [|ct cs IH]; intros w; simpl; [by intros [= <-]|].
  destruct (observe w ct) as [wa|] eqn:Hobs; [|done]. simpl. intros Hall.
  apply observe_step in Hobs as [_ ->]. rewrite (IH _ Hall). simpl.
  unfold store_after_round. by destruct (key_of (w_tasks w) ct) as [[n i]|].
Qed.

Lemma fold_purge_pullImages (name : string) (entries : list (string * dockerContainer))
    (c : DockerScheduler) :
  pullImages (fold_left (purge name) entries c) = pullImages c.
Proof.
  revert c. induction entries as [|e entries IH]; intros c; [done|].
  cbn [fold_left]. rewrite IH. unfold purge. by destruct (doomed e.2).
Qed.

Lemma sweep_pullImages (w : world) : pullImages (w_sched (sweep w)) = pullImages (w_sched w).
Proof.
  unfold sweep.
  assert (∀ ts c log, pullImages (fold_left sweep_task ts (c, log)).1 = pullImages c) as H.
  { induction ts as [|t ts IH]; intros c log; [done|].
    cbn [fold_left]. rewrite sweep_task_eq, IH. apply fold_purge_pullImages. }
  specialize (H (w_tasks w) (w_sched w) (w_log w)).
  by destruct (fold_left sweep_task (w_tasks w) (w_sched w, w_log w)).
Qed.

(** Two schedulers are the same when they agree on the flag, on the task
    names that have an entry and on every record. *)
Lemma sched_ext (c1 c2 : DockerScheduler) :
  pullImages c1 = pullImages c2 →
  dom (taskContainers c1) = dom (taskContainers c2) →
  (∀ n i, record c1 n i = record c2 n i) → c1 = c2.
Proof.
  destruct c1 as [b1 m1], c2 as [b2 m2]. unfold record. simpl. intros -> Hdom Hrec. f_equal.
  apply map_eq. intros n.
  destruct (m1 !! n) as [a1|] eqn:E1, (m2 !! n) as [a2|] eqn:E2; [| | |done].
  - f_equal. apply map_eq. intros i. specialize (Hrec n i). by rewrite E1, E2 in Hrec.
  - apply elem_of_dom_2 in E1. rewrite Hdom in E1. apply elem_of_dom in E1 as [? ?]. congruence.
  - apply elem_of_dom_2 in E2. rewrite <- Hdom in E2. apply elem_of_dom in E2 as [? ?].
    congruence.
Qed.

(** X11. A pass of CountAllTasks that returns leaves a store on which a
    second pass over the same list of containers changes nothing: the second
    pass returns without error, every record (state and flag), every entry
    and every task is as the first pass left it. This holds also when two of
    the listed containers are filed under the same short identifier. *)
Theorem CountAllTasks_settles (cs : list APIContainers) (w w1 : world) (e1 : option error) :
  CountAllTasks (inr cs) w = Returns (w1, e1) →
  ∃ w2, CountAllTasks (inr cs) w1 = Returns (w2, None) ∧
        w_sched w2 = w_sched w1 ∧ w_tasks w2 = w_tasks w1.
Proof.
  unfold CountAllTasks, observed.
  destruct (observe_all (reset w) cs) as [E1|] eqn:Hobs1; [|done]. simpl.
  intros [= <- <-].
  pose proof (observe_all_tasks _ _ _ Hobs1) as [Hnames1 Hreset1].
  pose proof (observe_all_dom _ _ _ Hobs1) as Hdom1.
  simpl in Hnames1, Hreset1, Hdom1. rewrite reset_names in Hnames1.
  rewrite reset_reset in Hreset1. rewrite reset_flags_dom in Hdom1.
  assert (w_tasks (reset w) = w_tasks (reset (sweep E1))) as Ht.
  { simpl. by rewrite sweep_tasks, Hreset1. }
  assert (dom (taskContainers (w_sched (reset w))) =
          dom (taskContainers (w_sched (reset (sweep E1))))) as Hd.
  { simpl. by rewrite !reset_flags_dom, sweep_dom, Hdom1. }
  destruct (observe_all_same_tasks cs _ _ _ Ht Hd Hobs1) as (E2 & Hobs2 & Htasks).
  rewrite Hobs2. simpl. exists (sweep E2). split; [done|].
  split; [|by rewrite !sweep_tasks, Htasks].
  assert (∀ ct n i, ct ∈ cs → key_of (w_tasks (reset w)) ct = Some (n, i) →
            n ∈ Name <$> w_tasks w ∧
            ∃ r, record (w_sched E1) n i = Some r ∧ updated r = true ∧
                 next_state (newState_of ct) (state r) = state r) as Hseen.
  { intros ct n i Hin Hkey. split.
    - apply key_of_task in Hkey. simpl in Hkey. by rewrite reset_names in Hkey.
    - by apply (observe_all_stable _ _ _ _ _ _ Hobs1 Hin Hkey). }
  assert (∀ n i, record (w_sched (reset (sweep E1))) n i =
            record (w_sched E1) n i ≫= λ cc,
              if decide (n ∈ Name <$> w_tasks w)
              then (if doomed cc then None else Some (setUpdated cc false)) else Some cc)
    as Hnext.
  { intros n i. rewrite reset_record, sweep_record_at, sweep_tasks, Hnames1.
    destruct (record (w_sched E1) n i) as [cc|]; [|done]. simpl.
    case_decide; [|done]. by destruct (doomed cc). }
  assert (∀ r, updated r = true → doomed r = false) as Hlive.
  { intros r Hu. unfold doomed. by rewrite Hu. }
  assert (∀ n i, record (w_sched E2) n i =
            if decide ((n, i) ∈ keys (w_tasks (reset w)) cs)
            then (λ r, setUpdated r true) <$> record (w_sched (reset (sweep E1))) n i
            else record (w_sched (reset (sweep E1))) n i) as Hrec2.
  { rewrite Ht. apply (observe_all_on_stable _ _ _) with (2 := Hobs2).
    rewrite <- Ht. intros ct n i Hin Hkey.
    destruct (Hseen ct n i Hin Hkey) as (Hn & r & Hr & Hu & Hs).
    rewrite Hnext, Hr. simpl. rewrite decide_True by done. rewrite (Hlive r Hu).
    eexists. split; [done|]. done. }
  apply sched_ext.
  - rewrite !sweep_pullImages, (observe_all_pullImages _ _ _ Hobs2). simpl.
    by rewrite sweep_pullImages.
  - rewrite !sweep_dom, (observe_all_dom _ _ _ Hobs2). simpl.
    by rewrite reset_flags_dom, sweep_dom.
  - intros n i. rewrite (sweep_record_at E2), Hrec2, Hnext, <- Htasks, Hnames1.
    rewrite (sweep_record_at E1), Hnames1.
    destruct (decide ((n, i) ∈ keys (w_tasks (reset w)) cs)) as [Hk|Hk].
    + apply list_elem_of_omap in Hk as (ct & Hct & Hkey).
      destruct (Hseen ct n i Hct Hkey) as (Hn & r & Hr & Hu & _).
      rewrite Hr. simpl. rewrite !decide_True by done. rewrite (Hlive r Hu). simpl.
      rewrite decide_True by done. destruct r as [st b]. simpl in *. by subst b.
    + rewrite (observe_all_unlisted _ _ _ _ _ Hobs1 Hk), reset_record.
      destruct (record (w_sched w) n i) as [c0|]; [|done]. simpl.
      destruct (decide (n ∈ Name <$> w_tasks w)) as [Hn|Hn]; [|done].
      destruct (doomed (setUpdated c0 false)) eqn:Hdoom; [done|]. simpl.
      assert (setUpdated (setUpdated c0 false) false = setUpdated c0 false) as ->
        by (by destruct c0).
      by rewrite Hdoom.
Qed.

Lemma GetTask_is_Some (ts : list Task) (name : string) :
  is_Some (GetTask ts name) ↔ name ∈ Name <$> ts.
Proof.
  unfold GetTask. generalize 0%nat. induction ts as [|t ts IH]; intros i; simpl.
  - split; [by intros [? ?] | by intros ?%elem_of_nil].
  - rewrite elem_of_cons. destruct (String.eqb_spec (Name t) name) as [->|Hne].
    + split; [by left | by eauto].
    + rewrite IH. split; [by right | by intros [?|?]].
Qed.

(** X12. After a pass of CountAllTasks the flag of a record tells whether
    the runtime listed its container: for a task of the collection, the
    record filed under a short identifier is on the store and marked as seen
    exactly when one of the listed containers carries the task's label and
    that short identifier. In particular every listed container of a task of
    the collection has a record after the pass, whatever its status. *)
Theorem CountAllTasks_seen_iff_listed (cs : list APIContainers) (w w1 : world)
    (e : option error) (n i : string) :
  CountAllTasks (inr cs) w = Returns (w1, e) →
  n ∈ Name <$> w_tasks w →
  (∃ r, record (w_sched w1) n i = Some r ∧ updated r = true) ↔
  (∃ ct, ct ∈ cs ∧ Labels ct !! labelMap = Some n ∧ substring 0 12 (ID ct) = i).
Proof.
  unfold CountAllTasks, observed.
  destruct (observe_all (reset w) cs) as [E1|] eqn:Hobs1; [|done]. simpl.
  intros [= <- <-] Hn.
  pose proof (observe_all_tasks _ _ _ Hobs1) as [Hnames1 _].
  simpl in Hnames1. rewrite reset_names in Hnames1.
  assert ((n, i) ∈ keys (w_tasks (reset w)) cs ↔
          ∃ ct, ct ∈ cs ∧ Labels ct !! labelMap = Some n ∧ substring 0 12 (ID ct) = i) as Hkeys.
  { unfold keys. rewrite list_elem_of_omap. unfold key_of.
    split; intros (ct & Hin & H); exists ct; (split; [done|]).
    - destruct (Labels ct !! labelMap) as [m|]; [|done].
      destruct (GetTask (w_tasks (reset w)) m); [|done]. by injection H as -> ->.
    - destruct H as [-> <-].
      destruct (GetTask (w_tasks (reset w)) n) as [q|] eqn:Hq; [done|].
      exfalso. assert (is_Some (GetTask (w_tasks (reset w)) n)) as [? ?]; [|congruence].
      apply GetTask_is_Some. simpl. by rewrite reset_names. }
  rewrite <- Hkeys. rewrite sweep_record_at, Hnames1. split.
  - intros (r & Hr & Hu).
    destruct (decide ((n, i) ∈ keys (w_tasks (reset w)) cs)) as [|Hk]; [done|]. exfalso.
    rewrite (observe_all_unlisted _ _ _ _ _ Hobs1 Hk), reset_record in Hr.
    destruct (record (w_sched w) n i) as [c0|]; [|done]. simpl in Hr.
    rewrite !decide_True in Hr by done.
    destruct (doomed (setUpdated c0 false)); [done|]. injection Hr as <-. done.
  - intros (ct & Hin & Hkey)%list_elem_of_omap.
    destruct (observe_all_stable _ _ _ _ _ _ Hobs1 Hin Hkey) as (r & Hr & Hu & _).
    exists r. split; [|done]. rewrite Hr. simpl. rewrite decide_True by done.
    unfold doomed. by rewrite Hu.
Qed.

(** ** What the store can hold *)

Lemma put_record_states_ok (c : DockerScheduler) (n i : string) (cc : dockerContainer) :
  store_states_ok c → state cc ∈ assigned_states → store_states_ok (put_record c n i cc).
Proof.
  intros Hok Hst n' i' cc'. rewrite record_put_record. case_decide as Hk.
  - by intros [= <-].
  - apply Hok.
Qed.

Lemma next_state_assigned (newState st : string) :
  st ∈ assigned_states → next_state newState st ∈ assigned_states.
Proof.
  intros Hst. rewrite next_state_eq.
  destruct (String.eqb newState "running").
  - destruct (String.eqb st "starting" || String.eqb st ""); [|done].
    apply (bool_decide_unpack _). by vm_compute.
  - destruct (String.eqb newState "dead"); [|done].
    apply (bool_decide_unpack _). by vm_compute.
Qed.

Lemma observe_all_states_ok (cs : list APIContainers) (w w' : world) :
  observe_all w cs = Returns w' → store_states_ok (w_sched w) → store_states_ok (w_sched w').
Proof.
  revert w. induction cs as [|ct cs IH]; intros w; simpl.
  - by intros [= <-].
  - destruct (observe w ct) as [wa|] eqn:Hobs; [|done]. simpl. intros H Hok.
    apply observe_step in Hobs as [_ ->]. apply (IH _ H). simpl.
    intros n i cc. rewrite record_store_after_round. case_decide; [|apply Hok].
    intros [= <-]. simpl. apply next_state_assigned.
    destruct (record (w_sched w) n i) as [r|] eqn:Hr; [by eapply Hok|].
    apply (bool_decide_unpack _). by vm_compute.
Qed.

Lemma CountAllTasks_states_ok (listing : error + list APIContainers) (w w' : world)
    (e : option error) :
  CountAllTasks listing w = Returns (w', e) →
  store_states_ok (w_sched w) → store_states_ok (w_sched w').
Proof.
  destruct listing as [e0|cs]; simpl; [by intros [= <- _]|].
  unfold observed. destruct (observe_all (reset w) cs) as [w1|] eqn:Hobs; [|done].
  simpl. intros [= <- _] Hok.
  destruct (sweep_spec w1) as (l & _ & Hrem & _).
  intros n i cc Hrec. apply (remains_Some _ _ _ _ _ Hrem) in Hrec. revert n i cc Hrec.
  apply (observe_all_states_ok _ _ _ Hobs).
  intros n i cc. rewrite reset_record.
  destruct (record (w_sched w) n i) as [cc0|] eqn:E; [|done]. simpl. intros [= <-].
  case_decide; simpl; by eapply Hok.
Qed.

(** X13. Every store the scheduler can reach from NewScheduler, by
    InitScheduler, stopTask, the writes of the start and stop units and the
    passes of CountAllTasks in any order and with any answers of the
    runtime, files its records under identifiers of 12 characters and holds
    no state but the empty one, created, starting, running, stopping,
    removing and dead. No record is ever in state exited or unknown, so the
    tests for exited in the last loop and in the switch of CountAllTasks
    never succeed on a reachable store. *)
Theorem reachable_store_well_formed (c : DockerScheduler) :
  reachable c →
  store_ids_ok c ∧ store_states_ok c ∧
  ∀ n i cc, record c n i = Some cc → state cc ≠ "exited" ∧ state cc ≠ "unknown".
Proof.
  intros Hreach.
  assert (store_ids_ok c ∧ store_states_ok c) as [Hids Hstates].
  { induction Hreach as [pull|pull c task _ [IHi IHs]|c task _ [IHi IHs]
      |n id c c' _ [IHi IHs] Hput|n id c c' _ [IHi IHs] Hput|n id c c' _ [IHi IHs] Hput
      |listing w w' e _ [IHi IHs] Hcount].
    - split; intros n i cc; unfold record; simpl; by rewrite lookup_empty.
    - split; [by apply InitScheduler_ids_ok|].
      intros n i cc. unfold InitScheduler, record.
      destruct (pullImages c); simpl;
        (destruct (decide (n = Name task)) as [->|Hne];
         [rewrite lookup_insert_eq; simpl; by rewrite lookup_empty
         |rewrite lookup_insert_ne by done; apply IHs]).
    - split; [by apply stopTask_ids_ok|].
      destruct (stopTask_cases c task) as [->|(id & v & Hrec & Hrun & [[_ ->]|[_ ->]])];
        [done| |]; simpl; (apply put_record_states_ok; [done|]);
        apply (bool_decide_unpack _); by vm_compute.
    - apply start_created_put in Hput as [Hlen ->]. split.
      + apply put_record_ids_ok; [done|]. by apply length_substring_0.
      + apply put_record_states_ok; [done|]. apply (bool_decide_unpack _). by vm_compute.
    - apply set_record_state_put in Hput as (cc & Hrec & ->). split.
      + apply put_record_ids_ok; [done|]. by eapply IHi.
      + apply put_record_states_ok; [done|]. apply (bool_decide_unpack _). by vm_compute.
    - apply set_record_state_put in Hput as (cc & Hrec & ->). split.
      + apply put_record_ids_ok; [done|]. by eapply IHi.
      + apply put_record_states_ok; [done|]. apply (bool_decide_unpack _). by vm_compute.
    - split; [by eapply CountAllTasks_ids_ok | by eapply CountAllTasks_states_ok]. }
  split; [done|]. split; [done|].
  intros n i cc Hrec. apply Hstates in Hrec. unfold assigned_states in Hrec.
  split; intros Heq; rewrite Heq in Hrec;
    by apply (bool_decide_pack _) in Hrec.
Qed.

Lemma StopStartTasks_reachable (c : DockerScheduler) (ts : list Task) :
  reachable c → reachable (sched (StopStartTasks c ts)).
Proof.
  intros Hc. apply (StopStartTasks_invariant (λ s, reachable (sched s))); [done| |].
  - intros p s Hs. destruct (stop_iter_cases p s) as [->|(t & c' & u & e & _ & Hstop & ->)];
      [done|]. simpl. pose proof (reach_stopTask _ t Hs) as H. by rewrite Hstop in H.
  - intros p s Hs. by destruct (start_iter_cases p s) as [->|(t & _ & ->)].
Qed.

(** ** CountAllTasks: how a pass moves the state of a record *)

Lemma next_state_moves (newState st : string) : pass_moves st (next_state newState st).
Proof.
  unfold pass_moves. rewrite next_state_eq.
  destruct (String.eqb newState "running").
  - destruct (String.eqb_spec st "starting") as [->|H1]; simpl; [tauto|].
    destruct (String.eqb_spec st "") as [->|H2]; tauto.
  - destruct (String.eqb newState "dead"); tauto.
Qed.

Lemma pass_moves_trans (a b c : string) : pass_moves a b → pass_moves b c → pass_moves a c.
Proof.
  unfold pass_moves. intros [-> | [[-> Ha] | ->]] [-> | [[-> Hb] | ->]]; try tauto.
  destruct Hb; done.
Qed.

Lemma observe_all_moves (cs : list APIContainers) (w w' : world) (n i : string) :
  observe_all w cs = Returns w' →
  pass_moves (state_of (record (w_sched w) n i)) (state_of (record (w_sched w') n i)) ∧
  (is_Some (record (w_sched w) n i) → is_Some (record (w_sched w') n i)).
Proof.
  revert w. induction cs as [|ct cs IH]; intros w; simpl.
  - intros [= <-]. split; [by left | done].
  - destruct (observe w ct) as [wa|] eqn:Hobs; [|done]. simpl. intros Hall.
    apply observe_step in Hobs as [_ ->]. destruct (IH _ Hall) as [IH1 IH2].
    simpl in IH1, IH2. rewrite record_store_after_round in IH1, IH2. split.
    + eapply pass_moves_trans; [|exact IH1]. case_decide; [|by left].
      apply next_state_moves.
    + intros Hsome. apply IH2. by case_decide.
Qed.

(** X14. A pass of CountAllTasks moves the state of a record in three ways
    only: it leaves it, it turns "starting" or the empty state into
    "running", or it sets "dead". This holds for every record the pass
    leaves on the store, the ones it made included (their state before
    counts as empty); and a record the pass removes was in state "removing"
    or "exited", belongs to a task of the collection and was not listed. *)
Theorem CountAllTasks_moves (cs : list APIContainers) (w w' : world) (e : option error)
    (n i : string) :
  CountAllTasks (inr cs) w = Returns (w', e) →
  match record (w_sched w') n i with
  | Some cc' => pass_moves (state_of (record (w_sched w) n i)) (state cc')
  | None =>
      ∀ cc, record (w_sched w) n i = Some cc →
        (state cc = "removing" ∨ state cc = "exited") ∧
        n ∈ Name <$> w_tasks w ∧
        ¬ ∃ ct, ct ∈ cs ∧ Labels ct !! labelMap = Some n ∧ substring 0 12 (ID ct) = i
  end.
Proof.
  unfold CountAllTasks, observed.
  destruct (observe_all (reset w) cs) as [E1|] eqn:Hobs1; [|done]. simpl.
  intros [= <- <-].
  pose proof (observe_all_tasks _ _ _ Hobs1) as [Hnames1 _].
  simpl in Hnames1. rewrite reset_names in Hnames1.
  destruct (observe_all_moves _ _ _ n i Hobs1) as [Hmoves Hsome].
  assert (state_of (record (w_sched (reset w)) n i) = state_of (record (w_sched w) n i)) as Hst.
  { rewrite reset_record. destruct (record (w_sched w) n i) as [c0|]; [|done].
    simpl. by case_decide. }
  rewrite Hst in Hmoves. rewrite sweep_record_at, Hnames1.
  destruct (record (w_sched E1) n i) as [c1|] eqn:Hrec1; simpl.
  - destruct (decide (n ∈ Name <$> w_tasks w)) as [Hn|Hn]; [|done].
    destruct (doomed c1) eqn:Hdoom; [|done].
    intros cc Hcc. apply doomed_spec in Hdoom as [Hupd Hstate].
    assert ((n, i) ∉ keys (w_tasks (reset w)) cs) as Hk.
    { intros (ct & Hin & Hkey)%list_elem_of_omap.
      destruct (observe_all_stable _ _ _ _ _ _ Hobs1 Hin Hkey) as (r & Hr & Hu & _).
      congruence. }
    rewrite (observe_all_unlisted _ _ _ _ _ Hobs1 Hk), reset_record, Hcc in Hrec1.
    simpl in Hrec1. injection Hrec1 as <-. rewrite decide_True in Hstate by done.
    split; [done|]. split; [done|].
    intros (ct & Hin & Hlab & Hid). apply Hk. apply list_elem_of_omap.
    exists ct. split; [done|]. unfold key_of. rewrite Hlab.
    destruct (GetTask (w_tasks (reset w)) n) as [q|] eqn:Hq; [by rewrite Hid|].
    exfalso. assert (is_Some (GetTask (w_tasks (reset w)) n)) as [? ?]; [|congruence].
    apply GetTask_is_Some. simpl. by rewrite reset_names.
  - intros cc Hcc. exfalso.
    assert (is_Some (@None dockerContainer)) as [? ?]; [|done].
    apply Hsome. rewrite reset_record, Hcc. by eexists.
Qed.

Lemma apply_write_other (wr : unit_write) (c c' : DockerScheduler) (n i : string) :
  apply_write wr c = Returns c' → write_key wr ≠ (n, i) → record c' n i = record c n i.
Proof.
  destruct wr as [m cid|m id|m id]; simpl; intros Hwr Hne.
  - apply start_created_put in Hwr as [_ ->]. rewrite record_put_record.
    rewrite decide_False; [done|]. intros [<- <-]. done.
  - apply set_record_state_put in Hwr as (cc & _ & ->). rewrite record_put_record.
    rewrite decide_False; [done|]. intros [<- <-]. done.
  - apply set_record_state_put in Hwr as (cc & _ & ->). rewrite record_put_record.
    rewrite decide_False; [done|]. intros [<- <-]. done.
Qed.

(** X15. A record in state "stopping" waits for its stop unit. Through any
    number of calls of stopTask, passes of CountAllTasks and writes of
    goroutines to other records, in any order: no call of stopTask selects
    the container again, so no second stop unit is launched for it, and no
    pass removes the record, which stays "stopping" or, from the first pass
    in which the runtime reports the container dead, "dead". So when the
    stop unit fails to stop the container and returns without a write, the
    stop is never retried and the record never cleaned up. *)
Theorem stopping_record_waits (c c' : DockerScheduler) (us : list unit_of_work)
    (n i : string) (cc : dockerContainer) :
  record c n i = Some cc → state cc = "stopping" →
  left_alone (n, i) c us c' →
  (StopUnit n i ∉ us) ∧
  ∃ cc', record c' n i = Some cc' ∧ (state cc' = "stopping" ∨ state cc' = "dead").
Proof.
  intros Hrec Hstate Halone.
  induction Halone as [c|c c' us task _ IH
    |c c' us listing ts log w' e _ IH Hpass
    |c c' c'' us wr _ IH Hkey Hwr].
  - split; [by apply not_elem_of_nil | by eauto].
  - destruct (IH Hrec) as [IHu (c1 & Hc1 & Hst1)].
    assert (∀ id v, record c' (Name task) id = Some v → state v = "running" →
                    (Name task, id) ≠ (n, i)) as Hother.
    { intros id v Hv Hrun [= Hn Hi]. rewrite Hn, Hi, Hc1 in Hv. injection Hv as <-.
      destruct Hst1 as [H|H]; rewrite H in Hrun; done. }
    destruct (stopTask_cases c' task) as [->|(id & v & Hv & Hrun & [[_ ->]|[_ ->]])]; simpl.
    + rewrite app_nil_r. by eauto.
    + split.
      * intros [Hin|Hin]%elem_of_app; [done|].
        apply list_elem_of_singleton in Hin. injection Hin as Hn Hi.
        apply (Hother id v Hv Hrun). by rewrite Hn, Hi.
      * exists c1. split; [|done]. rewrite record_put_record.
        rewrite decide_False; [done|]. intros [Hn Hi].
        apply (Hother id v Hv Hrun). by rewrite Hn, Hi.
    + rewrite app_nil_r. split; [done|].
      exists c1. split; [|done]. rewrite record_put_record.
      rewrite decide_False; [done|]. intros [Hn Hi].
      apply (Hother id v Hv Hrun). by rewrite Hn, Hi.
  - destruct (IH Hrec) as [IHu (c1 & Hc1 & Hst1)]. split; [done|].
    destruct listing as [e0|cs]; [simpl in Hpass; injection Hpass as <- _; by eauto|].
    unfold CountAllTasks, observed in Hpass.
    destruct (observe_all (reset (mkWorld c' ts log)) cs) as [E1|] eqn:Hobs1; [|done].
    simpl in Hpass. injection Hpass as <- _.
    destruct (observe_all_moves _ _ _ n i Hobs1) as [Hmoves Hsome].
    rewrite reset_record in Hmoves, Hsome. simpl in Hmoves, Hsome.
    rewrite Hc1 in Hmoves, Hsome. simpl in Hmoves, Hsome.
    destruct Hsome as [c2 Hc2]; [by eexists|]. rewrite Hc2 in Hmoves.
    assert (state c2 = "stopping" ∨ state c2 = "dead") as Hc2st.
    { assert (state (if decide (n ∈ Name <$> ts) then setUpdated c1 false else c1) = state c1)
        as Hs by (by case_decide).
      unfold state_of in Hmoves. simpl in Hmoves. rewrite Hs in Hmoves.
      destruct Hst1 as [H1|H1]; rewrite H1 in Hmoves;
        destruct Hmoves as [H|[[_ [H|H]]|H]]; try done; tauto. }
    exists c2. split; [|done]. rewrite sweep_record_at, Hc2. simpl.
    assert (doomed c2 = false) as Hlive.
    { unfold doomed. destruct Hc2st as [-> | ->]; simpl; by rewrite andb_false_r. }
    rewrite Hlive. by destruct (decide (n ∈ Name <$> w_tasks E1)).
  - destruct (IH Hrec) as [IHu (c1 & Hc1 & Hst1)]. split; [done|].
    exists c1. split; [|done]. by rewrite (apply_write_other _ _ _ _ _ Hwr Hkey).
Qed.

(** X16. A stop that the runtime carries out, followed to its end: when
    stopTask returns a stop unit, the unit's write finds the record and sets
    it to "removing" without touching any other record, and the first pass
    of CountAllTasks over a collection with the task whose listing no longer
    has the container removes the record. *)
Theorem stop_runs_to_deletion (c c1 : DockerScheduler) (task : Task) (n id : string) :
  stopTask c task = (c1, Some (StopUnit n id), None) →
  n = Name task ∧
  ∃ c2, stopTask_unit None n id c1 = Returns c2 ∧
    (state <$> record c2 n id) = Some "removing" ∧
    (∀ n' i', (n', i') ≠ (n, id) → record c2 n' i' = record c n' i') ∧
    (∀ cs ts log w' e,
       task ∈ ts →
       (∀ ct, ct ∈ cs → Labels ct !! labelMap = Some n → substring 0 12 (ID ct) ≠ id) →
       CountAllTasks (inr cs) (mkWorld c2 ts log) = Returns (w', e) →
       record (w_sched w') n id = None).
Proof.
  intros Hstop.
  destruct (stopTask_cases c task) as [H|(id' & v & Hv & Hrun & [[_ H]|[_ H]])];
    rewrite H in Hstop; [done| |done].
  injection Hstop as <- <- <-. split; [done|].
  assert (record (put_record c (Name task) id' (setState v "stopping")) (Name task) id' =
          Some (setState v "stopping")) as Hrec1.
  { rewrite record_put_record. by rewrite decide_True. }
  eexists. split; [by apply stopTask_unit_removing|].
  split; [rewrite record_put_record; by rewrite decide_True|].
  split.
  - intros n' i' Hne. rewrite !record_put_record.
    rewrite !decide_False; [done| |]; intros [<- <-]; done.
  - intros cs ts log w' e Hin Hnot Hcount.
    eapply (removing_record_swept cs _ w' e task id' _ _ _ _ _ Hcount).
    Unshelve.
    + exact (setState (setState v "stopping") "removing").
    + done.
    + simpl. rewrite record_put_record. by rewrite decide_True.
    + done.
    + simpl. intros (ct & Hct & Hkey)%list_elem_of_omap. unfold key_of in Hkey.
      destruct (Labels ct !! labelMap) as [m|] eqn:Hlab; [|done].
      destruct (GetTask ts m); [|done]. injection Hkey as -> Hid.
      by apply (Hnot ct Hct Hlab).
Qed.

(** ** The wait group *)

Lemma step_pool_length (r r' : run) (who : thread) :
  step r who = Some r' → (length (pool r) ≤ length (pool r'))%nat.
Proof.
  unfold step. destruct who as [|i].
  - destruct (pc r) as [[|u todo]| |]; try done.
    + by intros [= <-].
    + intros [= <-]. simpl. rewrite length_app. lia.
    + destruct (scaling r =? 0)%Z; [|done]. by intros [= <-].
  - destruct (pool r !! i) as [[u []]|] eqn:Hi; try done; intros [= <-]; simpl;
      by rewrite length_insert.
Qed.

Lemma step_issued (n0 : nat) (r r' : run) (who : thread) :
  (n0 ≤ length (pool r))%nat → step r who = Some r' → issued n0 r' = issued n0 r.
Proof.
  intros Hn0. unfold step, issued. destruct who as [|i].
  - destruct (pc r) as [[|u todo]| |]; try done.
    + intros [= <-]. simpl. by rewrite app_nil_r.
    + intros [= <-]. simpl. rewrite fmap_app, drop_app_le by (by rewrite length_fmap).
      simpl. by rewrite <- app_assoc.
    + destruct (scaling r =? 0)%Z; [|done]. by intros [= <-].
  - destruct (pool r !! i) as [[u []]|] eqn:Hi; try done; intros [= <-]; simpl;
      rewrite list_fmap_insert; simpl;
      (rewrite list_insert_id; [done|]); by rewrite list_lookup_fmap, Hi.
Qed.

Lemma working_nonneg (gs : list (unit_of_work * goroutine)) : (0 <= working gs)%Z.
Proof. induction gs as [|[u []] gs IH]; simpl; lia. Qed.

Lemma working_zero_iff (gs : list (unit_of_work * goroutine)) :
  working gs = 0%Z ↔ ∀ g, g ∈ gs → g.2 ≠ Working.
Proof.
  induction gs as [|[u st] gs IH].
  - split; [by intros _ g ?%elem_of_nil | done].
  - pose proof (working_nonneg gs) as Hnn. split.
    + intros H g [->|Hin]%elem_of_cons.
      * destruct st; simpl in *; [done | lia | done].
      * apply IH; [|done]. destruct st; simpl in H; lia.
    + intros H. assert (working gs = 0%Z) as H0.
      { apply IH. intros g Hin. apply H. by right. }
      specialize (H (u, st)). destruct st; simpl in *; [done| |done].
      exfalso. apply H; [by left | done].
Qed.

(** X17. What the wait group does guarantee, over any number of passes and
    in every interleaving of the caller and the goroutines, those of earlier
    passes included: the counter is the number of goroutines between their
    Add and their Done, so it is never negative; the units launched and
    still to launch in the pass under way are the units of that pass, in
    order; and once the caller is at Wait, every unit of the pass has been
    launched, and Wait returns exactly when no goroutine, of this pass or of
    an earlier one, is between its Add and its Done. *)
Theorem wait_group_guarantee (n0 : nat) (us : list unit_of_work) (r : run) :
  runs n0 us r →
  scaling r = working (pool r) ∧ (0 <= scaling r)%Z ∧
  (n0 ≤ length (pool r))%nat ∧ issued n0 r = us ∧
  (pc r = AtWait →
   drop n0 (fst <$> pool r) = us ∧
   (is_Some (step r Caller) ↔ ∀ g, g ∈ pool r → g.2 ≠ Working) ∧
   ∀ r', step r Caller = Some r' → pc r' = HasReturned ∧ pool r' = pool r).
Proof.
  intros Hruns.
  assert (scaling r = working (pool r) ∧ (n0 ≤ length (pool r))%nat ∧ issued n0 r = us)
    as (Hcount & Hn0 & Hus).
  { induction Hruns as [|n0 us0 us r _ (IHc & IHn & IHu) Hpc
                        |n0 us r r' who _ (IHc & IHn & IHu) Hstep].
    - done.
    - simpl. split; [done|]. split; [done|]. unfold issued. simpl.
      rewrite drop_ge by (by rewrite length_fmap). done.
    - split; [by eapply step_scaling|].
      split; [pose proof (step_pool_length _ _ _ Hstep); lia|].
      by rewrite (step_issued _ _ _ _ IHn Hstep). }
  split; [done|]. split; [rewrite Hcount; apply working_nonneg|].
  split; [done|]. split; [done|].
  intros Hpc. split; [|split].
  - rewrite <- Hus. unfold issued. rewrite Hpc. by rewrite app_nil_r.
  - rewrite <- working_zero_iff, <- Hcount. unfold step. rewrite Hpc.
    destruct (Z.eqb_spec (scaling r) 0) as [H|H]; [by split; eauto|].
    split; [by intros [? ?] | done].
  - intros r'. unfold step. rewrite Hpc. destruct (scaling r =? 0)%Z; [|done].
    by intros [= <-].
Qed.

(** ** The start and stop units *)

Lemma InitScheduler_record (pull : option error) (c : DockerScheduler) (task : Task)
    (n i : string) :
  record (InitScheduler pull c task).1 n i =
  if decide (n = Name task) then None else record c n i.
Proof.
  unfold InitScheduler, record.
  destruct (pullImages c); simpl;
    (destruct (decide (n = Name task)) as [->|Hne];
     [rewrite lookup_insert_eq; simpl; by rewrite lookup_empty
     |by rewrite lookup_insert_ne by done]).
Qed.

Lemma put_record_dom (c : DockerScheduler) (n i : string) (cc : dockerContainer) :
  n ∈ dom (taskContainers c) →
  dom (taskContainers (put_record c n i cc)) = dom (taskContainers c).
Proof.
  intros Hn. simpl. rewrite dom_insert_L.
  apply subseteq_union_1_L. by apply singleton_subseteq_l.
Qed.

(** X18. The unit of work startTask launches, run without another call
    between its two writes. When CreateContainer fails the store is not
    touched. Otherwise the unit returns exactly when the runtime's
    identifier has at least 12 characters and the task has an entry in the
    store (InitScheduler was called for it); it panics in the other cases.
    When it returns, the record under the first 12 characters of the
    identifier is new, not marked as seen, in state "starting" or, when
    StartContainer failed, "created"; a record that was filed under that
    short identifier is replaced, and every other record is as it was. *)
Theorem startTask_unit_outcome (created : error + string) (started : option error)
    (taskName : string) (c : DockerScheduler) :
  match created with
  | inl _ => startTask_unit created started taskName c = Returns c
  | inr containerID =>
      ((∃ c', startTask_unit created started taskName c = Returns c') ↔
       (12 ≤ String.length containerID)%nat ∧ is_Some (taskContainers c !! taskName)) ∧
      (startTask_unit created started taskName c = Panics ∨
       ∃ c', startTask_unit created started taskName c = Returns c' ∧
         pullImages c' = pullImages c ∧
         dom (taskContainers c') = dom (taskContainers c) ∧
         ∀ n i, record c' n i =
           if decide (n = taskName ∧ i = substring 0 12 containerID)
           then Some (mkContainer
                        (match started with Some _ => "created" | None => "starting" end)
                        false)
           else record c n i)
  end.
Proof.
  destruct created as [e|containerID]; [done|].
  unfold startTask_unit, start_created.
  destruct (String.length containerID <? 12)%nat eqn:Hlen.
  { apply Nat.ltb_lt in Hlen. split; [|by left].
    split; [by intros [? ?] | intros [? _]; lia]. }
  apply Nat.ltb_ge in Hlen.
  destruct (taskContainers c !! taskName) as [m|] eqn:Hm; simpl.
  2:{ split; [|by left]. split; [by intros [? ?] | by intros [_ [? ?]]]. }
  set (id := substring 0 12 containerID).
  assert (setContainers c (<[taskName := <[id := mkContainer "created" false]> m]>
                             (taskContainers c))
          = put_record c taskName id (mkContainer "created" false)) as ->
    by (unfold put_record; by rewrite Hm).
  assert (taskName ∈ dom (taskContainers c)) as Hin by (by apply elem_of_dom_2 in Hm).
  destruct started as [e|].
  - split; [split; eauto|]. right. eexists. split; [done|]. split; [done|].
    split; [by apply put_record_dom|].
    intros n i. rewrite record_put_record.
    case_decide as H1; case_decide as H2; try done; destruct H1, H2; by subst.
  - unfold set_record_state. rewrite record_put_record, decide_True by done.
    split; [split; eauto|]. right. eexists. split; [done|]. split; [done|]. split.
    + rewrite !put_record_dom; [done | done |]. by rewrite put_record_dom.
    + intros n i. rewrite !record_put_record.
      case_decide as H1; case_decide as H2; try done; destruct H1, H2; by subst.
Qed.

(** X19. Registering a task again while its units are under way makes
    them panic. InitScheduler replaces the task's entry by an empty map, so
    the second write of a start unit launched before (to "starting") and
    the write of a stop unit launched before (to "removing") go through a
    record that is no longer there, whatever the identifier; the records of
    other tasks can still be written, and a start unit launched after the
    call returns as soon as the runtime's identifier has 12 characters. *)
Theorem InitScheduler_breaks_units_under_way (pull : option error) (c : DockerScheduler)
    (task : Task) :
  (∀ id st, set_record_state (Name task) id st (InitScheduler pull c task).1 = Panics) ∧
  (∀ id, stopTask_unit None (Name task) id (InitScheduler pull c task).1 = Panics) ∧
  (∀ n id st cc, n ≠ Name task → record c n id = Some cc →
     set_record_state n id st (InitScheduler pull c task).1 =
     Returns (put_record (InitScheduler pull c task).1 n id (setState cc st))) ∧
  (∀ containerID started, (12 ≤ String.length containerID)%nat →
     ∃ c', startTask_unit (inr containerID) started (Name task)
             (InitScheduler pull c task).1 = Returns c').
Proof.
  assert (∀ id st, set_record_state (Name task) id st (InitScheduler pull c task).1 = Panics)
    as Hpanic.
  { intros id st. unfold set_record_state. rewrite InitScheduler_record.
    by rewrite decide_True. }
  split; [done|]. split; [intros id; apply Hpanic|]. split.
  - intros n id st cc Hne Hrec. unfold set_record_state.
    rewrite InitScheduler_record, decide_False by done. by rewrite Hrec.
  - intros containerID started Hlen.
    destruct (startTask_unit_started containerID (Name task) started
                (InitScheduler pull c task).1 Hlen) as (c' & Hc' & _); [|by eauto].
    unfold InitScheduler. destruct (pullImages c); simpl; by rewrite lookup_insert_eq.
Qed.

(** ** CountAllTasks: a listed container that is up *)

Lemma observe_all_no_dead (cs : list APIContainers) (w w' : world) (n i : string) :
  observe_all w cs = Returns w' →
  (∀ ct, ct ∈ cs → key_of (w_tasks w) ct = Some (n, i) → newState_of ct ≠ "dead") →
  state_of (record (w_sched w') n i) = state_of (record (w_sched w) n i) ∨
  (state_of (record (w_sched w') n i) = "running" ∧
   (state_of (record (w_sched w) n i) = "starting" ∨ state_of (record (w_sched w) n i) = "")).
Proof.
  revert w. induction cs as [|ct cs IH]; intros w; simpl.
  - intros [= <-] _. by left.
  - destruct (observe w ct) as [wa|] eqn:Hobs; [|done]. simpl. intros Hall Hnd.
    apply observe_step in Hobs as [_ ->].
    pose proof (IH _ Hall) as IH'. simpl in IH'.
    rewrite record_store_after_round in IH'.
    assert (∀ d, d ∈ cs → key_of (bump (w_tasks w) ct) d = Some (n, i) →
                 newState_of d ≠ "dead") as Hnd'.
    { intros d Hd Hkey.
      rewrite (key_of_names _ (w_tasks w)) in Hkey by apply bump_names.
      apply Hnd; [by right | done]. }
    specialize (IH' Hnd').
    destruct (decide (key_of (w_tasks w) ct = Some (n, i))) as [Hk|Hk]; [|done].
    destruct IH' as [IH1|[IH1 IH2]].
    + rewrite IH1. change (state_of (Some ?r)) with (state r). simpl.
      rewrite next_state_eq.
      destruct (String.eqb (newState_of ct) "running").
      * destruct (String.eqb_spec (state_of (record (w_sched w) n i)) "starting") as [E1|E1];
          simpl; [right; tauto|].
        destruct (String.eqb_spec (state_of (record (w_sched w) n i)) "") as [E2|E2];
          [right; tauto | by left].
      * destruct (String.eqb_spec (newState_of ct) "dead") as [E|E]; [|by left].
        exfalso. apply (Hnd ct); [by left | done | done].
    + change (state_of (Some ?r)) with (state r) in IH2. simpl in IH2.
      rewrite next_state_eq in IH2.
      destruct (String.eqb (newState_of ct) "running").
      * exfalso.
        destruct (String.eqb_spec (state_of (record (w_sched w) n i)) "starting") as [E1|E1];
          simpl in IH2; [by destruct IH2|].
        destruct (String.eqb_spec (state_of (record (w_sched w) n i)) "") as [E2|E2];
          by destruct IH2.
      * destruct (String.eqb_spec (newState_of ct) "dead") as [E|E]; [|by right].
        exfalso. apply (Hnd ct); [by left | done | done].
Qed.

Lemma observe_all_dead_report (cs : list APIContainers) (w w' : world) (ct : APIContainers)
    (n i : string) :
  observe_all w cs = Returns w' → ct ∈ cs → key_of (w_tasks w) ct = Some (n, i) →
  newState_of ct = "dead" → state_of (record (w_sched w') n i) = "dead".
Proof.
  revert w. induction cs as [|ct0 cs IH]; intros w; simpl; [intros _ H; by apply elem_of_nil in H|].
  destruct (observe w ct0) as [wa|] eqn:Hobs; [|done]. simpl. intros Hall Hin Hkey Hdead.
  apply observe_step in Hobs as [_ ->].
  apply elem_of_cons in Hin as [->|Hin].
  - destruct (observe_all_moves _ _ _ n i Hall) as [Hmoves _]. simpl in Hmoves.
    rewrite record_store_after_round, decide_True in Hmoves by done.
    change (state_of (Some ?r)) with (state r) in Hmoves. simpl in Hmoves.
    rewrite Hdead, next_state_eq in Hmoves. simpl in Hmoves.
    destruct Hmoves as [H|[[_ [H|H]]|H]]; done.
  - apply (IH _ Hall Hin); [|done]. simpl.
    by rewrite (key_of_names _ (w_tasks w)) by apply bump_names.
Qed.

(** C2.  In a pass of [CountAllTasks], a listed container whose status reads
    as "running" and whose label names a managed task is counted: its round
    of the loop increments the task's [Running], and after the pass
    [Running] is the number of such containers, this one among them.  Its
    record is on the store after the pass, marked as seen; the round sets it
    to "running" only when it was "starting" or had no state yet, and after
    the pass it is "running" when it was "starting" or unset before the pass
    and has the state it had otherwise, so a record that was "stopping" or
    "removing" stays so -- unless a container listed under the same short
    identifier is reported dead, which leaves it "dead". *)
Theorem CountAllTasks_running_container (pre post : list APIContainers) (ct : APIContainers)
    (w w' : world) (e : option error) (taskName : string) (p : ptr) :
  CountAllTasks (inr (pre ++ ct :: post)) w = Returns (w', e) →
  Labels ct !! labelMap = Some taskName →
  GetTask (w_tasks w) taskName = Some p →
  (statusToState (Status ct)).1 = "running" →
  let id := substring 0 12 (ID ct) in
  let cs := pre ++ ct :: post in
  let before := state_of (record (w_sched w) taskName id) in
  (∃ wa wb E t cc,
     observe_all (reset w) pre = Returns wa ∧ observe wa ct = Returns wb ∧
     observe_all wb post = Returns E ∧ w' = sweep E ∧
     w_tasks wa !! p = Some t ∧ Name t = taskName ∧
     w_tasks wb !! p = Some (setRunning t (int_add (Running t) 1)) ∧
     record (w_sched wb) taskName id = Some cc ∧ updated cc = true ∧
     (state_of (record (w_sched wa) taskName id) = "starting" ∨
      state_of (record (w_sched wa) taskName id) = "" → state cc = "running") ∧
     (state_of (record (w_sched wa) taskName id) ≠ "starting" →
      state_of (record (w_sched wa) taskName id) ≠ "" →
      state cc = state_of (record (w_sched wa) taskName id))) ∧
  counted (w_tasks w) p ct = true ∧
  (1 ≤ length (List.filter (counted (w_tasks w) p) cs))%nat ∧
  Running <$> w_tasks w' !! p =
    Some (wrap (Z.of_nat (length (List.filter (counted (w_tasks w) p) cs)))) ∧
  ∃ cc', record (w_sched w') taskName id = Some cc' ∧ updated cc' = true ∧
    ((∃ d, d ∈ cs ∧ Labels d !! labelMap = Some taskName ∧
           substring 0 12 (ID d) = id ∧ newState_of d = "dead") → state cc' = "dead") ∧
    ((∀ d, d ∈ cs → Labels d !! labelMap = Some taskName →
           substring 0 12 (ID d) = id → newState_of d ≠ "dead") →
     (before = "starting" ∨ before = "" → state cc' = "running") ∧
     (before ≠ "starting" → before ≠ "" → state cc' = before) ∧
     (before = "stopping" ∨ before = "removing" → state cc' = before)).
Proof.
  intros Hpass Hlabel Hget Hst id cs before.
  assert (counted (w_tasks w) p ct = true) as Hcounted.
  { unfold counted, newState_of. rewrite Hlabel, Hget, Hst. by rewrite Nat.eqb_refl. }
  assert (ct ∈ cs) as Hin by (apply elem_of_app; right; left).
  unfold CountAllTasks, observed in Hpass. fold cs in Hpass.
  destruct (observe_all (reset w) cs) as [E|] eqn:Hobs; [|done]. simpl in Hpass.
  injection Hpass as <- _.
  assert (Name <$> w_tasks (reset w) = Name <$> w_tasks w) as Hnames0
    by (simpl; apply reset_names).
  assert (key_of (w_tasks (reset w)) ct = Some (taskName, id)) as Hkey.
  { rewrite (key_of_names _ (w_tasks w)) by done. unfold key_of. by rewrite Hlabel, Hget. }
  assert (∀ d, key_of (w_tasks (reset w)) d = Some (taskName, id) ↔
               Labels d !! labelMap = Some taskName ∧ substring 0 12 (ID d) = id) as Hkeys.
  { intros d. rewrite (key_of_names _ (w_tasks w)) by done. unfold key_of.
    destruct (Labels d !! labelMap) as [m|]; [|split; [done | by intros [? _]]].
    destruct (GetTask (w_tasks w) m) as [q|] eqn:Hq.
    - split; [by intros [= -> ->] | by intros [[= ->] ->]].
    - split; [done | intros [[= ->] _]; congruence]. }
  split; [|split; [done|split; [|split]]].
  - subst cs. rewrite observe_all_app in Hobs.
    destruct (observe_all (reset w) pre) as [wa|] eqn:Hpre; [|done]. simpl in Hobs.
    destruct (observe wa ct) as [wb|] eqn:Hct; [|done]. simpl in Hobs.
    pose proof (observe_all_tasks _ _ _ Hpre) as [Hnames _].
    pose proof (observe_step _ _ _ Hct) as [Hcan _].
    unfold can_file in Hcan.
    rewrite (key_of_names _ (w_tasks (reset w))), Hkey in Hcan by done.
    destruct Hcan as [Hlen Hentry].
    assert (GetTask (w_tasks wa) taskName = Some p) as Hget'.
    { unfold GetTask. rewrite (GetTask_from_names _ (w_tasks w)); [done|].
      by rewrite Hnames, Hnames0. }
    destruct (observe_running_container wa ct taskName p Hlabel Hget' Hentry Hlen Hst)
      as (wb' & t & cc & Hobs' & Ht & Hname & Hrun & _ & Hrec & Hupd & H1 & H2 & _).
    rewrite Hct in Hobs'. injection Hobs' as <-.
    exists wa, wb, E, t, cc. done.
  - assert (In ct (List.filter (counted (w_tasks w) p) cs)) as Hf.
    { apply List.filter_In. split; [by apply list_elem_of_In | done]. }
    destruct (List.filter (counted (w_tasks w) p) cs); [done | simpl; lia].
  - destruct (GetTask_Some _ _ _ Hget) as (t & Hp & _).
    rewrite sweep_tasks, (observe_all_tasks_eq _ _ _ Hobs). simpl.
    assert (List.filter (counted ((λ t0, setRunning t0 0) <$> w_tasks w) p) cs =
            List.filter (counted (w_tasks w) p) cs) as Hf.
    { apply List.filter_ext. intros d. apply counted_names, reset_names. }
    rewrite (fold_bump_Running cs _ p (setRunning t 0) 0);
      [|by rewrite list_lookup_fmap, Hp | done].
    by rewrite Hf, Z.add_0_l.
  - destruct (observe_all_stable _ _ _ _ _ _ Hobs Hin Hkey) as (r & Hr & Hu & Hstable).
    assert (state_of (record (w_sched (reset w)) taskName id) = before) as Hbefore.
    { subst before. rewrite reset_record.
      destruct (record (w_sched w) taskName id) as [c0|]; [|done]. simpl. by case_decide. }
    exists r. split; [|split; [done|split]].
    + rewrite sweep_record_at, Hr. simpl.
      assert (doomed r = false) as -> by (unfold doomed; by rewrite Hu).
      by destruct (decide (taskName ∈ Name <$> w_tasks E)).
    + intros (d & Hd & Hdl & Hdi & Hdead).
      pose proof (observe_all_dead_report _ _ _ d taskName id Hobs Hd
                    (proj2 (Hkeys d) (conj Hdl Hdi)) Hdead) as H.
      by rewrite Hr in H.
    + intros Hnodead.
      assert (state r = before ∨ (state r = "running" ∧ (before = "starting" ∨ before = "")))
        as Hmove.
      { rewrite <- Hbefore.
        pose proof (observe_all_no_dead _ _ _ taskName id Hobs) as H. rewrite Hr in H.
        apply H. intros d Hd Hdk. apply Hkeys in Hdk as [Hdl Hdi]. by apply Hnodead. }
      unfold newState_of in Hstable. rewrite Hst, next_state_eq in Hstable. simpl in Hstable.
      assert (state r ≠ "starting" ∧ state r ≠ "") as [Hn1 Hn2].
      { destruct (String.eqb_spec (state r) "starting") as [E1|E1]; simpl in Hstable;
          [by rewrite E1 in Hstable|].
        destruct (String.eqb_spec (state r) "") as [E2|E2]; [by rewrite E2 in Hstable|done]. }
      assert (before ≠ "starting" → before ≠ "" → state r = before) as Hkeep.
      { intros H1 H2. destruct Hmove as [H|[_ [H|H]]]; done. }
      split; [|split; [done|]].
      * intros Hb. destruct Hmove as [H|[H _]]; [|done].
        rewrite H in Hn1, Hn2. destruct Hb; done.
      * intros [Hb|Hb]; apply Hkeep; by rewrite Hb.
Qed.

End Scheduler.

(** * The properties on the example inputs *)

(** The statuses of the runtime. *)
Example statusToState_examples :
  statusToState "Up 2 minutes" = ("running", []) ∧
  statusToState "Removal In Progress" = ("removing", []) ∧
  statusToState "Exited (0) 5 seconds ago" = ("exited", []) ∧
  statusToState "Dead" = ("dead", []) ∧
  statusToState "Created" = ("unknown", [LogUnexpectedStatus "Created"]).
Proof. repeat split. Qed.

(** The scenario of the specification for scaling up: demand 3, requested
    1, running 1.  Two calls of [startTask], and requested ends at 3. *)
Example scenario_scale_up :
  trace (StopStartTasks listOrder store_web [web_up]) = [EvStart 0; EvStart 0] ∧
  Requested <$> tasks (StopStartTasks listOrder store_web [web_up]) !! 0 = Some 3%Z ∧
  err (StopStartTasks listOrder store_web [web_up]) = None.
Proof. vm_compute. done. Qed.

(** The scenario for scaling down: demand 0, requested 2, running 2, one
    container on record as "running".  The first stop marks it "stopping",
    the second finds none and fails, and requested ends at 0. *)
Example scenario_scale_down :
  let s := StopStartTasks listOrder store_web [mkTask "web" "nginx" "" 0 2 2] in
  trace s = [EvStop 0 None; EvStop 0 (Some (ErrNoContainers "web"))] ∧
  units s = [StopUnit "web" "0123456789ab"] ∧
  record (sched s) "web" "0123456789ab" = Some (mkContainer "stopping" false) ∧
  Requested <$> tasks s !! 0 = Some 0%Z ∧
  err s = Some (ErrNoContainers "web").
Proof. vm_compute. done. Qed.

(** The scenario of a record that is "stopping" while the runtime still
    reports the container as up: [Running] is incremented and the record
    stays "stopping". *)
Example scenario_stopping_still_up :
  CountAllTasks listOrder
    (inr [mkAPI "0123456789abcdef" "Up 2 minutes" (label_of "web")]) world_stopping =
  Returns
    (mkWorld
       (mkScheduler false {[ "web" := {[ "0123456789ab" := mkContainer "stopping" true ]} ]})
       [mkTask "web" "nginx" "" 3 1 1]
       [LogTaskCounts "web" 1 1; LogRecord "0123456789ab" "stopping"],
     None).
Proof. vm_compute. reflexivity. Qed.

(** The scenario of a container the store has no record of: [Running] goes
    up by one, a record is made and set to "running", and a line says that
    there was no record. *)
Example scenario_unrecorded :
  CountAllTasks listOrder
    (inr [mkAPI "feedfacecafe0001" "Up 2 minutes" (label_of "web")])
    (mkWorld (mkScheduler false {[ "web" := ∅ ]}) [mkTask "web" "nginx" "" 1 1 0] []) =
  Returns
    (mkWorld
       (mkScheduler false {[ "web" := {[ "feedfacecafe" := mkContainer "running" true ]} ]})
       [mkTask "web" "nginx" "" 1 1 1]
       [LogNoPreviousRecord "feedfacecafe" "running"; LogTaskCounts "web" 1 1;
        LogRecord "feedfacecafe" "running"],
     None).
Proof. vm_compute. reflexivity. Qed.

(** The order of the examples is an enumeration of the map. *)
Lemma listOrder_perm (m : gmap string dockerContainer) : listOrder m ≡ₚ map_to_list m.
Proof. reflexivity. Qed.

(** A task in the middle of a change, next to one to scale up. *)
Lemma StopStartTasks_partition_witness :
  [web_up; db_changing] !! 1 = Some db_changing ∧
  Requested db_changing ≠ Running db_changing ∧
  ∀ e, e ∈ trace (StopStartTasks listOrder store_web [web_up; db_changing]) → event_ptr e ≠ 1.
Proof.
  split; [reflexivity|]. split; [done|].
  apply (StopStartTasks_partition listOrder store_web [web_up; db_changing] 1 db_changing);
    [reflexivity | done].
Defined.

(** A stop of [web] with its one container on record as running. *)
Lemma stopTask_marks_stopping_or_fails_witness :
  record store_web (Name web_down) "" = None ∧
  ∃ id cc, record store_web (Name web_down) id = Some cc ∧ state cc = "running" ∧
    stopTask listOrder store_web web_down =
      (put_record store_web (Name web_down) id (setState cc "stopping"),
       Some (StopUnit (Name web_down) id), None).
Proof.
  split; [reflexivity|].
  apply (stopTask_marks_stopping_or_fails listOrder listOrder_perm store_web web_down);
    [reflexivity|].
  exists "0123456789ab", (mkContainer "running" false). split; reflexivity.
Defined.

(** The task to scale up from 1 to 3. *)
Lemma StopStartTasks_closes_gap_witness :
  [web_up] !! 0 = Some web_up ∧
  is_int (Demand web_up) ∧ is_int (Requested web_up) ∧
  is_int (Requested web_up - Demand web_up) ∧ is_int (Demand web_up - Requested web_up) ∧
  0 ∈ tooFew_of [web_up] ∧
  Z.of_nat (starts_of 0 (trace (StopStartTasks listOrder store_web [web_up]))) =
    Z.abs (Requested web_up - Demand web_up) ∧
  stops_of 0 (trace (StopStartTasks listOrder store_web [web_up])) = 0 ∧
  tasks (StopStartTasks listOrder store_web [web_up]) !! 0 =
    Some (setRequested web_up (Demand web_up)).
Proof.
  assert (∀ z, (-10 <= z <= 10)%Z → is_int z) as Hint
    by (unfold is_int, int_min, int_max; lia).
  assert (0 ∈ tooFew_of [web_up]) as Hin by (vm_compute; left).
  split; [reflexivity|]. repeat (split; [apply Hint; simpl; lia|]).
  split; [exact Hin|].
  apply (StopStartTasks_closes_gap listOrder store_web [web_up] 0 web_up);
    [reflexivity | apply Hint; simpl; lia.. | exact Hin].
Defined.

(** A container reported as up whose record is "stopping", listed after
    one that is not the scheduler's. *)
Lemma CountAllTasks_running_container_witness :
  CountAllTasks listOrder
    (inr ([mkAPI "eeeeeeeeeeee0000" "Up 1 minute" (label_of "other")] ++ up_container :: []))
    world_mixed =
    Returns (after_pass listOrder
               [mkAPI "eeeeeeeeeeee0000" "Up 1 minute" (label_of "other"); up_container]
               world_mixed, None) ∧
  Labels up_container !! labelMap = Some "web" ∧
  GetTask (w_tasks world_mixed) "web" = Some 0 ∧
  (statusToState (Status up_container)).1 = "running" ∧
  Running <$> w_tasks (after_pass listOrder
               [mkAPI "eeeeeeeeeeee0000" "Up 1 minute" (label_of "other"); up_container]
               world_mixed) !! 0 = Some 1%Z ∧
  ∃ cc, record (w_sched (after_pass listOrder
               [mkAPI "eeeeeeeeeeee0000" "Up 1 minute" (label_of "other"); up_container]
               world_mixed)) "web" "dddddddddddd" = Some cc ∧
        updated cc = true ∧ state cc = "stopping".
Proof.
  assert (CountAllTasks listOrder
            (inr ([mkAPI "eeeeeeeeeeee0000" "Up 1 minute" (label_of "other")]
                  ++ up_container :: [])) world_mixed =
          Returns (after_pass listOrder
                     [mkAPI "eeeeeeeeeeee0000" "Up 1 minute" (label_of "other"); up_container]
                     world_mixed, None)) as Hpass by (vm_compute; reflexivity).
  split; [exact Hpass|]. split; [reflexivity|]. split; [reflexivity|]. split; [reflexivity|].
  destruct (CountAllTasks_running_container listOrder listOrder_perm
              [mkAPI "eeeeeeeeeeee0000" "Up 1 minute" (label_of "other")] [] up_container
              world_mixed _ _ "web" 0 Hpass eq_refl eq_refl eq_refl)
    as (_ & _ & _ & Hrun & cc & Hrec & Hupd & _ & Hstate).
  split; [exact Hrun|].
  exists cc. split; [exact Hrec|]. split; [exact Hupd|].
  assert (∀ d, d ∈ [mkAPI "eeeeeeeeeeee0000" "Up 1 minute" (label_of "other")]
                     ++ up_container :: [] →
               Labels d !! labelMap = Some "web" →
               substring 0 12 (ID d) = substring 0 12 (ID up_container) →
               newState_of d ≠ "dead") as Hnodead.
  { intros d Hd _ _. apply elem_of_cons in Hd as [->|Hd]; [done|].
    apply list_elem_of_singleton in Hd as ->. done. }
  destruct (Hstate Hnodead) as (_ & _ & Hkeep). apply Hkeep. by left.
Defined.

(** A pass over a store with unseen records in three kinds of state. *)
Lemma CountAllTasks_sweeps_unobserved_witness :
  observed [up_container] world_mixed = Returns world_mixed_observed ∧
  ∃ w2 l,
    CountAllTasks listOrder (inr [up_container]) world_mixed = Returns (w2, None) ∧
    w_log w2 = w_log world_mixed_observed ++ l ∧
    record (w_sched w2) "web" "aaaaaaaaaaaa" = None ∧
    record (w_sched w2) "web" "bbbbbbbbbbbb" = Some (mkContainer "starting" false) ∧
    record (w_sched w2) "web" "cccccccccccc" = Some (mkContainer "running" false) ∧
    LogBadState "cccccccccccc" "running" ∈ l.
Proof.
  assert (observed [up_container] world_mixed = Returns world_mixed_observed) as Hobs
    by (vm_compute; reflexivity).
  split; [exact Hobs|].
  destruct (CountAllTasks_sweeps_unobserved listOrder listOrder_perm
              [up_container] world_mixed world_mixed_observed Hobs)
    as (w2 & l & Hpass & Hlog & Hrecs).
  exists w2, l. split; [exact Hpass|]. split; [exact Hlog|].
  assert (web_up ∈ w_tasks world_mixed_observed) as Hin by left.
  destruct (Hrecs web_up "aaaaaaaaaaaa" (mkContainer "removing" false) Hin eq_refl eq_refl)
    as (Ha & _ & _).
  destruct (Hrecs web_up "bbbbbbbbbbbb" (mkContainer "starting" false) Hin eq_refl eq_refl)
    as (_ & Hb & _).
  destruct (Hrecs web_up "cccccccccccc" (mkContainer "running" false) Hin eq_refl eq_refl)
    as (_ & _ & Hc).
  split; [apply Ha; by left|].
  split; [apply Hb; right; by left|].
  apply Hc; done.
Defined.

(** A second registration of [web]. *)
Lemma InitScheduler_again_witness :
  is_Some (taskContainers store_web !! Name web_up) ∧
  (InitScheduler None store_web web_up).2 = None ∧
  ∀ id, record (InitScheduler None store_web web_up).1 (Name web_up) id = None.
Proof.
  assert (is_Some (taskContainers store_web !! Name web_up)) as Hsome
    by (eexists; reflexivity).
  split; [exact Hsome|].
  destruct (InitScheduler_again None store_web web_up Hsome) as (He & _ & Hrec & _).
  split; [exact He | exact Hrec].
Defined.

(** Against C7 as the specification has it: the second registration of a
    task returns no error, and the record the task had is gone. *)
Lemma InitScheduler_twice_succeeds :
  (InitScheduler None store_registered web_up).2 = None ∧
  record store_registered "web" "0123456789ab" = Some (mkContainer "running" false) ∧
  record (InitScheduler None store_registered web_up).1 "web" "0123456789ab" = None.
Proof. vm_compute. done. Qed.

(** Two passes over one listed container. *)
Lemma CountAllTasks_twice_witness :
  CountAllTasks listOrder (inr [up_container]) world_mixed =
    Returns (after_pass listOrder [up_container] world_mixed, None) ∧
  NoDup (keys (w_tasks world_mixed) [up_container]) ∧
  ∃ w2,
    CountAllTasks listOrder (inr [up_container]) (after_pass listOrder [up_container] world_mixed)
      = Returns (w2, None) ∧
    (∀ p, Running <$> w_tasks w2 !! p =
          Running <$> w_tasks (after_pass listOrder [up_container] world_mixed) !! p) ∧
    ∀ e, is_anomaly e = true →
         e ∈ lines_since (after_pass listOrder [up_container] world_mixed) w2 →
         e ∈ lines_since world_mixed (after_pass listOrder [up_container] world_mixed).
Proof.
  assert (CountAllTasks listOrder (inr [up_container]) world_mixed =
          Returns (after_pass listOrder [up_container] world_mixed, None)) as Hpass
    by (vm_compute; reflexivity).
  assert (NoDup (keys (w_tasks world_mixed) [up_container])) as Hnd
    by (vm_compute; apply NoDup_singleton).
  split; [exact Hpass|]. split; [exact Hnd|].
  destruct (CountAllTasks_twice listOrder listOrder_perm [up_container] world_mixed _ _ Hpass)
    as (w2 & Hpass2 & Hrun & Hlines).
  exists w2. split; [exact Hpass2|]. split; [exact Hrun|]. exact (Hlines Hnd).
Defined.

(** Against C8 as the specification has it: with two listed containers
    filed under the same short identifier, the second pass logs that the
    container is being removed though the scheduler did not terminate it,
    which the first pass did not log. *)
Lemma CountAllTasks_twice_new_anomaly :
  CountAllTasks listOrder (inr colliding) world_stopping = Returns (world_stopping_once, None) ∧
  CountAllTasks listOrder (inr colliding) world_stopping_once =
    Returns (world_stopping_twice, None) ∧
  is_anomaly (LogNotTerminated "0123456789ab") = true ∧
  LogNotTerminated "0123456789ab" ∈ lines_since world_stopping_once world_stopping_twice ∧
  LogNotTerminated "0123456789ab" ∉ lines_since world_stopping world_stopping_once.
Proof.
  split; [vm_compute; reflexivity|]. split; [vm_compute; reflexivity|].
  split; [reflexivity|].
  split; apply (bool_decide_unpack _); vm_compute; exact I.
Qed.

(** C3.  Of the three stops of the pass the second fails, for want of a
    second running container of [api], and the third, for [web], succeeds:
    the pass returns no error. *)
Theorem StopStartTasks_forgets_failed_stop :
  trace (StopStartTasks listOrder store_api_web [api_down; web_down]) =
    [EvStop 0 None; EvStop 0 (Some (ErrNoContainers "api")); EvStop 1 None] ∧
  err (StopStartTasks listOrder store_api_web [api_down; web_down]) = None.
Proof. vm_compute. done. Qed.

(** C9.  The pass for the task with demand 3, requested 1 and running 1
    launches two start units; in the run in which the caller takes its
    four steps first, the pass has returned and neither unit has begun. *)
Theorem StopStartTasks_returns_before_units :
  units (StopStartTasks listOrder store_web [web_up]) = [StartUnit "web"; StartUnit "web"] ∧
  exec (start_run (units (StopStartTasks listOrder store_web [web_up])))
       [Caller; Caller; Caller; Caller] =
    Some (mkRun HasReturned 0 [(StartUnit "web", Launched); (StartUnit "web", Launched)]).
Proof. vm_compute. done. Qed.

(** ** Further properties on the example inputs *)

(** A task in the middle of a change: the pass does nothing. *)
Lemma StopStartTasks_nothing_to_do_witness :
  (∀ t, t ∈ [db_changing] → Demand t = Requested t ∨ Requested t ≠ Running t) ∧
  StopStartTasks listOrder store_web [db_changing] = mkPass store_web [db_changing] None [] [].
Proof.
  assert (∀ t, t ∈ [db_changing] → Demand t = Requested t ∨ Requested t ≠ Running t) as Hall.
  { intros t Hin. apply list_elem_of_singleton in Hin as ->. right. done. }
  split; [exact Hall|].
  exact (StopStartTasks_nothing_to_do listOrder store_web [db_changing] Hall).
Defined.

(** The pass that stops [api] twice and [web] once. *)
Lemma StopStartTasks_stops_before_starts_witness :
  ∃ downs ups,
    trace (StopStartTasks listOrder store_api_web [api_down; web_up]) = downs ++ ups ∧
    Forall (λ e, is_stop e = true) downs ∧ Forall (λ e, is_start e = true) ups.
Proof.
  exact (proj1 (StopStartTasks_stops_before_starts listOrder listOrder_perm
                  store_api_web [api_down; web_up])).
Defined.

Lemma StopStartTasks_launches_witness :
  length (units (StopStartTasks listOrder store_api_web [api_down; web_up])) =
  length (List.filter launches (trace (StopStartTasks listOrder store_api_web [api_down; web_up]))).
Proof.
  exact (StopStartTasks_launches listOrder listOrder_perm store_api_web [api_down; web_up]).
Defined.

(** Two stops of [api] and a start of [web]; the stop unit writes before
    the second stop, the start unit before the pass returns. *)
Lemma StopStartTasks_marks_what_it_stops_witness :
  StopStartTasks_among listOrder
    (λ k, match k with
          | 1 => [WriteRemoving "api" "ba5eba11cafe"]
          | 3 => [WriteCreated "web" "feedfacecafe0001"; WriteStarting "web" "feedfacecafe"]
          | _ => []
          end)
    store_api_web [api_down; mkTask "web" "nginx" "" 2 1 1] =
  Returns
    (mkPass
       (mkScheduler false
          (<[ "api" := {[ "ba5eba11cafe" := mkContainer "removing" false ]} ]>
           {[ "web" := <[ "feedfacecafe" := mkContainer "starting" false ]> one_running ]}))
       [mkTask "api" "api" "" 0 0 2; mkTask "web" "nginx" "" 2 2 1]
       (Some (ErrNoContainers "api"))
       [EvStop 0 None; EvStop 0 (Some (ErrNoContainers "api")); EvStart 1]
       [StopUnit "api" "ba5eba11cafe"; StartUnit "web"]) ∧
  NoDup (stop_targets [StopUnit "api" "ba5eba11cafe"; StartUnit "web"]).
Proof.
  assert (StopStartTasks_among listOrder
            (λ k, match k with
                  | 1 => [WriteRemoving "api" "ba5eba11cafe"]
                  | 3 => [WriteCreated "web" "feedfacecafe0001";
                          WriteStarting "web" "feedfacecafe"]
                  | _ => []
                  end)
            store_api_web [api_down; mkTask "web" "nginx" "" 2 1 1] =
          Returns
            (mkPass
               (mkScheduler false
                  (<[ "api" := {[ "ba5eba11cafe" := mkContainer "removing" false ]} ]>
                   {[ "web" := <[ "feedfacecafe" := mkContainer "starting" false ]>
                               one_running ]}))
               [mkTask "api" "api" "" 0 0 2; mkTask "web" "nginx" "" 2 2 1]
               (Some (ErrNoContainers "api"))
               [EvStop 0 None; EvStop 0 (Some (ErrNoContainers "api")); EvStart 1]
               [StopUnit "api" "ba5eba11cafe"; StartUnit "web"])) as Hpass
    by (vm_compute; reflexivity).
  split; [exact Hpass|].
  destruct (StopStartTasks_marks_what_it_stops listOrder listOrder_perm _ _ _ _ Hpass)
    as (_ & _ & _ & Hnd & _).
  exact Hnd.
Defined.

Lemma StopStartTasks_returns_last_stop_result_witness :
  err (StopStartTasks listOrder store_api_web [api_down; web_down]) =
  last_stop_result (trace (StopStartTasks listOrder store_api_web [api_down; web_down])).
Proof.
  exact (proj1 (StopStartTasks_returns_last_stop_result listOrder listOrder_perm
                  store_api_web [api_down; web_down])).
Defined.

(** One listed container that is up, for the one task of the collection. *)
Lemma CountAllTasks_counts_running_witness :
  CountAllTasks listOrder (inr [up_container]) world_mixed =
    Returns (after_pass listOrder [up_container] world_mixed, None) ∧
  w_tasks world_mixed !! 0 = Some web_up ∧
  Running <$> w_tasks (after_pass listOrder [up_container] world_mixed) !! 0 = Some 1%Z.
Proof.
  assert (CountAllTasks listOrder (inr [up_container]) world_mixed =
          Returns (after_pass listOrder [up_container] world_mixed, None)) as Hpass
    by (vm_compute; reflexivity).
  split; [exact Hpass|]. split; [reflexivity|].
  destruct (CountAllTasks_counts_running listOrder [up_container] world_mixed _ _ 0 web_up
              Hpass eq_refl) as [_ Hcount].
  apply Hcount. unfold int_max. simpl. lia.
Defined.

(** A container of a task that is not in the collection, listed before one
    that is. *)
Lemma CountAllTasks_ignores_foreign_container_witness :
  (∃ n, Labels (mkAPI "eeeeeeeeeeee0000" "Up 1 minute" (label_of "other")) !! labelMap = Some n ∧
        GetTask (w_tasks world_mixed) n = None) ∧
  CountAllTasks listOrder
    (inr ([] ++ mkAPI "eeeeeeeeeeee0000" "Up 1 minute" (label_of "other") :: [up_container]))
    world_mixed =
    Returns (after_pass listOrder
               [mkAPI "eeeeeeeeeeee0000" "Up 1 minute" (label_of "other"); up_container]
               world_mixed, None) ∧
  ∃ w2, CountAllTasks listOrder (inr ([] ++ [up_container])) world_mixed = Returns (w2, None) ∧
    w_sched w2 = w_sched (after_pass listOrder
               [mkAPI "eeeeeeeeeeee0000" "Up 1 minute" (label_of "other"); up_container]
               world_mixed).
Proof.
  assert (∃ n, Labels (mkAPI "eeeeeeeeeeee0000" "Up 1 minute" (label_of "other")) !! labelMap
               = Some n ∧ GetTask (w_tasks world_mixed) n = None) as Hforeign
    by (exists "other"; split; reflexivity).
  assert (CountAllTasks listOrder
            (inr ([] ++ mkAPI "eeeeeeeeeeee0000" "Up 1 minute" (label_of "other")
                        :: [up_container])) world_mixed =
          Returns (after_pass listOrder
                     [mkAPI "eeeeeeeeeeee0000" "Up 1 minute" (label_of "other"); up_container]
                     world_mixed, None)) as Hpass
    by (vm_compute; reflexivity).
  split; [exact Hforeign|]. split; [exact Hpass|].
  destruct (CountAllTasks_ignores_foreign_container listOrder [] [up_container] _
              world_mixed _ _ (or_intror Hforeign) Hpass) as (w2 & Hpass2 & Hs & _).
  exists w2. split; [exact Hpass2 | exact Hs].
Defined.

(** Two passes over two containers filed under one short identifier. *)
Lemma CountAllTasks_settles_witness :
  CountAllTasks listOrder (inr colliding) world_stopping = Returns (world_stopping_once, None) ∧
  ∃ w2, CountAllTasks listOrder (inr colliding) world_stopping_once = Returns (w2, None) ∧
        w_sched w2 = w_sched world_stopping_once ∧ w_tasks w2 = w_tasks world_stopping_once.
Proof.
  assert (CountAllTasks listOrder (inr colliding) world_stopping =
          Returns (world_stopping_once, None)) as Hpass by (vm_compute; reflexivity).
  split; [exact Hpass|].
  exact (CountAllTasks_settles listOrder listOrder_perm colliding world_stopping _ _ Hpass).
Defined.

(** The listed container of [web] and a record that was not listed. *)
Lemma CountAllTasks_seen_iff_listed_witness :
  CountAllTasks listOrder (inr [up_container]) world_mixed =
    Returns (after_pass listOrder [up_container] world_mixed, None) ∧
  "web" ∈ Name <$> w_tasks world_mixed ∧
  ∃ r, record (w_sched (after_pass listOrder [up_container] world_mixed)) "web" "dddddddddddd"
       = Some r ∧ updated r = true.
Proof.
  assert (CountAllTasks listOrder (inr [up_container]) world_mixed =
          Returns (after_pass listOrder [up_container] world_mixed, None)) as Hpass
    by (vm_compute; reflexivity).
  assert ("web" ∈ Name <$> w_tasks world_mixed) as Hin by (simpl; left).
  split; [exact Hpass|]. split; [exact Hin|].
  apply (CountAllTasks_seen_iff_listed listOrder listOrder_perm [up_container] world_mixed
           _ _ "web" "dddddddddddd" Hpass Hin).
  exists up_container. split; [left|]. split; reflexivity.
Defined.

(** The store after a registration of [web] and the first write of a start
    unit. *)
Lemma reachable_store_well_formed_witness :
  reachable listOrder
    (put_record (InitScheduler None (NewScheduler false) web_up).1
       "web" "0123456789ab" (mkContainer "created" false)) ∧
  store_ids_ok
    (put_record (InitScheduler None (NewScheduler false) web_up).1
       "web" "0123456789ab" (mkContainer "created" false)).
Proof.
  assert (reachable listOrder
            (put_record (InitScheduler None (NewScheduler false) web_up).1
               "web" "0123456789ab" (mkContainer "created" false))) as Hreach.
  { apply (reach_created listOrder "web" "0123456789abcdef"
             (InitScheduler None (NewScheduler false) web_up).1).
    - apply reach_init, reach_new.
    - vm_compute. reflexivity. }
  split; [exact Hreach|].
  exact (proj1 (reachable_store_well_formed listOrder listOrder_perm _ Hreach)).
Defined.

(** A record in state "stopping" whose container the runtime reports as
    exited and as dead. *)
Lemma CountAllTasks_moves_witness :
  CountAllTasks listOrder (inr colliding) world_stopping = Returns (world_stopping_once, None) ∧
  pass_moves (state_of (record (w_sched world_stopping) "web" "0123456789ab")) "dead".
Proof.
  assert (CountAllTasks listOrder (inr colliding) world_stopping =
          Returns (world_stopping_once, None)) as Hpass by (vm_compute; reflexivity).
  split; [exact Hpass|].
  exact (CountAllTasks_moves listOrder listOrder_perm colliding world_stopping _ _
           "web" "0123456789ab" Hpass).
Defined.

Lemma stopping_record_waits_witness :
  record store_stopping "web" "0123456789ab" = Some (mkContainer "stopping" false) ∧
  left_alone listOrder ("web", "0123456789ab") store_stopping
    ([] ++ option_list (stopTask listOrder store_stopping web_down).1.2)
    (stopTask listOrder store_stopping web_down).1.1 ∧
  (StopUnit "web" "0123456789ab" ∉
    [] ++ option_list (stopTask listOrder store_stopping web_down).1.2) ∧
  ∃ cc', record (stopTask listOrder store_stopping web_down).1.1 "web" "0123456789ab"
         = Some cc' ∧ (state cc' = "stopping" ∨ state cc' = "dead").
Proof.
  assert (left_alone listOrder ("web", "0123456789ab") store_stopping
            ([] ++ option_list (stopTask listOrder store_stopping web_down).1.2)
            (stopTask listOrder store_stopping web_down).1.1) as Halone
    by (apply alone_stopTask, alone_refl).
  split; [reflexivity|]. split; [exact Halone|].
  exact (stopping_record_waits listOrder listOrder_perm store_stopping _ _
           "web" "0123456789ab" (mkContainer "stopping" false) eq_refl eq_refl Halone).
Defined.

(** The stop of the one container of [web]. *)
Lemma stop_runs_to_deletion_witness :
  stopTask listOrder store_web web_down =
    (put_record store_web "web" "0123456789ab" (mkContainer "stopping" false),
     Some (StopUnit "web" "0123456789ab"), None) ∧
  ∃ c2, stopTask_unit None "web" "0123456789ab"
          (put_record store_web "web" "0123456789ab" (mkContainer "stopping" false))
        = Returns c2 ∧
        state <$> record c2 "web" "0123456789ab" = Some "removing".
Proof.
  assert (stopTask listOrder store_web web_down =
          (put_record store_web "web" "0123456789ab" (mkContainer "stopping" false),
           Some (StopUnit "web" "0123456789ab"), None)) as Hstop by (vm_compute; reflexivity).
  split; [exact Hstop|].
  destruct (stop_runs_to_deletion listOrder listOrder_perm store_web _ web_down _ _ Hstop)
    as (_ & c2 & Hunit & Hrec & _).
  exists c2. split; [exact Hunit | exact Hrec].
Defined.

(** A first pass that returns before its start unit has begun, and a second
    pass with nothing to launch: the unit of the first pass is between its
    Add and its Done when the caller of the second reaches Wait, and Wait
    does not return. *)
Lemma wait_group_guarantee_witness :
  runs 1 [] (mkRun AtWait 1 [(StartUnit "web", Working)]) ∧
  scaling (mkRun AtWait 1 [(StartUnit "web", Working)]) =
    working (pool (mkRun AtWait 1 [(StartUnit "web", Working)])) ∧
  issued 1 (mkRun AtWait 1 [(StartUnit "web", Working)]) = [] ∧
  step (mkRun AtWait 1 [(StartUnit "web", Working)]) Caller = None.
Proof.
  assert (runs 1 [] (mkRun AtWait 1 [(StartUnit "web", Working)])) as Hruns.
  { apply (runs_step 1 [] (mkRun (AtLoops []) 1 [(StartUnit "web", Working)]) _ Caller);
      [|reflexivity].
    apply (runs_step 1 [] (mkRun (AtLoops []) 0 [(StartUnit "web", Launched)]) _ (Goroutine 0));
      [|reflexivity].
    apply (runs_pass 0 [StartUnit "web"] [] (mkRun HasReturned 0 [(StartUnit "web", Launched)]));
      [|reflexivity].
    apply (runs_step 0 [StartUnit "web"] (mkRun AtWait 0 [(StartUnit "web", Launched)]) _ Caller);
      [|reflexivity].
    apply (runs_step 0 [StartUnit "web"] (mkRun (AtLoops []) 0 [(StartUnit "web", Launched)])
             _ Caller); [|reflexivity].
    apply (runs_step 0 [StartUnit "web"] (mkRun (AtLoops [StartUnit "web"]) 0 []) _ Caller);
      [|reflexivity].
    exact (runs_pass 0 [] [StartUnit "web"] (mkRun HasReturned 0 []) runs_begin eq_refl). }
  split; [exact Hruns|].
  destruct (wait_group_guarantee 1 [] _ Hruns) as (Hcount & _ & _ & Hissued & _).
  split; [exact Hcount|]. split; [exact Hissued | reflexivity].
Defined.
